(** * 15 Minute Time Tracker: timer/interrupt engine and insight engine

    A shallow embedding of the extension's JavaScript:
    - [background.js] (service worker: alarms, interrupts, message handlers),
    - [utils.js] (storage helpers, daily and weekly insights),
    - [popup.js] (label submission, label-set editing),
    followed by the properties of the specification (C1 to C10), each
    settled on these definitions.

    Modelling conventions.
    - Timestamps (milliseconds since the epoch) are [Z]; [undefined] and
      [null] are [None].  JavaScript truthiness is written out: a number is
      truthy when it is not [0], a string when it is not empty, an object or
      an array always.
    - Text is [string] (bytes); [toLowerCase], [trim] and [length] are the
      ASCII ones.
    - Hours are [count * 0.25]; these doubles are exact, so they are [Q].
    - An object used as a map keeps its own properties in creation order;
      [Object.keys] lists array-index keys first (ascending); a lookup that
      misses the own properties falls through to [Object.prototype] where
      the source looks up label names.  The keys of [dailyPriority] and of
      the day groups are [toDateString] results, which never collide with
      [Object.prototype].
    - Every [Date.now()] and [new Date()] is one reading of the host clock;
      readings are numbered, the world counts how many were taken.
    - A handler runs from start to end without another one in between; the
      submit handler of the popup is also given in the stretches between its
      storage writes.  A computation either completes normally or throws;
      what was written before a throw stays written. *)

From Stdlib Require Import ZArith QArith Qround List String Ascii Bool Lia Arith.
From Stdlib Require Import DecimalString Permutation Sorted.
Import ListNotations.

Local Open Scope string_scope.
Local Open Scope Z_scope.

(* ===================================================================== *)
(** ** JavaScript values used by the extension *)
(* ===================================================================== *)

(** [String.prototype.toLowerCase], ASCII letters. *)
Definition lower_ascii (c : ascii) : ascii :=
  let n := nat_of_ascii c in
  if (65 <=? n)%nat && (n <=? 90)%nat then ascii_of_nat (n + 32) else c.

Fixpoint toLowerCase (s : string) : string :=
  match s with
  | EmptyString => EmptyString
  | String c r => String (lower_ascii c) (toLowerCase r)
  end.

(** [s.includes(kw)]: [kw] occurs in [s] as a contiguous substring. *)
Fixpoint includes (s kw : string) : bool :=
  String.prefix kw s ||
  match s with
  | EmptyString => false
  | String _ r => includes r kw
  end.

(** [String.prototype.trim], ASCII white space (TAB, LF, VT, FF, CR, SP). *)
Definition is_space (c : ascii) : bool :=
  let n := nat_of_ascii c in
  ((9 <=? n)%nat && (n <=? 13)%nat) || (n =? 32)%nat.

Fixpoint trimStart (s : string) : string :=
  match s with
  | EmptyString => EmptyString
  | String c r => if is_space c then trimStart r else s
  end.

Fixpoint trimEnd (s : string) : string :=
  match s with
  | EmptyString => EmptyString
  | String c r =>
      match trimEnd r with
      | EmptyString => if is_space c then EmptyString else String c EmptyString
      | r' => String c r'
      end
  end.

Definition trim (s : string) : string := trimEnd (trimStart s).

(** Truthiness of a string, and [s || null]. *)
Definition truthy_string (s : string) : bool :=
  match s with EmptyString => false | _ => true end.

Definition string_or_null (s : string) : option string :=
  if truthy_string s then Some s else None.

(** Truthiness of a number-or-null ([0] is falsy). *)
Definition truthy_num (t : option Z) : bool :=
  match t with
  | Some n => negb (n =? 0)
  | None => false
  end.

(** Decimal rendering of a natural number. *)
Definition string_of_N (n : N) : string := NilZero.string_of_uint (N.to_uint n).

(** [x.toFixed(1)]: the integer [n] with [n / 10] closest to [x], the larger
    one on a tie, printed with one digit after the point. *)
Definition toFixed1_abs (x : Q) : string :=
  let n := Z.to_N (Qfloor (x * 10 + (1 # 2))) in
  string_of_N (n / 10)%N ++ "." ++ string_of_N (n mod 10)%N.

Definition toFixed1 (x : Q) : string :=
  if Qle_bool 0 x then toFixed1_abs x else "-" ++ toFixed1_abs (- x).

(** Number comparisons as JavaScript writes them. *)
Definition Qgtb (x y : Q) : bool := negb (Qle_bool x y).
Definition Qgeb (x y : Q) : bool := Qle_bool y x.

(** Outcome of running a piece of JavaScript. *)
Inductive Completion (A : Type) : Type :=
| Normal (a : A)
| TypeError (msg : string).
Arguments Normal {A} a.
Arguments TypeError {A} msg.

(** *** Arrays *)

(** [arr[i] = v].  In range the element is replaced; past the end the array
    grows and the skipped positions are holes, filled with [hole]. *)
Fixpoint array_set {A : Type} (hole : A) (arr : list A) (i : nat) (v : A) : list A :=
  match arr, i with
  | [], O => [v]
  | [], S i' => hole :: array_set hole [] i' v
  | _ :: r, O => v :: r
  | x :: r, S i' => x :: array_set hole r i' v
  end.

(** [arr.splice(i, 1)]: removes the element at [i] when there is one. *)
Fixpoint splice1 {A : Type} (arr : list A) (i : nat) : list A :=
  match arr, i with
  | [], _ => []
  | _ :: r, O => r
  | x :: r, S i' => x :: splice1 r i'
  end.

(** [arr.sort(cmp)]: stable; [a] stays before [b] unless [cmp(a, b) > 0]. *)
Fixpoint sort_insert {A : Type} (cmp : A -> A -> Q) (x : A) (l : list A) : list A :=
  match l with
  | [] => [x]
  | y :: r => if Qle_bool (cmp x y) 0 then x :: l else y :: sort_insert cmp x r
  end.

Definition array_sort {A : Type} (cmp : A -> A -> Q) (l : list A) : list A :=
  fold_right (sort_insert cmp) [] l.

(** [arr.reduce(f)] without an initial value; throws on the empty array. *)
Definition reduce {A : Type} (f : A -> A -> A) (l : list A) : Completion A :=
  match l with
  | [] => TypeError "Reduce of empty array with no initial value"
  | x :: r => Normal (fold_left f r x)
  end.

(** *** Objects used as maps *)

(** The own enumerable properties of [{}]-created objects, in creation
    order. *)
Definition JsObject (V : Type) : Type := list (string * V).

Fixpoint own {V : Type} (k : string) (o : JsObject V) : option V :=
  match o with
  | [] => None
  | (k', v) :: r => if String.eqb k k' then Some v else own k r
  end.

Definition has_own {V : Type} (k : string) (o : JsObject V) : bool :=
  match own k o with Some _ => true | None => false end.

Fixpoint own_update {V : Type} (k : string) (v : V) (o : JsObject V) : JsObject V :=
  match o with
  | [] => [(k, v)]
  | (k', v') :: r =>
      if String.eqb k k' then (k', v) :: r else (k', v') :: own_update k v r
  end.

(** [o[k] = v] for a primitive [v]: the [__proto__] setter of
    [Object.prototype] ignores primitives, every other key becomes (or
    updates) an own property. *)
Definition obj_set {V : Type} (k : string) (v : V) (o : JsObject V) : JsObject V :=
  if String.eqb k "__proto__" then o else own_update k v o.

(** Array-index keys: the canonical decimal strings below [2^32 - 1]. *)
Definition array_index (k : string) : option N :=
  match NilZero.uint_of_string k with
  | Some u =>
      let n := N.of_uint u in
      if String.eqb (string_of_N n) k && (n <? 4294967295)%N then Some n else None
  | None => None
  end.

Fixpoint insert_index (n : N) (k : string) (l : list (N * string)) : list (N * string) :=
  match l with
  | [] => [(n, k)]
  | (m, k') :: r => if (n <=? m)%N then (n, k) :: l else (m, k') :: insert_index n k r
  end.

Fixpoint index_keys (ks : list string) : list (N * string) :=
  match ks with
  | [] => []
  | k :: r =>
      match array_index k with
      | Some n => insert_index n k (index_keys r)
      | None => index_keys r
      end
  end.

Definition is_array_index (k : string) : bool :=
  match array_index k with Some _ => true | None => false end.

(** [Object.keys(o)]. *)
Definition keys {V : Type} (o : JsObject V) : list string :=
  let ks := map fst o in
  map snd (index_keys ks) ++ filter (fun k => negb (is_array_index k)) ks.

(** The names [Object.prototype] defines; reading one of them on an object
    that has no own property of that name yields a function or object. *)
Definition object_prototype_names : list string :=
  [ "constructor"; "hasOwnProperty"; "isPrototypeOf"; "propertyIsEnumerable";
    "toLocaleString"; "toString"; "valueOf"; "__proto__";
    "__defineGetter__"; "__defineSetter__"; "__lookupGetter__";
    "__lookupSetter__" ].

Definition on_prototype (k : string) : bool :=
  existsb (String.eqb k) object_prototype_names.

(** [o.hasOwnProperty(k)]: the call goes through the property
    [hasOwnProperty] of [o] itself, which an own property of that name (a
    number here) shadows. *)
Definition call_hasOwnProperty {V : Type} (o : JsObject V) (k : string) : Completion bool :=
  if has_own "hasOwnProperty" o
  then TypeError "hasOwnProperty is not a function"
  else Normal (has_own k o).

(* ===================================================================== *)
(** ** Data model *)
(* ===================================================================== *)

(** A label as an element of the stored label array: a string, or [null]
    (what a hole of the array becomes once the array is stored). *)
Definition Label : Type := option string.

(** [String(label)], the property key a label is used under. *)
Definition label_key (l : Label) : string :=
  match l with Some s => s | None => "null" end.

Definition label_eqb (a b : Label) : bool :=
  match a, b with
  | Some x, Some y => String.eqb x y
  | None, None => true
  | _, _ => false
  end.

(** [{start, end}], the interval awaiting a label. *)
Record PendingBlock : Type := mkPending {
  pb_start : Z;
  pb_end : Z
}.

(** [{start, end, label, note, dailyPriority}], a labelled interval. *)
Record TimeBlock : Type := mkBlock {
  tb_start : Z;
  tb_end : Z;
  tb_label : string;
  tb_note : option string;
  tb_dailyPriority : option string
}.

(** [chrome.storage.local]: one field per key the extension uses; an absent
    key is [None] ([false] for the two flags, which are only tested for
    truthiness). *)
Record Storage : Type := mkStorage {
  timeBlocks : option (list TimeBlock);
  dailyPriority : option (JsObject string);
  pendingBlock : option PendingBlock;
  timerStart : option Z;
  isRunning : bool;
  customLabels : option (list Label);
  needsPriority : bool;
  currentDay : option string
}.

Definition set_timeBlocks (v : option (list TimeBlock)) (s : Storage) : Storage :=
  mkStorage v (dailyPriority s) (pendingBlock s) (timerStart s) (isRunning s)
            (customLabels s) (needsPriority s) (currentDay s).

Definition set_dailyPriority (v : option (JsObject string)) (s : Storage) : Storage :=
  mkStorage (timeBlocks s) v (pendingBlock s) (timerStart s) (isRunning s)
            (customLabels s) (needsPriority s) (currentDay s).

Definition set_pendingBlock (v : option PendingBlock) (s : Storage) : Storage :=
  mkStorage (timeBlocks s) (dailyPriority s) v (timerStart s) (isRunning s)
            (customLabels s) (needsPriority s) (currentDay s).

Definition set_timerStart (v : option Z) (s : Storage) : Storage :=
  mkStorage (timeBlocks s) (dailyPriority s) (pendingBlock s) v (isRunning s)
            (customLabels s) (needsPriority s) (currentDay s).

Definition set_isRunning (v : bool) (s : Storage) : Storage :=
  mkStorage (timeBlocks s) (dailyPriority s) (pendingBlock s) (timerStart s) v
            (customLabels s) (needsPriority s) (currentDay s).

Definition set_customLabels (v : option (list Label)) (s : Storage) : Storage :=
  mkStorage (timeBlocks s) (dailyPriority s) (pendingBlock s) (timerStart s)
            (isRunning s) v (needsPriority s) (currentDay s).

Definition set_needsPriority (v : bool) (s : Storage) : Storage :=
  mkStorage (timeBlocks s) (dailyPriority s) (pendingBlock s) (timerStart s)
            (isRunning s) (customLabels s) v (currentDay s).

Definition set_currentDay (v : option string) (s : Storage) : Storage :=
  mkStorage (timeBlocks s) (dailyPriority s) (pendingBlock s) (timerStart s)
            (isRunning s) (customLabels s) (needsPriority s) v.

(** A freshly installed extension: nothing stored. *)
Definition empty_storage : Storage :=
  mkStorage None None None None false None false None.

(** What the host keeps for the extension besides the storage: the alarm
    [timeTrackerInterrupt] (its [when]), the badge text, whether the
    notification [timeBlockInterrupt] is shown; and how many clock readings
    and random draws have been taken so far. *)
Record World : Type := mkWorld {
  storage : Storage;
  alarm : option Z;
  badge : string;
  notification : bool;
  ticks : nat;
  draws : nat
}.

Definition initial_world : World := mkWorld empty_storage None "" false 0 0.

(** The host: its clock, the local calendar ([toDateString] of a timestamp;
    local midnight seven days before a timestamp) and [Math.random]. *)
Record Host : Type := mkHost {
  clock : nat -> Z;
  toDateString : Z -> string;
  weekStartOf : Z -> Z;
  random : nat -> Q
}.

(** The memory of one popup page: the globals [pendingBlock] and
    [selectedLabel], the text of the note field, and the array
    [DEFAULT_LABELS] (a constant binding, but a mutable array that
    [getLabels] hands out itself). *)
Record Popup : Type := mkPopup {
  p_pendingBlock : option PendingBlock;
  selectedLabel : option Label;
  noteInput : string;
  p_DEFAULT_LABELS : list Label
}.

Definition DEFAULT_LABELS : list Label :=
  [Some "Work"; Some "Meetings"; Some "Break"; Some "Planning"; Some "Other"].

Definition NOTE_CHAR_LIMIT : nat := 100.

(** 15 minutes in milliseconds. *)
Definition INTERRUPT_INTERVAL : Z := 15 * 60 * 1000.

(* ===================================================================== *)
(** ** Effects: state and exceptions *)
(* ===================================================================== *)

Definition M (A : Type) : Type := World -> Completion A * World.

Definition ret {A : Type} (a : A) : M A := fun w => (Normal a, w).

Definition bind {A B : Type} (m : M A) (k : A -> M B) : M B :=
  fun w =>
    match m w with
    | (Normal a, w') => k a w'
    | (TypeError e, w') => (TypeError e, w')
    end.

Definition throw {A : Type} (msg : string) : M A := fun w => (TypeError msg, w).

Definition lift {A : Type} (c : Completion A) : M A := fun w => (c, w).

Declare Scope js_scope.
Delimit Scope js_scope with js.
Notation "x <- m ;; k" := (bind m (fun x => k))
  (at level 61, m at next level, right associativity) : js_scope.
Notation "m ;;; k" := (bind m (fun _ => k))
  (at level 61, right associativity) : js_scope.

(** Sequencing of computations that may throw but touch no state. *)
Definition cbind {A B : Type} (c : Completion A) (k : A -> Completion B) : Completion B :=
  match c with
  | Normal a => k a
  | TypeError e => TypeError e
  end.

Notation "x <-- c ;; k" := (cbind c (fun x => k))
  (at level 61, c at next level, right associativity) : js_scope.

Definition exec {A : Type} (m : M A) (w : World) : World := snd (m w).
Definition result {A : Type} (m : M A) (w : World) : Completion A := fst (m w).

(** [chrome.storage.local.get] and [set]. *)
Definition storage_get : M Storage := fun w => (Normal (storage w), w).

Definition storage_set (f : Storage -> Storage) : M unit :=
  fun w => (Normal tt,
            mkWorld (f (storage w)) (alarm w) (badge w) (notification w)
                    (ticks w) (draws w)).

Definition setBadgeText (t : string) : M unit :=
  fun w => (Normal tt,
            mkWorld (storage w) (alarm w) t (notification w) (ticks w) (draws w)).

Definition notifications_set (b : bool) : M unit :=
  fun w => (Normal tt,
            mkWorld (storage w) (alarm w) (badge w) b (ticks w) (draws w)).

Definition alarms_set (a : option Z) : M unit :=
  fun w => (Normal tt,
            mkWorld (storage w) a (badge w) (notification w) (ticks w) (draws w)).

Section Engine.

Variable host : Host.

(** [Date.now()]: the next reading of the clock. *)
Definition Date_now : M Z :=
  fun w => (Normal (clock host (ticks w)),
            mkWorld (storage w) (alarm w) (badge w) (notification w)
                    (S (ticks w)) (draws w)).

(** [Math.random()]. *)
Definition Math_random : M Q :=
  fun w => (Normal (random host (draws w)),
            mkWorld (storage w) (alarm w) (badge w) (notification w)
                    (ticks w) (S (draws w))).

Local Open Scope js_scope.

(* ===================================================================== *)
(** ** background.js *)
(* ===================================================================== *)

(** [scheduleNextInterrupt(targetTime)]: clears the alarm, then creates it
    with [when: targetTime]. *)
Definition scheduleNextInterrupt (targetTime : Z) : M unit :=
  alarms_set None ;;;
  alarms_set (Some targetTime).

(** [triggerInterrupt()]: stores the pending block, sets the badge, raises
    the notification. *)
Definition triggerInterrupt : M unit :=
  st <- storage_get ;;
  timerStart <- (if truthy_num (timerStart st)
                 then ret (match timerStart st with Some t => t | None => 0 end)
                 else Date_now) ;;
  let blockStart := timerStart in
  blockEnd <- Date_now ;;
  storage_set (set_pendingBlock (Some (mkPending blockStart blockEnd))) ;;;
  setBadgeText "!" ;;;
  notifications_set true.

(** [checkTimerState()]. *)
Definition checkTimerState : M unit :=
  st <- storage_get ;;
  if negb (isRunning st) then ret tt
  else
    match pendingBlock st with
    | Some _ => ret tt
    | None =>
        match timerStart st with
        | Some t =>
            if negb (t =? 0) then
              now <- Date_now ;;
              let elapsed := now - t in
              if INTERRUPT_INTERVAL <=? elapsed then triggerInterrupt
              else
                let remaining := INTERRUPT_INTERVAL - elapsed in
                now' <- Date_now ;;
                scheduleNextInterrupt (now' + remaining)
            else ret tt
        | None => ret tt
        end
    end.

(** [checkDailyPriority()]. *)
Definition checkDailyPriority : M unit :=
  now <- Date_now ;;
  let today := toDateString host now in
  st <- storage_get ;;
  let dailyPriority := match dailyPriority st with Some o => o | None => [] end in
  if match currentDay st with Some d => String.eqb d today | None => false end
  then ret tt
  else
    storage_set (set_currentDay (Some today)) ;;;
    match own today dailyPriority with
    | Some p => if truthy_string p then ret tt else storage_set (set_needsPriority true)
    | None => storage_set (set_needsPriority true)
    end.

(** [initialize()], run whenever the service worker starts. *)
Definition initialize : M unit :=
  checkDailyPriority ;;;
  checkTimerState.

(** The [chrome.alarms.onAlarm] listener for [timeTrackerInterrupt]; a
    [when] alarm is gone once it has fired. *)
Definition onAlarm : M unit :=
  alarms_set None ;;;
  triggerInterrupt.

(** [updateBadge()] and [ensureNotificationExists()]. *)
Definition updateBadge : M unit :=
  st <- storage_get ;;
  match pendingBlock st with
  | Some _ => setBadgeText "!"
  | None => setBadgeText ""
  end.

Definition ensureNotificationExists : M unit :=
  st <- storage_get ;;
  match pendingBlock st with
  | Some _ => notifications_set true
  | None => ret tt
  end.

(** The body of the one-minute [setInterval]. *)
Definition periodicCheck : M unit :=
  checkTimerState ;;;
  updateBadge ;;;
  ensureNotificationExists.

(** Messages the popup sends to the service worker. *)
Inductive Action : Type :=
| startTimer
| stopTimer
| scheduleNextInterruptMsg
| clearPendingBlock
| getTimerState
| test.

(** [{isRunning, timerStart, pendingBlock}] as [getTimerState] answers. *)
Record TimerState : Type := mkTimerState {
  ts_isRunning : bool;
  ts_timerStart : option Z;
  ts_pendingBlock : option PendingBlock
}.

Inductive Response : Type :=
| Success
| State (s : TimerState).

(** The [chrome.runtime.onMessage] listener. *)
Definition onMessage (a : Action) : M Response :=
  match a with
  | test => ret Success
  | startTimer =>
      now <- Date_now ;;
      storage_set (fun s => set_isRunning true (set_timerStart (Some now) s)) ;;;
      scheduleNextInterrupt (now + INTERRUPT_INTERVAL) ;;;
      ret Success
  | stopTimer =>
      alarms_set None ;;;
      storage_set (fun s => set_timerStart None (set_isRunning false s)) ;;;
      ret Success
  | scheduleNextInterruptMsg =>
      now <- Date_now ;;
      st <- storage_get ;;
      (if isRunning st then
         storage_set (set_timerStart (Some now)) ;;;
         scheduleNextInterrupt (now + INTERRUPT_INTERVAL) ;;;
         setBadgeText ""
       else ret tt) ;;;
      ret Success
  | clearPendingBlock =>
      storage_set (set_pendingBlock None) ;;;
      setBadgeText "" ;;;
      notifications_set false ;;;
      updateBadge ;;;
      ret Success
  | getTimerState =>
      st <- storage_get ;;
      ret (State (mkTimerState (isRunning st)
                               (if truthy_num (timerStart st) then timerStart st else None)
                               (pendingBlock st)))
  end.

(* ===================================================================== *)
(** ** utils.js *)
(* ===================================================================== *)

(** [getLabels()]: the stored array, else the popup's [DEFAULT_LABELS]
    (an empty stored array is truthy and is returned as it is). *)
Definition getLabels (p : Popup) : M (list Label) :=
  st <- storage_get ;;
  ret (match customLabels st with Some l => l | None => p_DEFAULT_LABELS p end).

(** [getTimeBlocks()]. *)
Definition getTimeBlocks : M (list TimeBlock) :=
  st <- storage_get ;;
  ret (match timeBlocks st with Some l => l | None => [] end).

(** [saveTimeBlock(timeBlock)]: read the list, push, write it back. *)
Definition saveTimeBlock (timeBlock : TimeBlock) : M unit :=
  blocks <- getTimeBlocks ;;
  let blocks := (blocks ++ [timeBlock])%list in
  storage_set (set_timeBlocks (Some blocks)).

(** [getTodayBlocks()]. *)
Definition getTodayBlocks : M (list TimeBlock) :=
  blocks <- getTimeBlocks ;;
  now <- Date_now ;;
  let today := toDateString host now in
  ret (filter (fun block => String.eqb (toDateString host (tb_start block)) today) blocks).

(** [getWeekBlocks()]: the blocks that start at or after local midnight
    seven days ago. *)
Definition getWeekBlocks : M (list TimeBlock) :=
  blocks <- getTimeBlocks ;;
  now <- Date_now ;;
  let weekStart := weekStartOf host now in
  ret (filter (fun block => weekStart <=? tb_start block) blocks).

(** [priorities[day] || null].  The keys are [toDateString] results, which
    are never names of [Object.prototype], so a miss is [undefined]. *)
Definition priority_of (day : string) (priorities : JsObject string) : option string :=
  match own day priorities with
  | Some p => string_or_null p
  | None => None
  end.

(** [getTodayPriority()]. *)
Definition getTodayPriority : M (option string) :=
  now <- Date_now ;;
  let today := toDateString host now in
  st <- storage_get ;;
  let priorities := match dailyPriority st with Some o => o | None => [] end in
  ret (priority_of today priorities).

(** [setTodayPriority(priority)]. *)
Definition setTodayPriority (priority : string) : M unit :=
  now <- Date_now ;;
  let today := toDateString host now in
  st <- storage_get ;;
  let priorities := match dailyPriority st with Some o => o | None => [] end in
  let priorities := own_update today priority priorities in
  storage_set (set_dailyPriority (Some priorities)).

(** [hasPriorityToday()]. *)
Definition hasPriorityToday : M bool :=
  priority <- getTodayPriority ;;
  ret (match priority with Some _ => true | None => false end).

(** The quotation mark of the message templates. *)
Definition dquote : string := String (ascii_of_nat 34) EmptyString.

(** [labels.forEach(label => labelCounts[label] = 0)]. *)
Definition zero_counts (labels : list Label) : JsObject Z :=
  fold_left (fun labelCounts label => obj_set (label_key label) 0 labelCounts) labels [].

(** One round of the counting loop:
    [if (!labelCounts.hasOwnProperty(block.label)) labelCounts[block.label] = 0;
     labelCounts[block.label]++].
    After the guard the property is an own one, except for [__proto__],
    where the increment reads [Object.prototype], computes [NaN] and writes
    it through the setter that ignores it. *)
Definition count_block (labelCounts : JsObject Z) (block : TimeBlock) : Completion (JsObject Z) :=
  has <-- call_hasOwnProperty labelCounts (tb_label block) ;;
  let labelCounts := if has then labelCounts else obj_set (tb_label block) 0 labelCounts in
  match own (tb_label block) labelCounts with
  | Some n => Normal (own_update (tb_label block) (n + 1) labelCounts)
  | None => Normal labelCounts
  end.

Fixpoint count_blocks (labelCounts : JsObject Z) (blocks : list TimeBlock) : Completion (JsObject Z) :=
  match blocks with
  | [] => Normal labelCounts
  | block :: rest =>
      labelCounts' <-- count_block labelCounts block ;;
      count_blocks labelCounts' rest
  end.

(** The property values of an object in [Object.keys] order: what
    [Object.keys(o).forEach(k => ... o[k] ...)] visits, and
    [Object.entries(o)]. *)
Definition entries {V : Type} (o : JsObject V) : list (string * V) :=
  flat_map (fun k => match own k o with Some v => [(k, v)] | None => [] end) (keys o).

(** [Object.keys(labelCounts).forEach(label =>
      labelHours[label] = labelCounts[label] * 0.25)]. *)
Definition hours_of (labelCounts : JsObject Z) : JsObject Q :=
  fold_left (fun labelHours kv => obj_set (fst kv) (inject_Z (snd kv) * (1 # 4))%Q labelHours)
            (entries labelCounts) [].

(** [Object.keys(labelHours).reduce((a, b) =>
      labelHours[a] > labelHours[b] ? a : b)], carried out on the entries so
    that each key comes with its value. *)
Definition dominant (labelHours : JsObject Q) : Completion (string * Q) :=
  reduce (fun a b => if Qgtb (snd a) (snd b) then a else b) (entries labelHours).

(** The keyword table of the priority heuristic. *)
Definition priorityKeywords : JsObject (list string) :=
  [ ("work", ["work"; "task"; "project"; "complete"; "finish"; "deliver"; "code"; "build"; "create"]);
    ("meetings", ["meeting"; "call"; "sync"; "discuss"; "collaborate"; "team"; "standup"; "review"]);
    ("break", ["break"; "rest"; "lunch"; "pause"; "recharge"; "refresh"; "relax"]);
    ("planning", ["plan"; "organize"; "review"; "strategize"; "prepare"; "schedule"; "prioritize"]);
    ("other", ["other"; "misc"; "admin"; "email"; "message"; "chat"]) ].

(** [(priorityKeywords[dominantLower] || []).some(keyword =>
      priorityLower.includes(keyword))].  A key the table lacks but
    [Object.prototype] has yields a truthy value without [some]. *)
Definition priorityMatches (priority dominantLabel : string) : Completion bool :=
  let priorityLower := toLowerCase priority in
  let dominantLower := toLowerCase dominantLabel in
  match own dominantLower priorityKeywords with
  | Some relevantKeywords =>
      Normal (existsb (fun keyword => includes priorityLower keyword) relevantKeywords)
  | None =>
      if on_prototype dominantLower
      then TypeError "relevantKeywords.some is not a function"
      else Normal false
  end.

(** The three message templates of the daily insight. *)
Definition msg_but_spent (priority : string) (hours : Q) (label : string) : string :=
  "You said " ++ dquote ++ priority ++ dquote ++ " mattered most today, but spent "
  ++ toFixed1 hours ++ " hours in " ++ toLowerCase label ++ ".".

Definition msg_aligned (priority : string) (hours : Q) (label : string) : string :=
  "You said " ++ dquote ++ priority ++ dquote ++ " mattered most today. You spent "
  ++ toFixed1 hours ++ " hours in " ++ toLowerCase label ++ ".".

(** [Object.entries(labelHours).sort((a, b) => b[1] - a[1])
      .filter(([label]) => label !== dominantLabel && labelHours[label] > 0)]. *)
Definition runners_up (labelHours : JsObject Q) (dominantLabel : string) : list (string * Q) :=
  filter (fun e => negb (String.eqb (fst e) dominantLabel) && Qgtb (snd e) 0)
         (array_sort (fun a b => snd b - snd a)%Q (entries labelHours)).

(** The body of [generateDailyInsight] once priority, blocks and labels are
    read and the [null] case is past. *)
Definition dailyInsight (priority : string) (blocks : list TimeBlock) (labels : list Label)
  : Completion string :=
  labelCounts <-- count_blocks (zero_counts labels) blocks ;;
  let labelHours := hours_of labelCounts in
  dom <-- dominant labelHours ;;
  let dominantLabel := fst dom in
  priorityMatchesLabel <-- priorityMatches priority dominantLabel ;;
  if priorityMatchesLabel then
    match runners_up labelHours dominantLabel with
    | (secondLabel, hours) :: _ =>
        if Qgeb hours 1
        then Normal (msg_but_spent priority hours secondLabel)
        else Normal (msg_aligned priority (snd dom) dominantLabel)
    | [] => Normal (msg_aligned priority (snd dom) dominantLabel)
    end
  else
    let hours := snd dom in
    Normal (msg_but_spent priority hours dominantLabel).

(** [generateDailyInsight()]; [None] is [null]. *)
Definition generateDailyInsight (p : Popup) : M (option string) :=
  priority <- getTodayPriority ;;
  blocks <- getTodayBlocks ;;
  match priority, blocks with
  | None, _ => ret None
  | _, [] => ret None
  | Some priority, _ =>
      labels <- getLabels p ;;
      insight <- lift (dailyInsight priority blocks labels) ;;
      ret (Some insight)
  end.

(** [{day, priority, actual, hours}]. *)
Record Mismatch : Type := mkMismatch {
  mm_day : string;
  mm_priority : string;
  mm_actual : string;
  mm_hours : Q
}.

(** What [generateWeeklyInsights] returns ([suggestion] is [None] when the
    index computed from [Math.random] falls outside the array). *)
Record WeeklyInsights : Type := mkWeekly {
  biggestMismatch : option Mismatch;
  longestAvoidanceStreak : Q;
  suggestion : option string
}.

(** [if (!dayGroups[day]) dayGroups[day] = []; dayGroups[day].push(block)].
    The keys are [toDateString] results. *)
Definition group_block (dayGroups : JsObject (list TimeBlock)) (block : TimeBlock)
  : JsObject (list TimeBlock) :=
  let day := toDateString host (tb_start block) in
  match own day dayGroups with
  | Some dayBlocks => own_update day (dayBlocks ++ [block])%list dayGroups
  | None => own_update day [block] dayGroups
  end.

Definition group_by_day (blocks : list TimeBlock) : JsObject (list TimeBlock) :=
  fold_left group_block blocks [].

(** The callback of [Object.keys(dayGroups).forEach], on the loop variables
    [biggestMismatch] and [maxMismatchHours]. *)
Definition day_step (dailyPriorities : JsObject string) (labels : list Label)
    (acc : option Mismatch * Q) (group : string * list TimeBlock)
  : Completion (option Mismatch * Q) :=
  let day := fst group in
  let dayBlocks := snd group in
  match priority_of day dailyPriorities with
  | None => Normal acc
  | Some dayPriority =>
      dayLabelCounts <-- count_blocks (zero_counts labels) dayBlocks ;;
      let dayLabelHours := hours_of dayLabelCounts in
      dom <-- dominant dayLabelHours ;;
      let dominantLabel := fst dom in
      priorityMatchesLabel <-- priorityMatches dayPriority dominantLabel ;;
      if negb priorityMatchesLabel then
        let hours := snd dom in
        if Qgtb hours (snd acc)
        then Normal (Some (mkMismatch day dayPriority dominantLabel hours), hours)
        else Normal acc
      else Normal acc
  end.

Fixpoint day_loop (dailyPriorities : JsObject string) (labels : list Label)
    (acc : option Mismatch * Q) (groups : list (string * list TimeBlock))
  : Completion (option Mismatch * Q) :=
  match groups with
  | [] => Normal acc
  | group :: rest =>
      acc' <-- day_step dailyPriorities labels acc group ;;
      day_loop dailyPriorities labels acc' rest
  end.

(** [labels.includes('Break') ? 'Break'
      : (labels.includes('Other') ? 'Other' : labels[labels.length - 1])]. *)
Definition breakLabelOf (labels : list Label) : Label :=
  if existsb (label_eqb (Some "Break")) labels then Some "Break"
  else if existsb (label_eqb (Some "Other")) labels then Some "Other"
  else match labels with
       | [] => None
       | _ => nth (List.length labels - 1) labels None
       end.

(** The streak loop, on [longestStreak] and [currentStreak]. *)
Definition streak_step (breakLabel : Label) (acc : nat * nat) (block : TimeBlock) : nat * nat :=
  let '(longestStreak, currentStreak) := acc in
  if label_eqb (Some (tb_label block)) breakLabel
  then (Nat.max longestStreak (S currentStreak), S currentStreak)
  else (longestStreak, O).

(** [blocks.sort((a, b) => new Date(a.start) - new Date(b.start))]. *)
Definition sort_by_start (blocks : list TimeBlock) : list TimeBlock :=
  array_sort (fun a b => inject_Z (tb_start a) - inject_Z (tb_start b))%Q blocks.

Definition longestStreakOf (labels : list Label) (blocks : list TimeBlock) : nat :=
  let sortedBlocks := sort_by_start blocks in
  let breakLabel := breakLabelOf labels in
  fst (fold_left (streak_step breakLabel) sortedBlocks (O, O)).

Definition suggestions : list string :=
  [ "Consider batching similar tasks together to improve focus.";
    "Review your meeting schedule - could any be shorter or async?";
    "Try time-blocking your most important work for better results." ].

(** [suggestions[Math.floor(r * suggestions.length)]]. *)
Definition pick_suggestion (r : Q) : option string :=
  let i := Qfloor (r * inject_Z (Z.of_nat (List.length suggestions))) in
  if i <? 0 then None else nth_error suggestions (Z.to_nat i).

(** The part of [generateWeeklyInsights] that finds the biggest mismatch. *)
Definition biggestMismatchOf (dailyPriorities : JsObject string) (labels : list Label)
    (blocks : list TimeBlock) : Completion (option Mismatch) :=
  let dayGroups := group_by_day blocks in
  acc <-- day_loop dailyPriorities labels (None, 0%Q) (entries dayGroups) ;;
  Normal (fst acc).

(** [generateWeeklyInsights()]. *)
Definition generateWeeklyInsights (p : Popup) : M WeeklyInsights :=
  blocks <- getWeekBlocks ;;
  st <- storage_get ;;
  let dailyPriorities := match dailyPriority st with Some o => o | None => [] end in
  labels <- getLabels p ;;
  labelCounts <- lift (count_blocks (zero_counts labels) blocks) ;;
  let labelHours := hours_of labelCounts in
  biggestMismatch <- lift (biggestMismatchOf dailyPriorities labels blocks) ;;
  let longestStreak := longestStreakOf labels blocks in
  r <- Math_random ;;
  let suggestion := pick_suggestion r in
  ret (mkWeekly biggestMismatch
                (inject_Z (Z.of_nat longestStreak) * (1 # 4))%Q
                suggestion).

(* ===================================================================== *)
(** ** popup.js *)
(* ===================================================================== *)

Definition set_p_pendingBlock (v : option PendingBlock) (p : Popup) : Popup :=
  mkPopup v (selectedLabel p) (noteInput p) (p_DEFAULT_LABELS p).

Definition set_selectedLabel (v : option Label) (p : Popup) : Popup :=
  mkPopup (p_pendingBlock p) v (noteInput p) (p_DEFAULT_LABELS p).

Definition set_noteInput (v : string) (p : Popup) : Popup :=
  mkPopup (p_pendingBlock p) (selectedLabel p) v (p_DEFAULT_LABELS p).

Definition set_p_DEFAULT_LABELS (v : list Label) (p : Popup) : Popup :=
  mkPopup (p_pendingBlock p) (selectedLabel p) (noteInput p) v.

(** A popup page as it is loaded. *)
Definition fresh_popup : Popup := mkPopup None None "" DEFAULT_LABELS.

(** The screen the popup shows. *)
Inductive Screen : Type :=
| priorityPrompt
| taggingScreen
| mainMenu.

(** [saveLabels(labels)]. *)
Definition saveLabels (labels : list Label) : M unit :=
  storage_set (set_customLabels (Some labels)).

(** [showTaggingScreen()] resets the selection and the note field. *)
Definition showTaggingScreen (p : Popup) : Popup :=
  set_noteInput "" (set_selectedLabel None p).

(** [initializePopup()]: loads the pending block into the page, sets the
    badge, and picks the screen. *)
Definition initializePopup (p : Popup) : M (Popup * Screen) :=
  st <- storage_get ;;
  let p := set_p_pendingBlock (pendingBlock st) p in
  (match p_pendingBlock p with
   | Some _ => setBadgeText "!"
   | None => setBadgeText ""
   end) ;;;
  if needsPriority st then ret (p, priorityPrompt)
  else
    match p_pendingBlock p with
    | Some _ => ret (showTaggingScreen p, taggingScreen)
    | None => ret (p, mainMenu)
    end.

(** The submit button of the priority prompt, with the text typed. *)
Definition submitPriority (input : string) (p : Popup) : M (Popup * Screen) :=
  let priority := trim input in
  if (String.length priority =? 0)%nat then ret (p, priorityPrompt)
  else
    setTodayPriority priority ;;;
    storage_set (set_needsPriority false) ;;;
    match p_pendingBlock p with
    | Some _ => ret (showTaggingScreen p, taggingScreen)
    | None => ret (p, mainMenu)
    end.

(** A label button of the tagging screen. *)
Definition clickLabel (label : Label) (p : Popup) : Popup :=
  set_selectedLabel (Some label) p.

(** [selectedLabel] when it is truthy. *)
Definition chosen_label (p : Popup) : option string :=
  match selectedLabel p with
  | Some (Some l) => string_or_null l
  | _ => None
  end.

(** The two checks that open the submit handler. *)
Definition submit_valid (p : Popup) : bool :=
  match chosen_label p with
  | Some _ => (String.length (noteInput p) <=? NOTE_CHAR_LIMIT)%nat
  | None => false
  end.

(** The object literal [timeBlock] of the submit handler;
    [pendingBlock.start] throws when the page holds no pending block. *)
Definition makeTimeBlock (p : Popup) (label : string) (todayPriority : option string)
  : Completion TimeBlock :=
  match p_pendingBlock p with
  | Some pending =>
      Normal (mkBlock (pb_start pending) (pb_end pending) label
                      (string_or_null (trim (noteInput p))) todayPriority)
  | None => TypeError "Cannot read properties of null (reading 'start')"
  end.

(** The submit handler up to and including [await saveTimeBlock(timeBlock)],
    its first storage write. *)
Definition submit_save (p : Popup) : M unit :=
  match chosen_label p with
  | Some label =>
      todayPriority <- getTodayPriority ;;
      timeBlock <- lift (makeTimeBlock p label todayPriority) ;;
      saveTimeBlock timeBlock
  | None => ret tt
  end.

(** The second storage write, [set({pendingBlock: null})], and the badge
    and notification calls after it. *)
Definition submit_clear : M unit :=
  storage_set (set_pendingBlock None) ;;;
  setBadgeText "" ;;;
  notifications_set false.

(** [chrome.runtime.sendMessage({action: 'scheduleNextInterrupt'})], taken
    together with the service worker handling it. *)
Definition submit_resume : M unit :=
  _ <- onMessage scheduleNextInterruptMsg ;;
  ret tt.

(** The [onclick] handler of the submit button.  It leaves the page's
    [pendingBlock], [selectedLabel] and note field as they are. *)
Definition submitLabel (p : Popup) : M unit :=
  if submit_valid p then
    submit_save p ;;;
    submit_clear ;;;
    submit_resume
  else ret tt.

(** [getLabels()] together with whether the array handed out is
    [DEFAULT_LABELS] itself. *)
Definition getLabelsRef (p : Popup) : M (list Label * bool) :=
  st <- storage_get ;;
  ret (match customLabels st with
       | Some l => (l, false)
       | None => (p_DEFAULT_LABELS p, true)
       end).

(** The page after an in-place change of the array [getLabels] returned. *)
Definition mutated (aliased : bool) (labels : list Label) (p : Popup) : Popup :=
  if aliased then set_p_DEFAULT_LABELS labels p else p.

(** The add button of the settings screen, with the text typed. *)
Definition addLabel (input : string) (p : Popup) : M Popup :=
  let labelName := trim input in
  if (String.length labelName =? 0)%nat then ret p
  else if (50 <? String.length labelName)%nat then ret p
  else
    la <- getLabelsRef p ;;
    let '(labels, aliased) := la in
    if existsb (label_eqb (Some labelName)) labels then ret p
    else
      let labels := (labels ++ [Some labelName])%list in
      saveLabels labels ;;;
      ret (mutated aliased labels p).

(** The save handler of [editLabel(index, ..., currentName)], with the text
    typed. *)
Definition editLabel (index : nat) (currentName : Label) (input : string) (p : Popup) : M Popup :=
  let newName := trim input in
  if (String.length newName =? 0)%nat then ret p
  else if (50 <? String.length newName)%nat then ret p
  else
    la <- getLabelsRef p ;;
    let '(labels, aliased) := la in
    if existsb (label_eqb (Some newName)) labels && negb (label_eqb (Some newName) currentName)
    then ret p
    else
      let labels := array_set None labels index (Some newName) in
      saveLabels labels ;;;
      ret (mutated aliased labels p).

(** [deleteLabel(index, labelName)], with the answer to [confirm]. *)
Definition deleteLabel (index : nat) (confirmed : bool) (p : Popup) : M Popup :=
  if negb confirmed then ret p
  else
    la <- getLabelsRef p ;;
    let '(labels, aliased) := la in
    let labels := splice1 labels index in
    let p := mutated aliased labels p in
    match labels with
    | [] => saveLabels (p_DEFAULT_LABELS p) ;;; ret p
    | _ => saveLabels labels ;;; ret p
    end.

(* ===================================================================== *)
(** ** The extension as a transition system *)
(* ===================================================================== *)

(** What can happen to the extension.  Each event runs one handler (for the
    submit handler: one stretch between storage writes) to completion. *)
Inductive Event : Type :=
| EvStartup
| EvPeriodic
| EvAlarm
| EvMessage (a : Action)
| EvOpenPopup (p : Popup)
| EvSubmitPriority (input : string) (p : Popup)
| EvSubmitSave (p : Popup)
| EvSubmitClear
| EvAddLabel (input : string) (p : Popup)
| EvEditLabel (index : nat) (currentName : Label) (input : string) (p : Popup)
| EvDeleteLabel (index : nat) (confirmed : bool) (p : Popup).

Definition forget {A : Type} (m : M A) : M unit := _ <- m ;; ret tt.

Definition handle (ev : Event) : M unit :=
  match ev with
  | EvStartup => initialize ;;; updateBadge ;;; ensureNotificationExists
  | EvPeriodic => periodicCheck
  | EvAlarm => onAlarm
  | EvMessage a => forget (onMessage a)
  | EvOpenPopup p => forget (initializePopup p)
  | EvSubmitPriority input p => forget (submitPriority input p)
  | EvSubmitSave p => if submit_valid p then submit_save p else ret tt
  | EvSubmitClear => submit_clear
  | EvAddLabel input p => forget (addLabel input p)
  | EvEditLabel index currentName input p => forget (editLabel index currentName input p)
  | EvDeleteLabel index confirmed p => forget (deleteLabel index confirmed p)
  end.

(** The alarm can only fire while it is scheduled. *)
Definition enabled (ev : Event) (w : World) : bool :=
  match ev with
  | EvAlarm => match alarm w with Some _ => true | None => false end
  | _ => true
  end.


Inductive reachable : World -> Prop :=
| reach_init : reachable initial_world
| reach_step (w : World) (ev : Event) :
    reachable w -> enabled ev w = true -> reachable (exec (handle ev) w).

End Engine.

(* ===================================================================== *)
(** ** More of background.js and popup.js *)
(* ===================================================================== *)

Section Surface.

Variable host : Host.

Local Open Scope js_scope.

(** The [chrome.notifications.onClicked] and [onButtonClicked] listeners for
    [timeBlockInterrupt]: they ask for the popup and clear the
    notification. *)
Definition onNotificationClicked : M unit :=
  notifications_set false.

(** An integer inside a template string. *)
Definition string_of_Z (z : Z) : string :=
  if z <? 0 then "-" ++ string_of_N (Z.to_N (- z)) else string_of_N (Z.to_N z).

(** [s.padStart(2, '0')]. *)
Definition padStart2 (s : string) : string :=
  match String.length s with
  | O => "00"
  | S O => "0" ++ s
  | _ => s
  end.

(** What [updateTimerUI] sets: the [display] of the two buttons, the text
    and the class of the status line. *)
Record TimerUI : Type := mkTimerUI {
  startDisplay : string;
  stopDisplay : string;
  statusText : string;
  statusClass : string
}.

(** [Math.floor(elapsed / 60000)] and
    [Math.floor((elapsed % 60000) / 1000)]. *)
Definition elapsed_minutes (elapsed : Z) : Z := elapsed / 60000.
Definition elapsed_seconds (elapsed : Z) : Z := Z.rem elapsed 60000 / 1000.

(** [updateTimerUI()], the elements of the main menu being present. *)
Definition updateTimerUI : M TimerUI :=
  response <- onMessage host getTimerState ;;
  let '(isRunning, timerStart, pendingBlock) :=
    match response with
    | State r => (ts_isRunning r, ts_timerStart r, ts_pendingBlock r)
    | Success => (false, None, None)
    end in
  if isRunning then
    match pendingBlock with
    | Some _ =>
        ret (mkTimerUI "none" "block" "⏸ Timer paused - label pending block"
                       "timer-status paused")
    | None =>
        match timerStart with
        | Some t =>
            if negb (t =? 0) then
              now <- Date_now host ;;
              let elapsed := now - t in
              let minutes := elapsed_minutes elapsed in
              let seconds := elapsed_seconds elapsed in
              ret (mkTimerUI "none" "block"
                     ("▶ Running - " ++ string_of_Z minutes ++ ":"
                      ++ padStart2 (string_of_Z seconds) ++ " elapsed")
                     "timer-status running")
            else ret (mkTimerUI "none" "block" "▶ Timer running" "timer-status running")
        | None => ret (mkTimerUI "none" "block" "▶ Timer running" "timer-status running")
        end
    end
  else ret (mkTimerUI "block" "none" "⏹ Timer stopped" "timer-status stopped").



End Surface.

(* ===================================================================== *)
(** ** Readings of the state used in the statements *)
(* ===================================================================== *)

(** What [getTimeBlocks] answers in a world. *)
Definition stored_blocks (w : World) : list TimeBlock :=
  match timeBlocks (storage w) with Some l => l | None => [] end.

(** The time block the submit handler builds from the page. *)
Definition block_of (p : Popup) (pb : PendingBlock) (label : string)
    (todayPriority : option string) : TimeBlock :=
  mkBlock (pb_start pb) (pb_end pb) label (string_or_null (trim (noteInput p))) todayPriority.

(** The world after one more clock reading. *)
Definition tick (w : World) : World :=
  mkWorld (storage w) (alarm w) (badge w) (notification w) (S (ticks w)) (draws w).

(** The current reading of the clock, and the reading after [k] more. *)
Definition now_at (host : Host) (w : World) (k : nat) : Z :=
  clock host (ticks w + k).

(** What [getTodayPriority] answers in a world. *)
Definition priority_now (host : Host) (w : World) : option string :=
  priority_of (toDateString host (clock host (ticks w)))
              (match dailyPriority (storage w) with Some o => o | None => [] end).

(** What [getTodayBlocks] answers in a world. *)
Definition blocks_now (host : Host) (w : World) : list TimeBlock :=
  filter (fun block =>
            String.eqb (toDateString host (tb_start block))
                       (toDateString host (clock host (ticks w))))
         (stored_blocks w).

(** The world between the two storage writes of a label submission. *)
Definition between_writes (host : Host) (p : Popup) (w : World) : World :=
  exec (submit_save host p) w.

(** A clock that never runs backwards. *)
Definition monotone (host : Host) : Prop :=
  forall i j : nat, (i <= j)%nat -> clock host i <= clock host j.

(** A host for concrete runs: the clock starts at [1700000000000] and
    advances one millisecond per reading; days are UTC days, named [D] and
    their number since the epoch. *)
Definition sample_host : Host :=
  mkHost (fun i => 1700000000000 + Z.of_nat i)
         (fun t => "D" ++ string_of_N (Z.to_N (t / 86400000)))
         (fun t => t / 86400000 * 86400000 - 7 * 86400000)
         (fun _ => 0%Q).

(** The timer is started on a fresh installation. *)
Definition started_world : World :=
  exec (handle sample_host (EvMessage startTimer)) initial_world.

(** Then the alarm fires: an interval awaits its label. *)
Definition awaiting_world : World :=
  exec (handle sample_host EvAlarm) started_world.

(** A popup opened in that world, with the label Work chosen and a short
    note typed. *)
Definition opened_popup : Popup :=
  match result (initializePopup fresh_popup) awaiting_world with
  | Normal (p, _) => p
  | TypeError _ => fresh_popup
  end.

Definition awaiting_popup : Popup :=
  set_noteInput "email" (clickLabel (Some "Work") opened_popup).

(** A world in which a timer was running for twenty minutes when the
    service worker restarts. *)
Definition restart_world : World :=
  mkWorld (mkStorage None None None (Some (1700000000000 - 20 * 60 * 1000)) true
                     None false None)
          None "" false 0 0.

(** The timer is stopped while the interval still awaits its label. *)
Definition stopped_world : World :=
  exec (handle sample_host (EvMessage stopTimer)) awaiting_world.

(** What [getLabels] answers in a world, for a page. *)
Definition labels_of (p : Popup) (w : World) : list Label :=
  match customLabels (storage w) with Some l => l | None => p_DEFAULT_LABELS p end.

(** How many of the blocks carry a label. *)
Definition count_label (label : string) (blocks : list TimeBlock) : nat :=
  List.length (filter (fun block => String.eqb (tb_label block) label) blocks).

(** Blocks that carry the given labels and nothing else of interest. *)
Definition blocks_labelled (labels : list string) : list TimeBlock :=
  map (fun label => mkBlock 0 0 label None None) labels.

(** The daily-insight example of the specification: the sentence the code
    produces, and the sentence the specification quotes. *)
Definition client_report_message : string :=
  "You said " ++ dquote ++ "Finish the client report" ++ dquote
  ++ " mattered most today. You spent 0.8 hours in work.".

Definition client_report_message_in_spec : string :=
  "You said " ++ dquote ++ "Finish the client report" ++ dquote
  ++ " mattered most today. You spent 0.75 hours in work.".

(** Four quarter-hour blocks of today, three Work and one Meetings, with
    the priority of the example declared for today. *)
Definition client_report_world : World :=
  mkWorld
    (mkStorage
       (Some [ mkBlock 1699996400000 1699997300000 "Work" None None;
               mkBlock 1699997300000 1699998200000 "Work" None None;
               mkBlock 1699998200000 1699999100000 "Meetings" (Some "weekly sync") None;
               mkBlock 1699999100000 1700000000000 "Work" None None ])
       (Some [("D19675", "Finish the client report")])
       None None false None false (Some "D19675"))
    None "" false 0 0.

(** What [getWeekBlocks] answers in a world. *)
Definition week_now (host : Host) (w : World) : list TimeBlock :=
  filter (fun block => weekStartOf host (clock host (ticks w)) <=? tb_start block)
         (stored_blocks w).

(** The stored map of daily priorities. *)
Definition priorities_of (w : World) : JsObject string :=
  match dailyPriority (storage w) with Some o => o | None => [] end.

(** [seg] is a run of [l]: consecutive elements of [l], all satisfying [P]. *)
Definition is_run {A : Type} (P : A -> bool) (seg l : list A) : Prop :=
  (exists pre post, l = (pre ++ seg ++ post)%list) /\ forallb P seg = true.

(** [n] is the length of the longest run of [l]. *)
Definition longest_run {A : Type} (P : A -> bool) (l : list A) (n : nat) : Prop :=
  (exists seg, is_run P seg l /\ List.length seg = n) /\
  (forall seg, is_run P seg l -> (List.length seg <= n)%nat).

(** The length of the run [l] starts with, and of the longest run in [l]. *)
Fixpoint leading_run {A : Type} (P : A -> bool) (l : list A) : nat :=
  match l with
  | [] => O
  | x :: r => if P x then S (leading_run P r) else O
  end.

Fixpoint best_run {A : Type} (P : A -> bool) (l : list A) : nat :=
  match l with
  | [] => O
  | x :: r => if P x then Nat.max (S (leading_run P r)) (best_run P r) else best_run P r
  end.

(** Order by start time. *)
Definition by_start (a b : TimeBlock) : Prop := tb_start a <= tb_start b.

(** The block carries the given label ([block.label === breakLabel]). *)
Definition has_label (label : Label) (block : TimeBlock) : bool :=
  label_eqb (Some (tb_label block)) label.

(** A week whose blocks, by start time, are labelled Break, Break, Work,
    Break, Break, Break (stored out of order). *)
Definition streak_week : list TimeBlock :=
  [ mkBlock 1699990000000 1699990900000 "Work" None None;
    mkBlock 1699986400000 1699987300000 "Break" None None;
    mkBlock 1699988200000 1699989100000 "Break" None None;
    mkBlock 1699999100000 1700000000000 "Break" None None;
    mkBlock 1699996400000 1699997300000 "Break" None None;
    mkBlock 1699993700000 1699994600000 "Break" None None ].

Definition streak_world : World :=
  mkWorld (mkStorage (Some streak_week) None None None false None false None)
          None "" false 0 0.

(** The mismatch test of one day group: the day has a declared priority,
    [m] records the day, that priority, the dominant label of the day's
    blocks and its hours, and the priority does not match that label. *)
Definition day_mismatch (dailyPriorities : JsObject string) (labels : list Label)
    (group : string * list TimeBlock) (m : Mismatch) : Prop :=
  mm_day m = fst group /\
  priority_of (fst group) dailyPriorities = Some (mm_priority m) /\
  exists dayLabelCounts,
    count_blocks (zero_counts labels) (snd group) = Normal dayLabelCounts /\
    dominant (hours_of dayLabelCounts) = Normal (mm_actual m, mm_hours m) /\
    priorityMatches (mm_priority m) (mm_actual m) = Normal false.

(** The day has a declared priority and it matches the dominant label. *)
Definition day_match (dailyPriorities : JsObject string) (labels : list Label)
    (group : string * list TimeBlock) : Prop :=
  exists dayPriority dayLabelCounts dom,
    priority_of (fst group) dailyPriorities = Some dayPriority /\
    count_blocks (zero_counts labels) (snd group) = Normal dayLabelCounts /\
    dominant (hours_of dayLabelCounts) = Normal dom /\
    priorityMatches dayPriority (fst dom) = Normal true.

(** The loop variables [biggestMismatch] and [maxMismatchHours] after the
    day groups [processed]: the recorded day is the first of those with the
    largest mismatch hours, and these are positive. *)
Definition best_so_far (dailyPriorities : JsObject string) (labels : list Label)
    (processed : list (string * list TimeBlock)) (acc : option Mismatch * Q) : Prop :=
  match fst acc with
  | None =>
      snd acc = 0%Q /\
      forall g m', In g processed -> day_mismatch dailyPriorities labels g m' ->
                   (mm_hours m' <= 0)%Q
  | Some m =>
      snd acc = mm_hours m /\
      (0 < mm_hours m)%Q /\
      exists before dayBlocks after,
        processed = (before ++ (mm_day m, dayBlocks) :: after)%list /\
        day_mismatch dailyPriorities labels (mm_day m, dayBlocks) m /\
        (forall g m', In g before -> day_mismatch dailyPriorities labels g m' ->
                      (mm_hours m' < mm_hours m)%Q) /\
        (forall g m', In g after -> day_mismatch dailyPriorities labels g m' ->
                      (mm_hours m' <= mm_hours m)%Q)
  end.

(** The calendar day of a block, and whether a block is of a day. *)
Definition day_of (host : Host) (b : TimeBlock) : string :=
  toDateString host (tb_start b).

Definition on_day (host : Host) (day : string) (b : TimeBlock) : bool :=
  String.eqb (toDateString host (tb_start b)) day.

(** What the grouping loop has built after the blocks [processed]. *)
Definition groups_of (host : Host) (processed : list TimeBlock)
    (o : JsObject (list TimeBlock)) : Prop :=
  NoDup (map fst o) /\
  (forall day dayBlocks, own day o = Some dayBlocks ->
     dayBlocks <> [] /\ dayBlocks = filter (on_day host day) processed) /\
  (forall b, In b processed -> In (day_of host b) (map fst o)).

(** The groups hold the blocks by calendar day: each group is the blocks of
    its day, in order, and is not empty; every block's day has its group;
    no day has two. *)
Definition grouped_by_day (host : Host) (blocks : list TimeBlock)
    (groups : list (string * list TimeBlock)) : Prop :=
  NoDup (map fst groups) /\
  (forall day dayBlocks, In (day, dayBlocks) groups ->
     dayBlocks <> [] /\
     dayBlocks = filter (fun b => String.eqb (toDateString host (tb_start b)) day) blocks) /\
  (forall b, In b blocks -> In (toDateString host (tb_start b)) (map fst groups)).

(** A week with three days of blocks.  On the first the priority does not
    match the dominant label Meetings (0.5 hours); on the second it does not
    match the dominant label Work (0.5 hours, a tie with the first); on the
    third it matches the dominant label Work (0.75 hours). *)
Definition mismatch_week : list TimeBlock :=
  [ mkBlock 1699500000000 1699500900000 "Meetings" None None;
    mkBlock 1699500900000 1699501800000 "Meetings" None None;
    mkBlock 1699590000000 1699590900000 "Work" None None;
    mkBlock 1699590900000 1699591800000 "Work" None None;
    mkBlock 1699680000000 1699680900000 "Work" None None;
    mkBlock 1699680900000 1699681800000 "Work" None None;
    mkBlock 1699681800000 1699682700000 "Work" None None ].

Definition mismatch_world : World :=
  mkWorld
    (mkStorage (Some mismatch_week)
               (Some [ ("D19670", "Write the thesis");
                       ("D19671", "Exercise");
                       ("D19672", "Finish the project") ])
               None None false None false None)
    None "" false 0 0.

(** The user has added a label named [constructor] in the settings and
    labelled today's only block with it; a priority is declared for today. *)
Definition constructor_world : World :=
  mkWorld
    (mkStorage
       (Some [ mkBlock 1699999100000 1700000000000 "constructor" None
                       (Some "Ship the release") ])
       (Some [("D19675", "Ship the release")])
       None None false
       (Some [Some "Work"; Some "Meetings"; Some "Break"; Some "Planning"; Some "Other";
              Some "constructor"])
       false (Some "D19675"))
    None "" false 0 0.

(** The same with a label named [hasOwnProperty] in the label set; the
    block itself is labelled Work. *)
Definition hasOwnProperty_world : World :=
  mkWorld
    (mkStorage
       (Some [ mkBlock 1699999100000 1700000000000 "Work" None (Some "Ship the release") ])
       (Some [("D19675", "Ship the release")])
       None None false
       (Some [Some "Work"; Some "Meetings"; Some "Break"; Some "Planning"; Some "Other";
              Some "hasOwnProperty"])
       false (Some "D19675"))
    None "" false 0 0.

(** A label name that is safe as a property key of the counting objects
    and of the keyword table: it is not [hasOwnProperty], and its lower-case
    form is not the name of a member of [Object.prototype]. *)
Definition plain_key (k : string) : bool :=
  negb (String.eqb k "hasOwnProperty") && negb (on_prototype (toLowerCase k)).

Definition plain_labels (labels : list Label) : Prop :=
  Forall (fun label => plain_key (label_key label) = true) labels.

Definition plain_blocks (blocks : list TimeBlock) : Prop :=
  Forall (fun block => plain_key (tb_label block) = true) blocks.

(** All own keys of an object are plain. *)
Definition plain_object {V : Type} (o : JsObject V) : Prop :=
  forall k, In k (map fst o) -> plain_key k = true.

(** A stopped timer has no alarm. *)
Definition quiet (w : World) : Prop :=
  isRunning (storage w) = false -> alarm w = None.

(** A stored [timerStart] is a reading the clock gave earlier. *)
Definition timer_in_past (host : Host) (w : World) : Prop :=
  forall t, timerStart (storage w) = Some t ->
            exists i, (i < ticks w)%nat /\ t = clock host i.

(** The timer fields and the alarm are as before; readings only add up. *)
Definition timer_frame (w w' : World) : Prop :=
  alarm w' = alarm w /\
  isRunning (storage w') = isRunning (storage w) /\
  timerStart (storage w') = timerStart (storage w) /\
  (ticks w <= ticks w')%nat.

(** Every storage key but [customLabels] is as before. *)
Definition only_labels_written (w w' : World) : Prop :=
  timeBlocks (storage w') = timeBlocks (storage w) /\
  dailyPriority (storage w') = dailyPriority (storage w) /\
  pendingBlock (storage w') = pendingBlock (storage w) /\
  timerStart (storage w') = timerStart (storage w) /\
  isRunning (storage w') = isRunning (storage w) /\
  needsPriority (storage w') = needsPriority (storage w) /\
  currentDay (storage w') = currentDay (storage w).

(** A computation relates every world to the world it leaves. *)
Definition respects {A : Type} (R : World -> World -> Prop) (m : M A) : Prop :=
  forall w, R w (snd (m w)).

(** A computation keeps a property of the world. *)
Definition keeps {A : Type} (I : World -> Prop) (m : M A) : Prop :=
  forall w, I w -> I (exec m w).

(** The invariant of the timer: a stopped timer has no alarm, and a stored
    [timerStart] is an earlier reading of the clock. *)
Definition timer_inv (host : Host) (w : World) : Prop :=
  quiet w /\ timer_in_past host w.

(** An alarm is scheduled only for a running timer, and not before
    fifteen minutes after the stored [timerStart]. *)
Definition alarm_ok (w : World) : Prop :=
  forall a, alarm w = Some a ->
    isRunning (storage w) = true /\
    exists t, timerStart (storage w) = Some t /\ t + INTERRUPT_INTERVAL <= a.

(** The stored pending block does not end before it starts. *)
Definition pending_ordered (w : World) : Prop :=
  forall pb, pendingBlock (storage w) = Some pb -> pb_start pb <= pb_end pb.

(** What the timer engine keeps true besides [timer_inv]. *)
Definition engine_inv (host : Host) (w : World) : Prop :=
  timer_in_past host w /\ alarm_ok w /\ pending_ordered w.

(** The timer fields and the alarm are as before, and the pending block is
    as before or cleared. *)
Definition pending_frame (w w' : World) : Prop :=
  timer_frame w w' /\
  (pendingBlock (storage w') = pendingBlock (storage w) \/
   pendingBlock (storage w') = None).




(** A host whose clock is read once every fifteen minutes. *)
Definition quarter_host : Host :=
  mkHost (fun i => 1700000000000 + 900000 * Z.of_nat i)
         (fun t => "D" ++ string_of_N (Z.to_N (t / 86400000)))
         (fun t => t / 86400000 * 86400000 - 7 * 86400000)
         (fun _ => 0%Q).

(** The timer started on a fresh installation, under that host. *)
Definition quarter_started : World :=
  exec (handle quarter_host (EvMessage startTimer)) initial_world.

(** The day a reading of the clock falls on. *)
Definition day_at (host : Host) (w : World) (k : nat) : string :=
  toDateString host (now_at host w k).

(** The stored priority of a day, as [getTodayPriority] answers on it. *)
Definition priority_on (day : string) (w : World) : option string :=
  priority_of day (priorities_of w).

(** The priority prompt, once required, is still required. *)
Definition prompt_kept (w w' : World) : Prop :=
  needsPriority (storage w) = true -> needsPriority (storage w') = true.

(** The label list a page works on is not empty and cannot become so: a
    stored list has an element and the page's default list has one, or
    nothing is stored yet and the default list has two. *)
Definition labels_ok (p : Popup) (w : World) : Prop :=
  match customLabels (storage w) with
  | Some l => l <> [] /\ p_DEFAULT_LABELS p <> []
  | None => (2 <= List.length (p_DEFAULT_LABELS p))%nat
  end.

(** No label name occurs twice, neither in the list a page works on nor in
    its default list. *)
Definition labels_unique (p : Popup) (w : World) : Prop :=
  NoDup (labels_of p w) /\ NoDup (p_DEFAULT_LABELS p).

(** Nothing the extension keeps has changed: storage, alarm, badge and
    notification are as before (the clock and the random source may have
    been read). *)
Definition read_only (w w' : World) : Prop :=
  storage w' = storage w /\ alarm w' = alarm w /\
  badge w' = badge w /\ notification w' = notification w.





(** What the user has entered is as before: the stored blocks, the daily
    priorities and the label list. *)
Definition user_data_kept (w w' : World) : Prop :=
  timeBlocks (storage w') = timeBlocks (storage w) /\
  dailyPriority (storage w') = dailyPriority (storage w) /\
  customLabels (storage w') = customLabels (storage w).

(** The events of the service worker, and those of the popup page. *)
Definition service_worker_event (ev : Event) : bool :=
  match ev with
  | EvStartup | EvPeriodic | EvAlarm | EvMessage _ => true
  | _ => false
  end.

(** The first start of the service worker on a fresh installation. *)
Definition first_day_world : World :=
  exec (handle sample_host EvStartup) initial_world.

(* ===================================================================== *)
(** ** Frame reasoning for the effects *)
(* ===================================================================== *)

Section Frames.

Variable R : World -> World -> Prop.
Hypothesis R_refl : forall w, R w w.
Hypothesis R_trans : forall a b c, R a b -> R b c -> R a c.

Lemma respects_ret {A : Type} (a : A) : respects R (ret a).
Proof. intro w. apply R_refl. Qed.

Lemma respects_lift {A : Type} (c : Completion A) : respects R (lift c).
Proof. intro w. apply R_refl. Qed.

Lemma respects_storage_get : respects R storage_get.
Proof. intro w. apply R_refl. Qed.

Lemma respects_bind {A B : Type} (m : M A) (k : A -> M B) :
  respects R m -> (forall a, respects R (k a)) -> respects R (bind m k).
Proof.
  intros Hm Hk w. unfold bind. specialize (Hm w).
  destruct (m w) as [[a|e] w1]; cbn in *.
  - eapply R_trans; [ exact Hm | apply Hk ].
  - exact Hm.
Qed.

End Frames.

Ltac frame_with Rrefl Rtrans :=
  repeat first
    [ apply (respects_ret _ Rrefl)
    | apply (respects_lift _ Rrefl)
    | apply (respects_storage_get _ Rrefl)
    | apply (respects_bind _ Rtrans)
    | match goal with
      | |- forall _, _ => intro
      | |- respects _ (if ?c then _ else _) => destruct c
      | |- respects _ (match ?x with _ => _ end) => destruct x
      | |- respects _ (let '(_, _) := ?x in _) => destruct x
      end ].

Lemma timer_frame_refl (w : World) : timer_frame w w.
Proof. unfold timer_frame. auto. Qed.

Lemma timer_frame_trans (a b c : World) :
  timer_frame a b -> timer_frame b c -> timer_frame a c.
Proof.
  unfold timer_frame. intros (?&?&?&?) (?&?&?&?).
  repeat split; try congruence. lia.
Qed.

Lemma only_labels_refl (w : World) : only_labels_written w w.
Proof. unfold only_labels_written. tauto. Qed.

Lemma only_labels_trans (a b c : World) :
  only_labels_written a b -> only_labels_written b c -> only_labels_written a c.
Proof.
  unfold only_labels_written. intros (?&?&?&?&?&?&?) (?&?&?&?&?&?&?).
  repeat split; congruence.
Qed.

Ltac timer_framed :=
  frame_with timer_frame_refl timer_frame_trans;
  try (intro w; unfold timer_frame; cbn; repeat split; try reflexivity; lia).

(* ===================================================================== *)
(** ** Label submission (popup.js, submit handler) *)
(* ===================================================================== *)

Section Submission.

Variable host : Host.

Lemma getTodayPriority_run (w : World) :
  getTodayPriority host w = (Normal (priority_now host w), tick w).
Proof. reflexivity. Qed.

Lemma getTodayBlocks_run (w : World) :
  getTodayBlocks host w = (Normal (blocks_now host w), tick w).
Proof. reflexivity. Qed.

(** The service worker's answer to [scheduleNextInterrupt] leaves the block
    list and the pending block alone. *)
Lemma submit_resume_frame (w : World) :
  timeBlocks (storage (exec (submit_resume host) w)) = timeBlocks (storage w) /\
  pendingBlock (storage (exec (submit_resume host) w)) = pendingBlock (storage w).
Proof.
  unfold submit_resume, onMessage, exec, bind, Date_now, storage_get, ret. cbn.
  destruct (isRunning (storage w)); cbn; split; reflexivity.
Qed.

(** The first storage write of a submission, in closed form. *)
Lemma submit_save_world (p : Popup) (w : World) (pb : PendingBlock) (l : string) :
  p_pendingBlock p = Some pb ->
  chosen_label p = Some l ->
  exec (submit_save host p) w =
  mkWorld (set_timeBlocks
             (Some (stored_blocks w ++ [block_of p pb l (priority_now host w)])%list)
             (storage w))
          (alarm w) (badge w) (notification w) (S (ticks w)) (draws w).
Proof.
  intros Hp Hl. unfold submit_save. rewrite Hl.
  unfold exec, bind. rewrite getTodayPriority_run.
  unfold lift, makeTimeBlock. rewrite Hp. reflexivity.
Qed.

(** The handler is its three stretches run one after the other. *)
Lemma submitLabel_stretches (p : Popup) (w : World) (pb : PendingBlock) (l : string) :
  p_pendingBlock p = Some pb ->
  chosen_label p = Some l ->
  (String.length (noteInput p) <= NOTE_CHAR_LIMIT)%nat ->
  exec (submitLabel host p) w =
  exec (submit_resume host) (exec submit_clear (between_writes host p w)).
Proof.
  intros Hp Hl Hn. unfold between_writes.
  pose proof (submit_save_world p w pb l Hp Hl) as Hs.
  unfold submitLabel, submit_valid. rewrite Hl.
  apply Nat.leb_le in Hn. rewrite Hn.
  unfold exec in *. unfold bind at 1.
  unfold submit_save in *. rewrite Hl in *.
  unfold bind in Hs at 1. unfold bind at 1.
  rewrite getTodayPriority_run in *.
  unfold bind in Hs at 1. unfold bind at 1.
  unfold lift, makeTimeBlock in *. rewrite Hp in *.
  reflexivity.
Qed.

(** One submission: exactly one block is appended, built from the page's
    pending block, and the stored pending block is cleared. *)
Lemma submitLabel_once (p : Popup) (w : World) (pb : PendingBlock) (l : string) :
  p_pendingBlock p = Some pb ->
  chosen_label p = Some l ->
  (String.length (noteInput p) <= NOTE_CHAR_LIMIT)%nat ->
  stored_blocks (exec (submitLabel host p) w)
    = (stored_blocks w ++ [block_of p pb l (priority_now host w)])%list /\
  pendingBlock (storage (exec (submitLabel host p) w)) = None.
Proof.
  intros Hp Hl Hn.
  rewrite (submitLabel_stretches p w pb l Hp Hl Hn).
  unfold between_writes. rewrite (submit_save_world p w pb l Hp Hl).
  destruct (submit_resume_frame
              (exec submit_clear
                 (mkWorld (set_timeBlocks
                             (Some (stored_blocks w ++ [block_of p pb l (priority_now host w)])%list)
                             (storage w))
                          (alarm w) (badge w) (notification w) (S (ticks w)) (draws w))))
    as [Hb Hpend].
  unfold stored_blocks at 1. rewrite Hb, Hpend. split; reflexivity.
Qed.

End Submission.

(** The sample world is one the extension gets into. *)
Lemma awaiting_world_reachable : reachable sample_host awaiting_world.
Proof.
  unfold awaiting_world, started_world.
  apply reach_step; [ apply reach_step; [ apply reach_init | reflexivity ] | reflexivity ].
Qed.

(** Opening the popup loads the stored pending block into the page. *)
Lemma initializePopup_loads (p : Popup) (w : World) :
  exists p' scr,
    result (initializePopup p) w = Normal (p', scr) /\
    p_pendingBlock p' = pendingBlock (storage w) /\
    (scr = taggingScreen -> pendingBlock (storage w) <> None).
Proof.
  unfold initializePopup, result, bind, storage_get, setBadgeText, ret. cbn.
  destruct (pendingBlock (storage w)) as [pb|] eqn:E; cbn;
    destruct (needsPriority (storage w)); cbn;
    eexists; eexists; (split; [reflexivity | split; [ cbn; try reflexivity | ]]);
    intro H; try discriminate.
Qed.

(** C1 (as stated) fails: two submissions in a row from the same page append
    two blocks, not one. *)
Lemma submit_twice_not_idempotent :
  ~ (List.length
       (stored_blocks
          (exec (submitLabel sample_host awaiting_popup)
                (exec (submitLabel sample_host awaiting_popup) awaiting_world)))
     = S (List.length (stored_blocks awaiting_world))).
Proof. vm_compute. discriminate. Qed.

(** C1 (amended).  The submit handler has no guard on the pending block
    having been cleared: for every state and every page that holds a pending
    block, a chosen label and an admissible note, each invocation appends
    exactly one block built from the page's pending block and clears the
    stored pending block, so two invocations in a row append two blocks with
    the same start, end, label and note. *)
Theorem submit_twice_appends_two (host : Host) (p : Popup) (w : World)
    (pb : PendingBlock) (l : string) :
  p_pendingBlock p = Some pb ->
  chosen_label p = Some l ->
  (String.length (noteInput p) <= NOTE_CHAR_LIMIT)%nat ->
  let w1 := exec (submitLabel host p) w in
  let w2 := exec (submitLabel host p) w1 in
  stored_blocks w1 = (stored_blocks w ++ [block_of p pb l (priority_now host w)])%list /\
  pendingBlock (storage w1) = None /\
  stored_blocks w2 = (stored_blocks w ++ [block_of p pb l (priority_now host w);
                                          block_of p pb l (priority_now host w1)])%list /\
  pendingBlock (storage w2) = None.
Proof.
  intros Hp Hl Hn w1 w2.
  destruct (submitLabel_once host p w pb l Hp Hl Hn) as [H1 H1'].
  destruct (submitLabel_once host p w1 pb l Hp Hl Hn) as [H2 H2'].
  fold w1 in H1, H1'. fold w2 in H2, H2'.
  repeat split; try assumption.
  rewrite H2, H1, <- app_assoc. reflexivity.
Qed.

Lemma submit_twice_appends_two_witness :
  p_pendingBlock awaiting_popup = pendingBlock (storage awaiting_world) /\
  List.length
    (stored_blocks
       (exec (submitLabel sample_host awaiting_popup)
             (exec (submitLabel sample_host awaiting_popup) awaiting_world)))
  = S (S (List.length (stored_blocks awaiting_world))).
Proof.
  split; [ reflexivity | ].
  destruct (submit_twice_appends_two sample_host awaiting_popup awaiting_world
              (mkPending 1700000000000 1700000000001) "Work") as (_ & _ & H & _).
  - reflexivity.
  - reflexivity.
  - vm_compute. lia.
  - rewrite H. rewrite length_app. cbn. lia.
Defined.

(** C2 (as stated) fails: between the two storage writes of a submission the
    new block is already stored while the pending block is still there, and
    that state is one the extension gets into. *)
Lemma submit_not_atomic :
  ~ (reachable sample_host (between_writes sample_host awaiting_popup awaiting_world) ->
     List.length (stored_blocks (between_writes sample_host awaiting_popup awaiting_world))
       = S (List.length (stored_blocks awaiting_world)) ->
     pendingBlock (storage (between_writes sample_host awaiting_popup awaiting_world)) = None).
Proof.
  intro H.
  assert (R : reachable sample_host
                (between_writes sample_host awaiting_popup awaiting_world)).
  { change (between_writes sample_host awaiting_popup awaiting_world)
      with (exec (handle sample_host (EvSubmitSave awaiting_popup)) awaiting_world).
    apply reach_step; [ apply awaiting_world_reachable | reflexivity ]. }
  specialize (H R eq_refl). vm_compute in H. discriminate.
Qed.

(** C2 (amended).  The storage holds at most one pending block (it is one
    key).  A label submission appends exactly one block and clears the
    pending block, in two storage writes: after the first the block is
    appended and the pending block is untouched, the second clears it; the
    finished handler has appended exactly one block and left no pending
    block. *)
Theorem submit_two_writes (host : Host) (p : Popup) (w : World)
    (pb : PendingBlock) (l : string) :
  p_pendingBlock p = Some pb ->
  chosen_label p = Some l ->
  (String.length (noteInput p) <= NOTE_CHAR_LIMIT)%nat ->
  let wi := between_writes host p w in
  let w' := exec (submitLabel host p) w in
  let tb := block_of p pb l (priority_now host w) in
  (stored_blocks wi = (stored_blocks w ++ [tb])%list /\
   pendingBlock (storage wi) = pendingBlock (storage w)) /\
  w' = exec (submit_resume host) (exec submit_clear wi) /\
  pendingBlock (storage (exec submit_clear wi)) = None /\
  (stored_blocks w' = (stored_blocks w ++ [tb])%list /\
   pendingBlock (storage w') = None).
Proof.
  intros Hp Hl Hn wi w' tb. subst wi w' tb.
  split; [ | split; [ | split ] ].
  - unfold between_writes. rewrite (submit_save_world host p w pb l Hp Hl).
    split; reflexivity.
  - apply (submitLabel_stretches host p w pb l Hp Hl Hn).
  - reflexivity.
  - apply (submitLabel_once host p w pb l Hp Hl Hn).
Qed.

Lemma submit_two_writes_witness :
  pendingBlock (storage (between_writes sample_host awaiting_popup awaiting_world))
    = pendingBlock (storage awaiting_world) /\
  pendingBlock (storage (exec (submitLabel sample_host awaiting_popup) awaiting_world)) = None.
Proof.
  destruct (submit_two_writes sample_host awaiting_popup awaiting_world
              (mkPending 1700000000000 1700000000001) "Work")
    as ((_ & H1) & _ & _ & _ & H2).
  - reflexivity.
  - reflexivity.
  - vm_compute. lia.
  - split; assumption.
Defined.

(** What the state between the two writes leads to when the popup is closed
    there: the next popup finds the pending block, shows the tagging screen,
    and a submission stores the same interval a second time. *)
Lemma closed_between_writes_duplicates :
  let crashed := between_writes sample_host awaiting_popup awaiting_world in
  exists p,
    result (initializePopup fresh_popup) crashed = Normal (p, taggingScreen) /\
    map (fun b => (tb_start b, tb_end b))
        (stored_blocks
           (exec (submitLabel sample_host (clickLabel (Some "Work") p))
                 (exec (initializePopup fresh_popup) crashed)))
    = [ (1700000000000, 1700000000001); (1700000000000, 1700000000001) ].
Proof.
  eexists. split.
  - vm_compute. reflexivity.
  - vm_compute. reflexivity.
Qed.

(* ===================================================================== *)
(** ** Label-set editing (popup.js, settings screen) *)
(* ===================================================================== *)

Lemma editLabel_frame (index : nat) (currentName : Label) (input : string) (p : Popup) :
  respects only_labels_written (editLabel index currentName input p).
Proof.
  unfold editLabel, getLabelsRef, saveLabels.
  frame_with only_labels_refl only_labels_trans.
  all: intro w; unfold only_labels_written; cbn; tauto.
Qed.

Lemma deleteLabel_frame (index : nat) (confirmed : bool) (p : Popup) :
  respects only_labels_written (deleteLabel index confirmed p).
Proof.
  unfold deleteLabel, getLabelsRef, saveLabels.
  frame_with only_labels_refl only_labels_trans.
  all: intro w; unfold only_labels_written; cbn; tauto.
Qed.

Lemma addLabel_frame (input : string) (p : Popup) :
  respects only_labels_written (addLabel input p).
Proof.
  unfold addLabel, getLabelsRef, saveLabels.
  frame_with only_labels_refl only_labels_trans.
  all: intro w; unfold only_labels_written; cbn; tauto.
Qed.

(** C9.  Renaming, deleting or adding a label writes the label list only:
    every other storage key, the list of time blocks among them, is left as
    it was, so the [label] of every stored time block is unchanged. *)
Theorem label_edits_keep_blocks (p : Popup) (w : World) :
  let kept (w' : World) :=
    only_labels_written w w' /\
    stored_blocks w' = stored_blocks w /\
    map tb_label (stored_blocks w') = map tb_label (stored_blocks w) in
  (forall index currentName input, kept (exec (editLabel index currentName input p) w)) /\
  (forall index confirmed, kept (exec (deleteLabel index confirmed p) w)) /\
  (forall input, kept (exec (addLabel input p) w)).
Proof.
  assert (K : forall w', only_labels_written w w' ->
                         only_labels_written w w' /\
                         stored_blocks w' = stored_blocks w /\
                         map tb_label (stored_blocks w') = map tb_label (stored_blocks w)).
  { intros w' H. split; [ exact H | ].
    assert (E : stored_blocks w' = stored_blocks w).
    { unfold stored_blocks. destruct H as (-> & _). reflexivity. }
    rewrite E. split; reflexivity. }
  cbv zeta. split; [ | split ]; intros; apply K.
  - apply editLabel_frame.
  - apply deleteLabel_frame.
  - apply addLabel_frame.
Qed.

(** Renaming does change the label list (here: the first default label). *)
Lemma editLabel_renames :
  customLabels (storage (exec (editLabel 0 (Some "Work") "Deep work" fresh_popup) initial_world))
  = Some [Some "Deep work"; Some "Meetings"; Some "Break"; Some "Planning"; Some "Other"].
Proof. reflexivity. Qed.

(** Writing past the end of the label array extends it. *)
Lemma editLabel_extends :
  customLabels (storage (exec (editLabel 6 None "Later" fresh_popup) initial_world))
  = Some [Some "Work"; Some "Meetings"; Some "Break"; Some "Planning"; Some "Other";
          None; Some "Later"].
Proof. reflexivity. Qed.

(* ===================================================================== *)
(** ** The timer and its interrupt (background.js) *)
(* ===================================================================== *)

Section Timer.

Variable host : Host.

(** [triggerInterrupt] in closed form: with a truthy [timerStart] the block
    runs from it to the next reading; without one, from the next reading to
    the reading after it. *)
Lemma triggerInterrupt_world (w : World) :
  exec (triggerInterrupt host) w =
  match timerStart (storage w) with
  | Some t =>
      if t =? 0
      then mkWorld (set_pendingBlock (Some (mkPending (now_at host w 0) (now_at host w 1)))
                                     (storage w))
                   (alarm w) "!" true (S (S (ticks w))) (draws w)
      else mkWorld (set_pendingBlock (Some (mkPending t (now_at host w 0))) (storage w))
                   (alarm w) "!" true (S (ticks w)) (draws w)
  | None =>
      mkWorld (set_pendingBlock (Some (mkPending (now_at host w 0) (now_at host w 1)))
                                (storage w))
              (alarm w) "!" true (S (S (ticks w))) (draws w)
  end.
Proof.
  unfold triggerInterrupt, exec, bind, storage_get, truthy_num, now_at.
  rewrite Nat.add_0_r, Nat.add_1_r.
  destruct (timerStart (storage w)) as [t|]; [ destruct (t =? 0) | ]; reflexivity.
Qed.

Lemma triggerInterrupt_frame : respects timer_frame (triggerInterrupt host).
Proof.
  intro w. change (snd (triggerInterrupt host w)) with (exec (triggerInterrupt host) w).
  rewrite triggerInterrupt_world. unfold timer_frame.
  destruct (timerStart (storage w)) as [t|] eqn:E; [ destruct (t =? 0) | ]; cbn;
    rewrite ?E; repeat split; try reflexivity; lia.
Qed.

(** [checkTimerState] in closed form. *)
Lemma checkTimerState_world (w : World) :
  exec (checkTimerState host) w =
  if negb (isRunning (storage w)) then w
  else match pendingBlock (storage w) with
       | Some _ => w
       | None =>
           match timerStart (storage w) with
           | Some t =>
               if negb (t =? 0) then
                 if INTERRUPT_INTERVAL <=? now_at host w 0 - t
                 then exec (triggerInterrupt host) (tick w)
                 else mkWorld (storage w)
                              (Some (now_at host w 1
                                     + (INTERRUPT_INTERVAL - (now_at host w 0 - t))))
                              (badge w) (notification w) (S (S (ticks w))) (draws w)
               else w
           | None => w
           end
       end.
Proof.
  unfold now_at. rewrite Nat.add_0_r, Nat.add_1_r.
  unfold checkTimerState, exec. unfold bind at 1. unfold storage_get at 1.
  cbv beta iota.
  destruct (isRunning (storage w)); cbv beta iota delta [negb]; [ | reflexivity ].
  destruct (pendingBlock (storage w)); [ reflexivity | ].
  destruct (timerStart (storage w)) as [t|]; [ | reflexivity ].
  destruct (t =? 0); cbv beta iota delta [negb]; [ reflexivity | ].
  unfold bind at 1. unfold Date_now at 1. cbv beta iota.
  destruct (INTERRUPT_INTERVAL <=? clock host (ticks w) - t); reflexivity.
Qed.

Lemma checkDailyPriority_frame : respects timer_frame (checkDailyPriority host).
Proof.
  unfold checkDailyPriority, Date_now. timer_framed.
Qed.

(** [checkDailyPriority] takes one reading and leaves the pending block. *)
Lemma checkDailyPriority_world (w : World) :
  exists s,
    checkDailyPriority host w =
      (Normal tt, mkWorld s (alarm w) (badge w) (notification w) (S (ticks w)) (draws w)) /\
    isRunning s = isRunning (storage w) /\
    pendingBlock s = pendingBlock (storage w) /\
    timerStart s = timerStart (storage w).
Proof.
  unfold checkDailyPriority, bind, Date_now, storage_get, storage_set, ret. cbn.
  destruct (match currentDay (storage w) with
            | Some d => (d =? toDateString host (clock host (ticks w)))%string
            | None => false
            end); cbn.
  - exists (storage w). destruct w; cbn. auto.
  - destruct (own (toDateString host (clock host (ticks w)))
                  (match dailyPriority (storage w) with Some o => o | None => [] end))
      as [pr|]; [ destruct (truthy_string pr) | ]; cbn;
      eexists; (split; [ reflexivity | cbn; auto ]).
Qed.

End Timer.

Section TimerInvariant.

Variable host : Host.

Lemma keeps_bind {A B : Type} (I : World -> Prop) (m : M A) (k : A -> M B) :
  keeps I m -> (forall a, keeps I (k a)) -> keeps I (bind m k).
Proof.
  intros Hm Hk w Hw. specialize (Hm w Hw). unfold exec, bind in *.
  destruct (m w) as [[a|e] w1]; cbn in *.
  - apply Hk. exact Hm.
  - exact Hm.
Qed.

Lemma timer_frame_inv (w w' : World) :
  timer_frame w w' -> timer_inv host w -> timer_inv host w'.
Proof.
  unfold timer_frame, timer_inv, quiet, timer_in_past.
  intros (Ha & Hr & Ht & Hk) (Hq & Hp). split.
  - rewrite Ha, Hr. exact Hq.
  - intros t E. rewrite Ht in E. destruct (Hp t E) as (i & Hi & ->).
    exists i. split; [ lia | reflexivity ].
Qed.

Lemma respects_keeps {A : Type} (m : M A) :
  respects timer_frame m -> keeps (timer_inv host) m.
Proof.
  intros H w Hw. apply (timer_frame_inv w); [ apply H | exact Hw ].
Qed.

Lemma triggerInterrupt_keeps : keeps (timer_inv host) (triggerInterrupt host).
Proof. apply respects_keeps, triggerInterrupt_frame. Qed.

Lemma tick_inv (w : World) : timer_inv host w -> timer_inv host (tick w).
Proof.
  apply timer_frame_inv. unfold timer_frame, tick; cbn.
  repeat split; try reflexivity; lia.
Qed.

Lemma checkTimerState_keeps : keeps (timer_inv host) (checkTimerState host).
Proof.
  intros w Hw. rewrite checkTimerState_world.
  destruct (isRunning (storage w)) eqn:Er; cbv beta iota delta [negb]; [ | exact Hw ].
  destruct (pendingBlock (storage w)); [ exact Hw | ].
  destruct (timerStart (storage w)) as [t|] eqn:Et; [ | exact Hw ].
  destruct (t =? 0); cbv beta iota delta [negb]; [ exact Hw | ].
  destruct (INTERRUPT_INTERVAL <=? now_at host w 0 - t).
  - apply triggerInterrupt_keeps, tick_inv, Hw.
  - destruct Hw as (Hq & Hp). split.
    + intro H. change (isRunning (storage w) = false) in H. congruence.
    + intros t' E. change (timerStart (storage w) = Some t') in E.
      destruct (Hp t' E) as (i & Hi & ->).
      exists i. split; [ | reflexivity ].
      change (i < S (S (ticks w)))%nat. lia.
Qed.

Lemma updateBadge_frame : respects timer_frame updateBadge.
Proof. unfold updateBadge, setBadgeText. timer_framed. Qed.

Lemma ensureNotificationExists_frame : respects timer_frame ensureNotificationExists.
Proof. unfold ensureNotificationExists, notifications_set. timer_framed. Qed.

Lemma onAlarm_keeps : keeps (timer_inv host) (onAlarm host).
Proof.
  unfold onAlarm. apply keeps_bind.
  - intros w (Hq & Hp). split.
    + intros _. reflexivity.
    + exact Hp.
  - intros _. apply triggerInterrupt_keeps.
Qed.

Lemma onMessage_keeps (a : Action) : keeps (timer_inv host) (onMessage host a).
Proof.
  intros w (Hq & Hp). unfold timer_inv, quiet, timer_in_past in *.
  destruct a; unfold exec, onMessage, bind, Date_now, storage_get, storage_set,
    scheduleNextInterrupt, alarms_set, setBadgeText, notifications_set, updateBadge, ret; cbn.
  - (* startTimer *)
    split; [ intro H; discriminate | ].
    intros t E. injection E as <-. exists (ticks w). split; [ lia | reflexivity ].
  - (* stopTimer *)
    split; [ reflexivity | intros t E; discriminate ].
  - (* scheduleNextInterrupt *)
    destruct (isRunning (storage w)) eqn:Er; cbn.
    + rewrite Er. split; [ intro H; discriminate | ].
      intros t E. injection E as <-. exists (ticks w). split; [ lia | reflexivity ].
    + rewrite Er. split; [ intros _; auto | ].
      intros t E. destruct (Hp t E) as (i & Hi & ->). exists i. split; [ lia | reflexivity ].
  - (* clearPendingBlock *)
    split; [ exact Hq | exact Hp ].
  - (* getTimerState *)
    split; [ exact Hq | exact Hp ].
  - (* test *)
    split; [ exact Hq | exact Hp ].
Qed.

Lemma forget_keeps {A : Type} (I : World -> Prop) (m : M A) :
  keeps I m -> keeps I (forget m).
Proof.
  intro H. unfold forget. apply keeps_bind; [ exact H | ].
  intros a w Hw. exact Hw.
Qed.

Lemma initializePopup_frame (p : Popup) : respects timer_frame (initializePopup p).
Proof. unfold initializePopup, setBadgeText. timer_framed. Qed.

Lemma setTodayPriority_frame (s : string) : respects timer_frame (setTodayPriority host s).
Proof. unfold setTodayPriority, Date_now, storage_set. timer_framed. Qed.

Lemma submitPriority_frame (input : string) (p : Popup) :
  respects timer_frame (submitPriority host input p).
Proof.
  unfold submitPriority.
  destruct (String.length (trim input) =? 0)%nat.
  - apply respects_ret, timer_frame_refl.
  - apply (respects_bind _ timer_frame_trans); [ apply setTodayPriority_frame | intros _ ].
    unfold storage_set. timer_framed.
Qed.

Lemma submit_save_frame (p : Popup) : respects timer_frame (submit_save host p).
Proof.
  unfold submit_save, getTodayPriority, saveTimeBlock, getTimeBlocks, Date_now, storage_set.
  timer_framed.
Qed.

Lemma submit_clear_frame : respects timer_frame submit_clear.
Proof. unfold submit_clear, storage_set, setBadgeText, notifications_set. timer_framed. Qed.

Lemma addLabel_timer (input : string) (p : Popup) : respects timer_frame (addLabel input p).
Proof. unfold addLabel, getLabelsRef, saveLabels, storage_set. timer_framed. Qed.

Lemma editLabel_timer (index : nat) (currentName : Label) (input : string) (p : Popup) :
  respects timer_frame (editLabel index currentName input p).
Proof. unfold editLabel, getLabelsRef, saveLabels, storage_set. timer_framed. Qed.

Lemma deleteLabel_timer (index : nat) (confirmed : bool) (p : Popup) :
  respects timer_frame (deleteLabel index confirmed p).
Proof. unfold deleteLabel, getLabelsRef, saveLabels, storage_set. timer_framed. Qed.

(** Every handler keeps the invariant. *)
Lemma handle_keeps (ev : Event) : keeps (timer_inv host) (handle host ev).
Proof.
  destruct ev; unfold handle.
  - (* startup *)
    unfold initialize.
    repeat (apply keeps_bind; [ | intros _ ]).
    + apply respects_keeps, checkDailyPriority_frame.
    + apply checkTimerState_keeps.
    + apply respects_keeps, updateBadge_frame.
    + apply respects_keeps, ensureNotificationExists_frame.
  - (* periodic check *)
    unfold periodicCheck.
    repeat (apply keeps_bind; [ | intros _ ]).
    + apply checkTimerState_keeps.
    + apply respects_keeps, updateBadge_frame.
    + apply respects_keeps, ensureNotificationExists_frame.
  - apply onAlarm_keeps.
  - apply forget_keeps, onMessage_keeps.
  - apply forget_keeps, respects_keeps, initializePopup_frame.
  - apply forget_keeps, respects_keeps, submitPriority_frame.
  - destruct (submit_valid p).
    + apply respects_keeps, submit_save_frame.
    + intros w Hw. exact Hw.
  - apply respects_keeps, submit_clear_frame.
  - apply forget_keeps, respects_keeps, addLabel_timer.
  - apply forget_keeps, respects_keeps, editLabel_timer.
  - apply forget_keeps, respects_keeps, deleteLabel_timer.
Qed.

(** The invariant holds in every world the extension gets into. *)
Lemma reachable_inv (w : World) : reachable host w -> timer_inv host w.
Proof.
  induction 1 as [ | w ev _ IH _ ].
  - split.
    + intros _. reflexivity.
    + intros t E. discriminate.
  - apply handle_keeps, IH.
Qed.

End TimerInvariant.

Section TimerClaims.

Variable host : Host.



Lemma exec_bind_normal {A B : Type} (m : M A) (k : A -> M B) (w w1 : World) (a : A) :
  m w = (Normal a, w1) -> exec (bind m k) w = exec (k a) w1.
Proof. intro E. unfold exec, bind. rewrite E. reflexivity. Qed.



(** The source tests [if (timerStart)]: a stored [timerStart] of [0] (the
    epoch itself) counts as none, and the check does nothing. *)
Lemma checkTimerState_epoch (w : World) :
  timerStart (storage w) = Some 0 -> exec (checkTimerState host) w = w.
Proof.
  intro H. rewrite checkTimerState_world, H.
  destruct (isRunning (storage w)); [ | reflexivity ].
  destruct (pendingBlock (storage w)); reflexivity.
Qed.

(** C4.  When the state check finds the timer running, no pending block and
    a stored [timerStart], it compares the time elapsed with fifteen
    minutes: if that much has passed it stores at once the pending block
    from [timerStart] to the current time and schedules nothing; otherwise
    it schedules the alarm after the remaining time.  This holds for the
    check as such and for the check as run when the service worker starts. *)
Theorem restart_recovery (w : World) (t : Z) :
  isRunning (storage w) = true ->
  pendingBlock (storage w) = None ->
  timerStart (storage w) = Some t ->
  t <> 0 ->
  (let w' := exec (checkTimerState host) w in
   let now := now_at host w 0 in
   if INTERRUPT_INTERVAL <=? now - t
   then pendingBlock (storage w') = Some (mkPending t (now_at host w 1)) /\
        alarm w' = alarm w
   else pendingBlock (storage w') = None /\
        alarm w' = Some (now_at host w 1 + (INTERRUPT_INTERVAL - (now - t)))) /\
  (let w' := exec (initialize host) w in
   let now := now_at host w 1 in
   if INTERRUPT_INTERVAL <=? now - t
   then pendingBlock (storage w') = Some (mkPending t (now_at host w 2)) /\
        alarm w' = alarm w
   else pendingBlock (storage w') = None /\
        alarm w' = Some (now_at host w 2 + (INTERRUPT_INTERVAL - (now - t)))).
Proof.
  intros Hr Hp Ht Hz.
  assert (Hz' : (t =? 0) = false) by (apply Z.eqb_neq; exact Hz).
  assert (Hcheck : forall v : World,
             isRunning (storage v) = true ->
             pendingBlock (storage v) = None ->
             timerStart (storage v) = Some t ->
             let v' := exec (checkTimerState host) v in
             if INTERRUPT_INTERVAL <=? now_at host v 0 - t
             then pendingBlock (storage v') = Some (mkPending t (now_at host v 1)) /\
                  alarm v' = alarm v
             else pendingBlock (storage v') = None /\
                  alarm v' = Some (now_at host v 1
                                   + (INTERRUPT_INTERVAL - (now_at host v 0 - t)))).
  { intros v Vr Vp Vt. cbv zeta. rewrite checkTimerState_world.
    rewrite Vr, Vp, Vt, Hz'. cbv beta iota delta [negb].
    destruct (INTERRUPT_INTERVAL <=? now_at host v 0 - t).
    - rewrite triggerInterrupt_world.
      change (storage (tick v)) with (storage v).
      change (alarm (tick v)) with (alarm v).
      rewrite Vt, Hz'. cbn [storage alarm pendingBlock set_pendingBlock].
      unfold now_at. cbn [ticks tick]. rewrite Nat.add_0_r, Nat.add_1_r.
      split; reflexivity.
    - cbn [storage alarm]. rewrite Vp. split; reflexivity. }
  split.
  - apply Hcheck; assumption.
  - cbv zeta.
    destruct (checkDailyPriority_world host w) as (s & E & Er & Ep & Et).
    unfold initialize. rewrite (exec_bind_normal _ _ _ _ _ E).
    specialize (Hcheck (mkWorld s (alarm w) (badge w) (notification w) (S (ticks w)) (draws w))).
    cbv zeta in Hcheck. unfold now_at in *. cbn [ticks storage alarm] in Hcheck.
    replace (S (ticks w) + 0)%nat with (ticks w + 1)%nat in Hcheck by lia.
    replace (S (ticks w) + 1)%nat with (ticks w + 2)%nat in Hcheck by lia.
    apply Hcheck; congruence.
Qed.

End TimerClaims.

Lemma restart_recovery_witness :
  pendingBlock (storage (exec (checkTimerState sample_host) restart_world))
    = Some (mkPending (1700000000000 - 20 * 60 * 1000) 1700000000001) /\
  alarm (exec (checkTimerState sample_host) restart_world) = None.
Proof.
  destruct (restart_recovery sample_host restart_world (1700000000000 - 20 * 60 * 1000))
    as (H & _).
  - reflexivity.
  - reflexivity.
  - reflexivity.
  - vm_compute. discriminate.
  - vm_compute in H. vm_compute. exact H.
Defined.




(** The alarm handler itself does not look at [isRunning]: run in a stopped
    world it stores a pending block.  What keeps a stopped timer quiet is
    that no alarm is left to fire. *)
Lemma onAlarm_has_no_guard :
  isRunning (storage initial_world) = false /\
  pendingBlock (storage (exec (onAlarm sample_host) initial_world))
    = Some (mkPending 1700000000000 1700000000001).
Proof. split; reflexivity. Qed.

Lemma sample_host_monotone : monotone sample_host.
Proof. intros i j H. unfold sample_host. cbv [clock]. lia. Qed.

(** In the worlds the extension gets into, a stored [timerStart] is not
    later than the current reading of a clock that never runs backwards. *)
Lemma reachable_timer_in_past (host : Host) (w : World) :
  reachable host w -> timer_in_past host w.
Proof. intro H. apply (reachable_inv host w H). Qed.

(** C10 (as stated) fails: without a stored [timerStart] the two endpoints
    are two readings of the clock, which need not be equal. *)
Lemma interrupt_block_not_zero_length :
  ~ (forall pb,
       pendingBlock (storage (exec (triggerInterrupt sample_host) initial_world)) = Some pb ->
       pb_start pb = pb_end pb).
Proof.
  intro H. specialize (H (mkPending 1700000000000 1700000000001) eq_refl).
  discriminate H.
Qed.

(** C10 (amended).  [triggerInterrupt] always stores a pending block.  When
    no [timerStart] is stored (or it is [0]), both endpoints are readings of
    the current time, the start read first and the end right after it, so
    the block has zero length exactly when the two readings agree.  With a
    clock that never runs backwards and a [timerStart] that is an earlier
    reading (as it is in every world the extension gets into), the block
    satisfies [start <= end]. *)
Theorem triggerInterrupt_block (host : Host) (w : World) :
  monotone host ->
  timer_in_past host w ->
  exists pb,
    pendingBlock (storage (exec (triggerInterrupt host) w)) = Some pb /\
    pb_start pb <= pb_end pb /\
    (truthy_num (timerStart (storage w)) = false ->
     pb = mkPending (now_at host w 0) (now_at host w 1) /\
     (pb_start pb = pb_end pb <-> now_at host w 0 = now_at host w 1)).
Proof.
  intros Hm Hp. rewrite triggerInterrupt_world.
  assert (Hnow : now_at host w 0 <= now_at host w 1).
  { unfold now_at. apply Hm. lia. }
  destruct (timerStart (storage w)) as [t|] eqn:Et; [ destruct (t =? 0) eqn:Ez | ].
  - eexists. split; [ reflexivity | ]. cbn. split; [ exact Hnow | ].
    intros _. split; [ reflexivity | tauto ].
  - eexists. split; [ reflexivity | ]. cbn. split.
    + destruct (Hp t Et) as (i & Hi & ->). unfold now_at. apply Hm. lia.
    + unfold truthy_num. rewrite Ez. discriminate.
  - eexists. split; [ reflexivity | ]. cbn. split; [ exact Hnow | ].
    intros _. split; [ reflexivity | tauto ].
Qed.

Lemma triggerInterrupt_block_witness :
  exists pb,
    pendingBlock (storage (exec (triggerInterrupt sample_host) initial_world)) = Some pb /\
    pb_start pb <= pb_end pb /\
    pb = mkPending 1700000000000 1700000000001.
Proof.
  destruct (triggerInterrupt_block sample_host initial_world) as (pb & H1 & H2 & H3).
  - intros i j H. unfold sample_host. cbv [clock]. lia.
  - intros t E. discriminate E.
  - exists pb. split; [ exact H1 | split; [ exact H2 | ] ].
    destruct H3 as (H3 & _); [ reflexivity | exact H3 ].
Defined.

(* ===================================================================== *)
(** ** The daily insight (utils.js) *)
(* ===================================================================== *)

(** Counting looks at the labels of the blocks only. *)
Lemma count_blocks_labels (blocks : list TimeBlock) :
  forall labelCounts,
    count_blocks labelCounts blocks
    = count_blocks labelCounts (blocks_labelled (map tb_label blocks)).
Proof.
  induction blocks as [|b rest IH]; intro labelCounts; [ reflexivity | ].
  cbn [map blocks_labelled count_blocks].
  change (count_block labelCounts (mkBlock 0 0 (tb_label b) None None))
    with (count_block labelCounts b).
  destruct (count_block labelCounts b) as [c|e]; [ | reflexivity ].
  cbn [cbind]. apply IH.
Qed.

Lemma dailyInsight_labels (priority : string) (blocks : list TimeBlock) (labels : list Label) :
  dailyInsight priority blocks labels
  = dailyInsight priority (blocks_labelled (map tb_label blocks)) labels.
Proof. unfold dailyInsight. rewrite count_blocks_labels. reflexivity. Qed.

(** [generateDailyInsight] in terms of what it reads. *)
Lemma generateDailyInsight_run (host : Host) (p : Popup) (w : World) :
  result (generateDailyInsight host p) w =
  match priority_now host w, blocks_now host (tick w) with
  | None, _ => Normal None
  | Some _, [] => Normal None
  | Some priority, blocks =>
      (insight <-- dailyInsight priority blocks (labels_of p w) ;; Normal (Some insight))%js
  end.
Proof.
  unfold generateDailyInsight, result. unfold bind at 1. rewrite getTodayPriority_run.
  unfold bind at 1. rewrite getTodayBlocks_run.
  destruct (priority_now host w) as [priority|]; [ | reflexivity ].
  destruct (blocks_now host (tick w)) as [|b rest]; [ reflexivity | ].
  cbv beta iota delta [bind getLabels storage_get ret lift labels_of].
  cbn [storage tick fst snd].
  match goal with
  | |- context [dailyInsight ?a ?b ?c] => destruct (dailyInsight a b c)
  end; reflexivity.
Qed.

(** Three Work and one Meetings among four blocks: the four arrangements. *)
Lemma three_work_one_meeting (blocks : list TimeBlock) :
  List.length blocks = 4%nat ->
  count_label "Work" blocks = 3%nat ->
  count_label "Meetings" blocks = 1%nat ->
  let ls := map tb_label blocks in
  ls = ["Work"; "Work"; "Work"; "Meetings"] \/ ls = ["Work"; "Work"; "Meetings"; "Work"] \/
  ls = ["Work"; "Meetings"; "Work"; "Work"] \/ ls = ["Meetings"; "Work"; "Work"; "Work"].
Proof.
  intros Hlen Hw Hm.
  destruct blocks as [|b1 [|b2 [|b3 [|b4 [|b5 l]]]]]; try discriminate Hlen.
  unfold count_label in *. cbn [filter] in Hw, Hm. cbn [map].
  destruct (String.eqb_spec (tb_label b1) "Work") as [E1|N1];
  destruct (String.eqb_spec (tb_label b2) "Work") as [E2|N2];
  destruct (String.eqb_spec (tb_label b3) "Work") as [E3|N3];
  destruct (String.eqb_spec (tb_label b4) "Work") as [E4|N4];
  try discriminate Hw;
  destruct (String.eqb_spec (tb_label b1) "Meetings") as [F1|M1];
  destruct (String.eqb_spec (tb_label b2) "Meetings") as [F2|M2];
  destruct (String.eqb_spec (tb_label b3) "Meetings") as [F3|M3];
  destruct (String.eqb_spec (tb_label b4) "Meetings") as [F4|M4];
  try discriminate Hm; try congruence;
  repeat match goal with H : tb_label _ = _ |- _ => rewrite H end; auto.
Qed.

(** C3 (as stated) fails: the sentence produced is not the one with 0.75. *)
Lemma client_report_not_075 :
  result (generateDailyInsight sample_host fresh_popup) client_report_world
  <> Normal (Some client_report_message_in_spec).
Proof. vm_compute. discriminate. Qed.

(** C3 (amended).  With the priority "Finish the client report", three
    blocks today labelled Work and one labelled Meetings, and the default
    label set, the dominant label is Work with 0.75 hours, the priority
    matches it (keyword "finish"), the only other label with time is
    Meetings with 0.25 hours, which is below 1.0, and the insight is the
    aligned sentence with the hours printed to one decimal place:
    [... You spent 0.8 hours in work.] *)
Theorem client_report_insight (host : Host) (p : Popup) (w : World) :
  priority_now host w = Some "Finish the client report" ->
  List.length (blocks_now host (tick w)) = 4%nat ->
  count_label "Work" (blocks_now host (tick w)) = 3%nat ->
  count_label "Meetings" (blocks_now host (tick w)) = 1%nat ->
  labels_of p w = DEFAULT_LABELS ->
  (exists labelCounts,
     count_blocks (zero_counts DEFAULT_LABELS) (blocks_now host (tick w)) = Normal labelCounts /\
     dominant (hours_of labelCounts) = Normal ("Work", 3 # 4) /\
     runners_up (hours_of labelCounts) "Work" = [("Meetings", 1 # 4)]) /\
  priorityMatches "Finish the client report" "Work" = Normal true /\
  Qgeb (1 # 4) 1 = false /\
  result (generateDailyInsight host p) w = Normal (Some client_report_message).
Proof.
  intros Hpr Hlen Hw Hm Hl.
  pose proof (three_work_one_meeting _ Hlen Hw Hm) as Hls. cbv zeta in Hls.
  assert (Hrun : result (generateDailyInsight host p) w
                 = cbind (dailyInsight "Finish the client report"
                                       (blocks_now host (tick w)) DEFAULT_LABELS)
                         (fun insight => Normal (Some insight))).
  { rewrite generateDailyInsight_run, Hpr, Hl.
    destruct (blocks_now host (tick w)); [ discriminate Hlen | reflexivity ]. }
  rewrite Hrun, dailyInsight_labels, count_blocks_labels.
  destruct Hls as [-> | [-> | [-> | ->]]];
    (split; [ eexists; split; [ vm_compute; reflexivity | split; vm_compute; reflexivity ]
            | split; [ vm_compute; reflexivity
                     | split; vm_compute; reflexivity ] ]).
Qed.

Lemma client_report_insight_witness :
  result (generateDailyInsight sample_host fresh_popup) client_report_world
  = Normal (Some client_report_message).
Proof.
  destruct (client_report_insight sample_host fresh_popup client_report_world)
    as (_ & _ & _ & H).
  - vm_compute. reflexivity.
  - vm_compute. reflexivity.
  - vm_compute. reflexivity.
  - vm_compute. reflexivity.
  - reflexivity.
  - exact H.
Defined.

(* ===================================================================== *)
(** ** The weekly insights (utils.js): the avoidance streak *)
(* ===================================================================== *)

(** The comparator of the sort, on timestamps. *)
Lemma start_cmp (a b : Z) :
  Qle_bool (inject_Z a - inject_Z b) 0 = (a <=? b).
Proof.
  unfold Qle_bool, Qminus, Qplus, Qopp, inject_Z. cbn [Qnum Qden].
  apply eq_true_iff_eq. rewrite !Z.leb_le. lia.
Qed.

Section Sorting.

Variable A : Type.
Variable cmp : A -> A -> Q.

Lemma sort_insert_perm (x : A) (l : list A) :
  Permutation (x :: l) (sort_insert cmp x l).
Proof.
  induction l as [|y r IH]; cbn [sort_insert]; [ apply Permutation_refl | ].
  destruct (Qle_bool (cmp x y) 0); [ apply Permutation_refl | ].
  eapply perm_trans; [ apply perm_swap | apply perm_skip, IH ].
Qed.

Lemma array_sort_perm (l : list A) : Permutation l (array_sort cmp l).
Proof.
  induction l as [|x r IH]; [ apply perm_nil | ].
  unfold array_sort in *. cbn [fold_right].
  eapply perm_trans; [ apply perm_skip, IH | apply sort_insert_perm ].
Qed.

End Sorting.

Lemma sort_insert_sorted (x : TimeBlock) (l : list TimeBlock) :
  Sorted by_start l ->
  Sorted by_start
    (sort_insert (fun a b => inject_Z (tb_start a) - inject_Z (tb_start b))%Q x l).
Proof.
  induction l as [|y r IH]; intro Hs; cbn [sort_insert].
  - constructor; constructor.
  - rewrite start_cmp. destruct (Z.leb_spec (tb_start x) (tb_start y)) as [Hle|Hgt].
    + constructor; [ exact Hs | constructor; exact Hle ].
    + inversion Hs as [|? ? Hr Hhd]; subst.
      constructor; [ apply IH, Hr | ].
      destruct r as [|z r']; cbn [sort_insert].
      * constructor. unfold by_start. lia.
      * rewrite start_cmp. destruct (Z.leb_spec (tb_start x) (tb_start z)).
        -- constructor. unfold by_start. lia.
        -- constructor. inversion Hhd; subst. assumption.
Qed.

(** The sort puts the blocks in order of start time and loses none. *)
Lemma sort_by_start_sorted (blocks : list TimeBlock) :
  Permutation blocks (sort_by_start blocks) /\
  StronglySorted by_start (sort_by_start blocks).
Proof.
  split; [ apply array_sort_perm | ].
  apply Sorted_StronglySorted.
  - intros a b c. unfold by_start. lia.
  - unfold sort_by_start, array_sort.
    induction blocks as [|x r IH]; cbn [fold_right]; [ constructor | ].
    apply sort_insert_sorted, IH.
Qed.

Section Runs.

Variable A : Type.
Variable P : A -> bool.

Lemma leading_le_best (l : list A) : (leading_run P l <= best_run P l)%nat.
Proof.
  induction l as [|x r IH]; cbn [leading_run best_run]; [ lia | ].
  destruct (P x); lia.
Qed.

(** The first [leading_run] elements form a run at the front. *)
Lemma leading_run_prefix (l : list A) :
  exists post, l = (firstn (leading_run P l) l ++ post)%list /\
               forallb P (firstn (leading_run P l) l) = true /\
               List.length (firstn (leading_run P l) l) = leading_run P l.
Proof.
  induction l as [|x r (post & E & F & L)]; cbn [leading_run].
  - exists []. repeat split.
  - destruct (P x) eqn:Px.
    + exists post. cbn [firstn forallb List.length app]. rewrite Px, F, L.
      repeat split. f_equal. exact E.
    + exists (x :: r). repeat split.
Qed.

(** A run at the front is no longer than [leading_run]. *)
Lemma prefix_run_le (seg post l : list A) :
  l = (seg ++ post)%list -> forallb P seg = true ->
  (List.length seg <= leading_run P l)%nat.
Proof.
  revert l. induction seg as [|x seg IH]; intros l E F; [ cbn; lia | ].
  subst l. cbn [forallb] in F. apply andb_true_iff in F. destruct F as (Px & F).
  cbn [app leading_run List.length]. rewrite Px.
  specialize (IH (seg ++ post)%list eq_refl F). lia.
Qed.

(** [best_run] is the length of the longest run. *)
Lemma best_run_longest (l : list A) : longest_run P l (best_run P l).
Proof.
  unfold longest_run, is_run.
  induction l as [|x r IH].
  - split.
    + exists []. split; [ split; [ exists [], []; reflexivity | reflexivity ] | reflexivity ].
    + intros seg ((pre & post & E) & _).
      destruct pre; destruct seg; try discriminate E. cbn. lia.
  - destruct IH as ((seg & ((pre & post & E) & F) & L) & Hmax). split.
    + cbn [best_run]. destruct (P x) eqn:Px.
      * destruct (Nat.max_spec (S (leading_run P r)) (best_run P r)) as [(Hlt & ->)|(Hge & ->)].
        -- exists seg. split; [ | exact L ].
           split; [ exists (x :: pre), post; rewrite E; reflexivity | exact F ].
        -- destruct (leading_run_prefix r) as (post' & E' & F' & L').
           exists (x :: firstn (leading_run P r) r). split.
           ++ split; [ exists [], post'; cbn [app]; f_equal; exact E' | ].
              cbn [forallb]. rewrite Px, F'. reflexivity.
           ++ cbn [List.length]. rewrite L'. reflexivity.
      * exists seg. split; [ | exact L ].
        split; [ exists (x :: pre), post; rewrite E; reflexivity | exact F ].
    + intros seg' ((pre' & post' & E') & F').
      destruct pre' as [|y pre'].
      * cbn [app] in E'.
        pose proof (prefix_run_le seg' post' (x :: r) E' F') as Hle.
        pose proof (leading_le_best (x :: r)). lia.
      * cbn [app] in E'. injection E' as _ E'.
        assert (Hr : (exists pre post, r = (pre ++ seg' ++ post)%list)
                     /\ forallb P seg' = true).
        { split; [ exists pre', post'; exact E' | exact F' ]. }
        specialize (Hmax seg' Hr). cbn [best_run]. destruct (P x); lia.
Qed.

End Runs.

(** The streak loop computes the longest run. *)
Lemma streak_loop (breakLabel : Label) (blocks : list TimeBlock) :
  forall longestStreak currentStreak : nat,
    (currentStreak <= longestStreak)%nat ->
    fst (fold_left (streak_step breakLabel) blocks (longestStreak, currentStreak))
    = Nat.max longestStreak
              (Nat.max (currentStreak + leading_run (has_label breakLabel) blocks)
                       (best_run (has_label breakLabel) blocks)).
Proof.
  induction blocks as [|b r IH]; intros lg cur Hle.
  - cbn. lia.
  - cbn [fold_left leading_run best_run]. unfold streak_step at 2.
    change (label_eqb (Some (tb_label b)) breakLabel) with (has_label breakLabel b).
    pose proof (leading_le_best _ (has_label breakLabel) r).
    destruct (has_label breakLabel b); rewrite IH; lia.
Qed.

Lemma longestStreakOf_best (labels : list Label) (blocks : list TimeBlock) :
  longestStreakOf labels blocks
  = best_run (has_label (breakLabelOf labels)) (sort_by_start blocks).
Proof.
  unfold longestStreakOf. rewrite streak_loop by lia.
  pose proof (leading_le_best _ (has_label (breakLabelOf labels)) (sort_by_start blocks)).
  lia.
Qed.

(** [generateWeeklyInsights] in terms of what it reads. *)
Lemma generateWeeklyInsights_run (host : Host) (p : Popup) (w : World) :
  result (generateWeeklyInsights host p) w =
  (_ <-- count_blocks (zero_counts (labels_of p w)) (week_now host w) ;;
   biggest <-- biggestMismatchOf host (priorities_of w) (labels_of p w) (week_now host w) ;;
   Normal (mkWeekly biggest
                    (inject_Z (Z.of_nat (longestStreakOf (labels_of p w) (week_now host w)))
                     * (1 # 4))%Q
                    (pick_suggestion (random host (draws w)))))%js.
Proof.
  unfold generateWeeklyInsights, result.
  cbv beta iota delta [bind getWeekBlocks getTimeBlocks storage_get ret Date_now getLabels
                       lift Math_random].
  cbn [fst snd storage draws ticks].
  change (filter (fun block => weekStartOf host (clock host (ticks w)) <=? tb_start block)
                 match timeBlocks (storage w) with Some l => l | None => [] end)
    with (week_now host w).
  change (match customLabels (storage w) with Some l => l | None => p_DEFAULT_LABELS p end)
    with (labels_of p w).
  change (match dailyPriority (storage w) with Some o => o | None => [] end)
    with (priorities_of w).
  destruct (count_blocks (zero_counts (labels_of p w)) (week_now host w)) as [c|e];
    [ | reflexivity ].
  cbn [cbind].
  destruct (biggestMismatchOf host (priorities_of w) (labels_of p w) (week_now host w));
    reflexivity.
Qed.

Lemma label_eqb_eq (a b : Label) : label_eqb a b = true <-> a = b.
Proof.
  destruct a as [x|], b as [y|]; cbn; try (split; intro; congruence).
  rewrite String.eqb_eq. split; intro; congruence.
Qed.

Lemma includes_label (x : Label) (labels : list Label) :
  existsb (label_eqb x) labels = true <-> In x labels.
Proof.
  rewrite existsb_exists. split.
  - intros (y & Hin & E). apply label_eqb_eq in E. subst. exact Hin.
  - intro Hin. exists x. split; [ exact Hin | apply label_eqb_eq; reflexivity ].
Qed.

Lemma nth_last_index {A : Type} (d : A) (l : list A) :
  nth (List.length l - 1) l d = last l d.
Proof.
  induction l as [|x [|y r] IH]; [ reflexivity | reflexivity | ].
  cbn [List.length last] in *. rewrite <- IH.
  replace (S (S (List.length r)) - 1)%nat with (S (S (List.length r) - 1)) by lia.
  reflexivity.
Qed.

(** The avoidance label: Break if it is in the label set, else Other if it
    is, else the last label. *)
Lemma breakLabelOf_choice (labels : list Label) :
  (In (Some "Break") labels -> breakLabelOf labels = Some "Break") /\
  (~ In (Some "Break") labels -> In (Some "Other") labels ->
   breakLabelOf labels = Some "Other") /\
  (~ In (Some "Break") labels -> ~ In (Some "Other") labels ->
   breakLabelOf labels = last labels None).
Proof.
  unfold breakLabelOf.
  destruct (existsb (label_eqb (Some "Break")) labels) eqn:Eb.
  - apply includes_label in Eb. repeat split; intros; try reflexivity; contradiction.
  - assert (Nb : ~ In (Some "Break") labels).
    { intro H. apply includes_label in H. congruence. }
    destruct (existsb (label_eqb (Some "Other")) labels) eqn:Eo.
    + apply includes_label in Eo. repeat split; intros; try reflexivity; contradiction.
    + assert (No : ~ In (Some "Other") labels).
      { intro H. apply includes_label in H. congruence. }
      repeat split; intros; try contradiction.
      destruct labels as [|x r]; [ reflexivity | apply nth_last_index ].
Qed.

(** The longest run depends on the labels of the blocks only. *)
Lemma best_run_labels (label : Label) (blocks : list TimeBlock) :
  best_run (has_label label) blocks
  = best_run (fun s => label_eqb (Some s) label) (map tb_label blocks).
Proof.
  assert (L : forall l, leading_run (has_label label) l
                        = leading_run (fun s => label_eqb (Some s) label) (map tb_label l)).
  { induction l as [|b r IH]; [ reflexivity | ].
    cbn [map leading_run]. unfold has_label at 1. rewrite IH. reflexivity. }
  induction blocks as [|b r IH]; [ reflexivity | ].
  cbn [map best_run]. unfold has_label at 1. rewrite IH, L. reflexivity.
Qed.

(* ===================================================================== *)
(** ** Objects as maps: keys, entries, updates *)
(* ===================================================================== *)

Section Objects.

Variable V : Type.

Lemma own_In (k : string) (v : V) (o : JsObject V) :
  own k o = Some v -> In (k, v) o.
Proof.
  induction o as [|[k' v'] r IH]; cbn [own]; [ discriminate | ].
  destruct (String.eqb_spec k k') as [->|N].
  - intro E. injection E as ->. left. reflexivity.
  - intro E. right. apply IH, E.
Qed.

Lemma In_own (k : string) (v : V) (o : JsObject V) :
  NoDup (map fst o) -> In (k, v) o -> own k o = Some v.
Proof.
  induction o as [|[k' v'] r IH]; cbn [own map fst]; intros Hnd Hin; [ contradiction | ].
  inversion Hnd as [|? ? Hnot Hnd']; subst.
  destruct Hin as [E|Hin].
  - injection E as -> ->. rewrite String.eqb_refl. reflexivity.
  - destruct (String.eqb_spec k k') as [->|N].
    + exfalso. apply Hnot. apply (in_map fst) in Hin. exact Hin.
    + apply IH; assumption.
Qed.

Lemma own_none (k : string) (o : JsObject V) :
  own k o = None <-> ~ In k (map fst o).
Proof.
  induction o as [|[k' v'] r IH]; cbn [own map fst].
  - split; [ intros _ [] | reflexivity ].
  - destruct (String.eqb_spec k k') as [->|N].
    + split; [ discriminate | intro H; exfalso; apply H; left; reflexivity ].
    + rewrite IH. split.
      * intros H [E|Hin]; [ congruence | exact (H Hin) ].
      * intros H Hin. apply H. right. exact Hin.
Qed.

(** Updating an absent key appends it; updating a present one keeps the
    keys. *)
Lemma own_update_keys (k : string) (v : V) (o : JsObject V) :
  map fst (own_update k v o)
  = match own k o with
    | Some _ => map fst o
    | None => (map fst o ++ [k])%list
    end.
Proof.
  induction o as [|[k' v'] r IH]; cbn [own_update own map fst app]; [ reflexivity | ].
  destruct (String.eqb_spec k k') as [->|N]; [ reflexivity | ].
  cbn [map fst]. rewrite IH. destruct (own k r); reflexivity.
Qed.

Lemma own_update_same (k : string) (v : V) (o : JsObject V) :
  own k (own_update k v o) = Some v.
Proof.
  induction o as [|[k' v'] r IH]; cbn [own_update own].
  - rewrite String.eqb_refl. reflexivity.
  - destruct (String.eqb_spec k k') as [->|N]; cbn [own].
    + rewrite String.eqb_refl. reflexivity.
    + destruct (String.eqb_spec k k'); [ contradiction | exact IH ].
Qed.

Lemma own_update_other (k k' : string) (v : V) (o : JsObject V) :
  k' <> k -> own k' (own_update k v o) = own k' o.
Proof.
  intro N. induction o as [|[k0 v0] r IH]; cbn [own_update own].
  - destruct (String.eqb_spec k' k); [ contradiction | reflexivity ].
  - destruct (String.eqb_spec k k0) as [->|N0]; cbn [own].
    + destruct (String.eqb_spec k' k0); [ contradiction | reflexivity ].
    + rewrite IH. reflexivity.
Qed.

Lemma own_update_nodup (k : string) (v : V) (o : JsObject V) :
  NoDup (map fst o) -> NoDup (map fst (own_update k v o)).
Proof.
  intro H. rewrite own_update_keys. destruct (own k o) eqn:E; [ exact H | ].
  apply own_none in E.
  apply (Permutation_NoDup (l := k :: map fst o)).
  - apply Permutation_cons_append.
  - constructor; assumption.
Qed.

End Objects.

Lemma insert_index_perm (n : N) (k : string) (l : list (N * string)) :
  Permutation ((n, k) :: l) (insert_index n k l).
Proof.
  induction l as [|[m k'] r IH]; cbn [insert_index]; [ apply Permutation_refl | ].
  destruct (n <=? m)%N; [ apply Permutation_refl | ].
  eapply perm_trans; [ apply perm_swap | apply perm_skip, IH ].
Qed.

Lemma index_keys_perm (ks : list string) :
  Permutation (map snd (index_keys ks)) (filter is_array_index ks).
Proof.
  induction ks as [|k r IH]; cbn [index_keys filter]; [ apply perm_nil | ].
  unfold is_array_index at 1. destruct (array_index k) as [n|].
  - eapply perm_trans.
    + apply Permutation_map, Permutation_sym, insert_index_perm.
    + cbn [map snd]. apply perm_skip, IH.
  - exact IH.
Qed.

Lemma filter_partition_perm {A : Type} (f : A -> bool) (l : list A) :
  Permutation (filter f l ++ filter (fun x => negb (f x)) l) l.
Proof.
  induction l as [|x r IH]; cbn [filter]; [ apply perm_nil | ].
  destruct (f x); cbn [negb app].
  - apply perm_skip, IH.
  - apply Permutation_sym. apply Permutation_cons_app. apply Permutation_sym, IH.
Qed.

(** [Object.keys] lists every own key once. *)
Lemma keys_perm {V : Type} (o : JsObject V) : Permutation (keys o) (map fst o).
Proof.
  unfold keys.
  eapply perm_trans; [ | apply (filter_partition_perm is_array_index) ].
  apply Permutation_app_tail, index_keys_perm.
Qed.

(** The entries of an object with distinct keys are its properties. *)
Lemma entries_In {V : Type} (o : JsObject V) (k : string) (v : V) :
  NoDup (map fst o) -> (In (k, v) (entries o) <-> In (k, v) o).
Proof.
  intro Hnd. unfold entries. rewrite in_flat_map. split.
  - intros (k' & Hk & Hin). destruct (own k' o) as [v'|] eqn:E; [ | contradiction ].
    destruct Hin as [E'|[]]. injection E' as <- <-. apply own_In, E.
  - intro Hin. exists k. split.
    + apply (Permutation_in _ (Permutation_sym (keys_perm o))).
      apply (in_map fst) in Hin. exact Hin.
    + rewrite (In_own _ k v o Hnd Hin). left. reflexivity.
Qed.

Lemma entries_keys {V : Type} (o : JsObject V) : map fst (entries o) = keys o.
Proof.
  unfold entries.
  assert (H : forall ks, (forall k, In k ks -> In k (map fst o)) ->
                         map fst (flat_map (fun k => match own k o with
                                                     | Some v => [(k, v)]
                                                     | None => []
                                                     end) ks) = ks).
  { induction ks as [|k r IH]; intro Hall; [ reflexivity | ].
    cbn [flat_map]. rewrite map_app, IH by (intros; apply Hall; right; assumption).
    destruct (own k o) eqn:E; [ reflexivity | ].
    apply own_none in E. exfalso. apply E, Hall. left. reflexivity. }
  apply H. intros k Hk. apply (Permutation_in _ (keys_perm o)), Hk.
Qed.

Lemma entries_nodup {V : Type} (o : JsObject V) :
  NoDup (map fst o) -> NoDup (map fst (entries o)).
Proof.
  intro H. rewrite entries_keys.
  apply (Permutation_NoDup (Permutation_sym (keys_perm o))), H.
Qed.

(* ===================================================================== *)
(** ** The weekly insights (utils.js): the biggest mismatch *)
(* ===================================================================== *)

Section Grouping.

Variable host : Host.

Lemma group_block_step (processed : list TimeBlock) (o : JsObject (list TimeBlock))
    (b : TimeBlock) :
  groups_of host processed o -> groups_of host (processed ++ [b]) (group_block host o b).
Proof.
  intros (Hnd & Hown & Hall). unfold group_block. fold (day_of host b).
  assert (Hfilter : forall day, filter (on_day host day) (processed ++ [b])
                                = (filter (on_day host day) processed
                                   ++ if String.eqb (day_of host b) day then [b] else [])%list).
  { intro day. rewrite filter_app. cbn [filter]. unfold on_day at 2. fold (day_of host b).
    destruct (String.eqb (day_of host b) day); reflexivity. }
  destruct (own (day_of host b) o) as [dayBlocks|] eqn:E.
  - destruct (Hown _ _ E) as (Hne & Hf).
    split; [ apply own_update_nodup, Hnd | split ].
    + intros day bs Hbs. rewrite Hfilter.
      destruct (String.eqb_spec (day_of host b) day) as [<-|N].
      * rewrite own_update_same in Hbs. injection Hbs as <-. rewrite <- Hf.
        split; [ destruct dayBlocks; discriminate | reflexivity ].
      * rewrite own_update_other in Hbs by congruence.
        destruct (Hown _ _ Hbs) as (Hne' & Hf'). rewrite app_nil_r.
        split; assumption.
    + intros b' Hin. rewrite own_update_keys, E.
      apply in_app_or in Hin. destruct Hin as [Hin|[<-|[]]].
      * apply Hall, Hin.
      * apply own_In in E. apply (in_map fst) in E. exact E.
  - assert (Hnone : filter (on_day host (day_of host b)) processed = []).
    { apply own_none in E.
      destruct (filter (on_day host (day_of host b)) processed) as [|x r] eqn:F; [ reflexivity | ].
      exfalso. apply E.
      assert (Hx : In x (filter (on_day host (day_of host b)) processed)) by (rewrite F; left; reflexivity).
      apply filter_In in Hx. destruct Hx as (Hx & Hd).
      unfold on_day in Hd. apply String.eqb_eq in Hd.
      fold (day_of host x) in Hd. rewrite <- Hd. apply Hall, Hx. }
    split; [ apply own_update_nodup, Hnd | split ].
    + intros day bs Hbs. rewrite Hfilter.
      destruct (String.eqb_spec (day_of host b) day) as [<-|N].
      * rewrite own_update_same in Hbs. injection Hbs as <-. rewrite Hnone.
        split; [ discriminate | reflexivity ].
      * rewrite own_update_other in Hbs by congruence.
        destruct (Hown _ _ Hbs) as (Hne' & Hf'). rewrite app_nil_r.
        split; assumption.
    + intros b' Hin. rewrite own_update_keys, E.
      apply in_app_or in Hin. apply in_or_app. destruct Hin as [Hin|[<-|[]]].
      * left. apply Hall, Hin.
      * right. left. reflexivity.
Qed.

Lemma group_loop (rest : list TimeBlock) :
  forall processed o,
    groups_of host processed o ->
    groups_of host (processed ++ rest) (fold_left (group_block host) rest o).
Proof.
  induction rest as [|b r IH]; intros processed o H; cbn [fold_left].
  - rewrite app_nil_r. exact H.
  - replace (processed ++ b :: r)%list with ((processed ++ [b]) ++ r)%list
      by (rewrite <- app_assoc; reflexivity).
    apply IH, group_block_step, H.
Qed.

(** The day groups the weekly insight iterates over. *)
Lemma group_by_day_grouped (blocks : list TimeBlock) :
  grouped_by_day host blocks (entries (group_by_day host blocks)).
Proof.
  assert (H : groups_of host blocks (group_by_day host blocks)).
  { unfold group_by_day. apply (group_loop blocks [] []).
    split; [ constructor | split ].
    - intros day bs E. discriminate E.
    - intros b []. }
  destruct H as (Hnd & Hown & Hall). unfold grouped_by_day.
  split; [ apply entries_nodup, Hnd | split ].
  - intros day bs Hin. apply (entries_In _ _ _ Hnd) in Hin.
    apply Hown, In_own; assumption.
  - intros b Hin. rewrite entries_keys.
    apply (Permutation_in _ (Permutation_sym (keys_perm _))). apply Hall, Hin.
Qed.

End Grouping.

Section Mismatch.

Variable dailyPriorities : JsObject string.
Variable labels : list Label.

Lemma Qgtb_true (x y : Q) : Qgtb x y = true <-> (y < x)%Q.
Proof.
  unfold Qgtb. rewrite negb_true_iff. split.
  - intro H. apply Qnot_le_lt. intro Hle. apply Qle_bool_iff in Hle. congruence.
  - intro H. destruct (Qle_bool x y) eqn:E; [ | reflexivity ].
    apply Qle_bool_iff in E. exfalso. exact (Qlt_not_le _ _ H E).
Qed.

Lemma Qgtb_false (x y : Q) : Qgtb x y = false <-> (x <= y)%Q.
Proof.
  unfold Qgtb. rewrite negb_false_iff. apply Qle_bool_iff.
Qed.

(** The test of a day has one outcome. *)
Lemma day_mismatch_unique (g : string * list TimeBlock) (m m' : Mismatch) :
  day_mismatch dailyPriorities labels g m ->
  day_mismatch dailyPriorities labels g m' ->
  m = m'.
Proof.
  intros (Hd & Hp & c & Hc & Hdom & _) (Hd' & Hp' & c' & Hc' & Hdom' & _).
  rewrite Hc in Hc'. injection Hc' as <-.
  rewrite Hdom in Hdom'. injection Hdom' as Ha Hh.
  rewrite Hp in Hp'. injection Hp' as Hpr.
  destruct m, m'. cbn in *. congruence.
Qed.

Lemma day_match_not_mismatch (g : string * list TimeBlock) (m : Mismatch) :
  day_match dailyPriorities labels g ->
  day_mismatch dailyPriorities labels g m ->
  False.
Proof.
  intros (pr & c & dom & Hp & Hc & Hdom & Hm) (_ & Hp' & c' & Hc' & Hdom' & Hm').
  rewrite Hc in Hc'. injection Hc' as <-.
  rewrite Hdom in Hdom'. injection Hdom' as ->.
  rewrite Hp in Hp'. injection Hp' as ->.
  cbn [fst] in Hm. congruence.
Qed.

(** What one round of the day loop does. *)
Lemma day_step_cases (acc acc' : option Mismatch * Q) (g : string * list TimeBlock) :
  day_step dailyPriorities labels acc g = Normal acc' ->
  (acc' = acc /\
   (priority_of (fst g) dailyPriorities = None \/
    day_match dailyPriorities labels g \/
    exists m, day_mismatch dailyPriorities labels g m /\ (mm_hours m <= snd acc)%Q)) \/
  (exists m, day_mismatch dailyPriorities labels g m /\
             (snd acc < mm_hours m)%Q /\
             acc' = (Some m, mm_hours m)).
Proof.
  unfold day_step.
  destruct (priority_of (fst g) dailyPriorities) as [pr|] eqn:Hp.
  2:{ intro E. injection E as <-. left. split; [ reflexivity | left; reflexivity ]. }
  destruct (count_blocks (zero_counts labels) (snd g)) as [c|e] eqn:Hc;
    cbn [cbind]; [ | discriminate ].
  destruct (dominant (hours_of c)) as [dom|e] eqn:Hdom; cbn [cbind]; [ | discriminate ].
  destruct (priorityMatches pr (fst dom)) as [[|]|e] eqn:Hm; cbn [cbind negb];
    [ | | discriminate ].
  - intro E. injection E as <-. left. split; [ reflexivity | right; left ].
    exists pr, c, dom. repeat split; assumption.
  - assert (Hmis : day_mismatch dailyPriorities labels g
                     (mkMismatch (fst g) pr (fst dom) (snd dom))).
    { split; [ reflexivity | split; [ exact Hp | ] ].
      exists c. cbn [mm_actual mm_hours mm_priority].
      split; [ exact Hc | split; [ | exact Hm ] ].
      rewrite Hdom. destruct dom; reflexivity. }
    destruct (Qgtb (snd dom) (snd acc)) eqn:Hgt; intro E; injection E as <-.
    + right. eexists. split; [ exact Hmis | ]. cbn [mm_hours].
      split; [ apply Qgtb_true, Hgt | reflexivity ].
    + left. split; [ reflexivity | right; right ].
      eexists. split; [ exact Hmis | ]. cbn [mm_hours]. apply Qgtb_false, Hgt.
Qed.

(** The loop variables are never negative. *)
Lemma best_so_far_nonneg (processed : list (string * list TimeBlock))
    (acc : option Mismatch * Q) :
  best_so_far dailyPriorities labels processed acc -> (0 <= snd acc)%Q.
Proof.
  unfold best_so_far. destruct (fst acc) as [m|].
  - intros (-> & Hpos & _). apply Qlt_le_weak, Hpos.
  - intros (-> & _). apply Qle_refl.
Qed.

(** Every mismatch seen so far is at most the recorded maximum. *)
Lemma best_so_far_bound (processed : list (string * list TimeBlock))
    (acc : option Mismatch * Q) (g : string * list TimeBlock) (m' : Mismatch) :
  best_so_far dailyPriorities labels processed acc ->
  In g processed -> day_mismatch dailyPriorities labels g m' ->
  (mm_hours m' <= snd acc)%Q.
Proof.
  unfold best_so_far. destruct (fst acc) as [m|].
  - intros (-> & Hpos & before & bs & after & -> & Hm & Hb & Ha) Hin Hmis.
    apply in_app_or in Hin. destruct Hin as [Hin|[<-|Hin]].
    + apply Qlt_le_weak. apply (Hb g m' Hin Hmis).
    + rewrite (day_mismatch_unique _ _ _ Hmis Hm). apply Qle_refl.
    + apply (Ha g m' Hin Hmis).
  - intros (-> & Hall) Hin Hmis. apply (Hall g m' Hin Hmis).
Qed.

Lemma day_step_best (processed : list (string * list TimeBlock))
    (acc acc' : option Mismatch * Q) (g : string * list TimeBlock) :
  best_so_far dailyPriorities labels processed acc ->
  day_step dailyPriorities labels acc g = Normal acc' ->
  best_so_far dailyPriorities labels (processed ++ [g]) acc'.
Proof.
  intros Hinv Hstep.
  assert (Hnew : forall m', day_mismatch dailyPriorities labels g m' ->
                            acc' = acc -> (mm_hours m' <= snd acc)%Q).
  { intros m' Hmis Hsame.
    destruct (day_step_cases _ _ _ Hstep) as [(_ & [Hn|[Hm|(m & Hm & Hle)]])|(m & Hm & Hlt & E)].
    - destruct Hmis as (_ & Hp & _). congruence.
    - exfalso. exact (day_match_not_mismatch _ _ Hm Hmis).
    - rewrite (day_mismatch_unique _ _ _ Hmis Hm). exact Hle.
    - exfalso. rewrite E in Hsame. rewrite <- Hsame in Hlt. cbn [snd] in Hlt.
      exact (Qlt_irrefl _ Hlt). }
  destruct (day_step_cases _ _ _ Hstep) as [(-> & _)|(m & Hm & Hlt & ->)].
  - (* nothing recorded in this round *)
    specialize (fun m' H => Hnew m' H eq_refl).
    unfold best_so_far in *. destruct (fst acc) as [m|].
    + destruct Hinv as (Hs & Hpos & before & bs & after & -> & Hm & Hb & Ha).
      split; [ exact Hs | split; [ exact Hpos | ] ].
      exists before, bs, (after ++ [g])%list.
      split; [ rewrite <- app_assoc; reflexivity | ].
      split; [ exact Hm | split; [ exact Hb | ] ].
      intros g' m' Hin Hmis. apply in_app_or in Hin. destruct Hin as [Hin|[<-|[]]].
      * apply (Ha g' m' Hin Hmis).
      * rewrite <- Hs. apply Hnew, Hmis.
    + destruct Hinv as (Hs & Hall). split; [ exact Hs | ].
      intros g' m' Hin Hmis. apply in_app_or in Hin. destruct Hin as [Hin|[<-|[]]].
      * apply (Hall g' m' Hin Hmis).
      * rewrite <- Hs. apply Hnew, Hmis.
  - (* this day becomes the biggest mismatch *)
    unfold best_so_far. cbn [fst snd].
    split; [ reflexivity | split ].
    + eapply Qle_lt_trans; [ apply (best_so_far_nonneg _ _ Hinv) | exact Hlt ].
    + exists processed, (snd g), [].
      destruct Hm as (Hd & Hrest). rewrite Hd.
      split; [ destruct g; reflexivity | ].
      split; [ split; [ exact Hd | destruct g; exact Hrest ] | ].
      split; [ | intros g' m' [] ].
      intros g' m' Hin Hmis.
      eapply Qle_lt_trans; [ apply (best_so_far_bound _ _ _ _ Hinv Hin Hmis) | exact Hlt ].
Qed.

Lemma day_loop_best (rest : list (string * list TimeBlock)) :
  forall processed acc acc',
    best_so_far dailyPriorities labels processed acc ->
    day_loop dailyPriorities labels acc rest = Normal acc' ->
    best_so_far dailyPriorities labels (processed ++ rest) acc'.
Proof.
  induction rest as [|g r IH]; intros processed acc acc' Hinv Hloop; cbn [day_loop] in Hloop.
  - injection Hloop as <-. rewrite app_nil_r. exact Hinv.
  - destruct (day_step dailyPriorities labels acc g) as [acc1|e] eqn:Hstep;
      cbn [cbind] in Hloop; [ | discriminate Hloop ].
    replace (processed ++ g :: r)%list with ((processed ++ [g]) ++ r)%list
      by (rewrite <- app_assoc; reflexivity).
    apply (IH _ acc1); [ apply (day_step_best _ acc); assumption | exact Hloop ].
Qed.

End Mismatch.

Lemma nodup_keys_value {V : Type} (l : list (string * V)) (k : string) (v v' : V) :
  NoDup (map fst l) -> In (k, v) l -> In (k, v') l -> v = v'.
Proof.
  intros Hnd H1 H2.
  pose proof (In_own V k v l Hnd H1) as E1.
  pose proof (In_own V k v' l Hnd H2) as E2.
  congruence.
Qed.

(* ===================================================================== *)
(** ** The daily insight: when it is [null], and when it throws *)
(* ===================================================================== *)

(** The insight is [null] exactly when no priority is declared for today or
    no block is recorded today. *)
Lemma generateDailyInsight_null_iff (host : Host) (p : Popup) (w : World) :
  result (generateDailyInsight host p) w = Normal None <->
  priority_now host w = None \/ blocks_now host (tick w) = [].
Proof.
  rewrite generateDailyInsight_run.
  destruct (priority_now host w) as [priority|].
  - destruct (blocks_now host (tick w)) as [|b rest].
    + split; [ intros _; right; reflexivity | reflexivity ].
    + destruct (dailyInsight priority (b :: rest) (labels_of p w)); cbn [cbind];
        split; try discriminate; intros [H|H]; discriminate H.
  - split; [ intros _; left; reflexivity | reflexivity ].
Qed.

(** Whenever the insight is computed without an exception, it is [null] or
    a string, as the two cases above say. *)
Lemma generateDailyInsight_string (host : Host) (p : Popup) (w : World) (r : option string) :
  result (generateDailyInsight host p) w = Normal r ->
  priority_now host w <> None -> blocks_now host (tick w) <> [] ->
  exists s, r = Some s.
Proof.
  intros Hrun Hp Hb. destruct r as [s|]; [ exists s; reflexivity | ].
  apply generateDailyInsight_null_iff in Hrun. destruct Hrun; contradiction.
Qed.

(** C7 (the code departs from the claim).  With a priority declared and a
    block recorded today, [generateDailyInsight] returns neither [null] nor
    a string when the dominant label is named like a member of
    [Object.prototype]: the keyword lookup finds the inherited member and
    calling [some] on it throws. *)
Theorem daily_insight_throws :
  result (hasPriorityToday sample_host) constructor_world = Normal true /\
  List.length (blocks_now sample_host (tick constructor_world)) = 1%nat /\
  result (generateDailyInsight sample_host fresh_popup) constructor_world
    = TypeError "relevantKeywords.some is not a function".
Proof. repeat split; vm_compute; reflexivity. Qed.

(** The same happens, earlier, when the label set has a label named
    [hasOwnProperty]: the counting loop calls the number stored under it. *)
Lemma daily_insight_throws_on_shadowed_method :
  result (generateDailyInsight sample_host fresh_popup) hasOwnProperty_world
    = TypeError "hasOwnProperty is not a function".
Proof. vm_compute. reflexivity. Qed.

(* ===================================================================== *)
(** ** The insights return when the label names are plain *)
(* ===================================================================== *)

Lemma plain_key_not_proto (k : string) : plain_key k = true -> k <> "__proto__".
Proof.
  unfold plain_key. intros H ->. apply andb_true_iff in H. destruct H as (_ & H).
  vm_compute in H. discriminate H.
Qed.

Lemma plain_key_not_method (k : string) : plain_key k = true -> k <> "hasOwnProperty".
Proof.
  unfold plain_key. intros H ->. apply andb_true_iff in H. destruct H as (H & _).
  vm_compute in H. discriminate H.
Qed.

Lemma plain_key_lower (k : string) :
  plain_key k = true -> on_prototype (toLowerCase k) = false.
Proof.
  unfold plain_key. intro H. apply andb_true_iff in H. destruct H as (_ & H).
  apply negb_true_iff in H. exact H.
Qed.

Section PlainObjects.

Variable V : Type.

Lemma obj_set_plain (k : string) (v : V) (o : JsObject V) :
  plain_object o -> plain_key k = true -> plain_object (obj_set k v o).
Proof.
  intros Ho Hk. unfold obj_set.
  destruct (String.eqb k "__proto__"); [ exact Ho | ].
  intros k' Hin. rewrite own_update_keys in Hin.
  destruct (own k o); [ apply Ho, Hin | ].
  apply in_app_or in Hin. destruct Hin as [Hin|[<-|[]]]; [ apply Ho, Hin | exact Hk ].
Qed.

Lemma obj_set_has (k : string) (v : V) (o : JsObject V) :
  k <> "__proto__" -> In k (map fst (obj_set k v o)).
Proof.
  intro N. unfold obj_set.
  destruct (String.eqb_spec k "__proto__"); [ contradiction | ].
  assert (E : own k (own_update k v o) = Some v) by apply own_update_same.
  apply own_In in E. apply (in_map fst) in E. exact E.
Qed.

Lemma obj_set_keeps (k k' : string) (v : V) (o : JsObject V) :
  In k' (map fst o) -> In k' (map fst (obj_set k v o)).
Proof.
  intro Hin. unfold obj_set.
  destruct (String.eqb k "__proto__"); [ exact Hin | ].
  rewrite own_update_keys. destruct (own k o); [ exact Hin | ].
  apply in_or_app. left. exact Hin.
Qed.

(** A plain object has no own property that shadows [hasOwnProperty]. *)
Lemma plain_object_method (o : JsObject V) (k : string) :
  plain_object o -> call_hasOwnProperty o k = Normal (has_own k o).
Proof.
  intro Ho. unfold call_hasOwnProperty, has_own at 1.
  destruct (own "hasOwnProperty" o) as [v|] eqn:E; [ | reflexivity ].
  apply own_In in E. apply (in_map fst) in E.
  exfalso. apply (plain_key_not_method "hasOwnProperty"); [ apply Ho, E | reflexivity ].
Qed.

End PlainObjects.

Lemma zero_counts_plain (labels : list Label) :
  plain_labels labels -> plain_object (zero_counts labels).
Proof.
  unfold zero_counts, plain_labels.
  assert (H : forall acc : JsObject Z,
             plain_object acc ->
             Forall (fun label => plain_key (label_key label) = true) labels ->
             plain_object (fold_left (fun labelCounts label =>
                                        obj_set (label_key label) 0 labelCounts) labels acc)).
  { induction labels as [|l r IH]; intros acc Ha Hl; cbn [fold_left]; [ exact Ha | ].
    inversion Hl; subst. apply IH; [ apply obj_set_plain; assumption | assumption ]. }
  apply H. intros k [].
Qed.

(** Counting returns, keeps the keys plain, and gives every block's label a
    property. *)
Lemma count_block_plain (labelCounts : JsObject Z) (block : TimeBlock) :
  plain_object labelCounts -> plain_key (tb_label block) = true ->
  exists labelCounts',
    count_block labelCounts block = Normal labelCounts' /\
    plain_object labelCounts' /\
    In (tb_label block) (map fst labelCounts') /\
    (forall k, In k (map fst labelCounts) -> In k (map fst labelCounts')).
Proof.
  intros Ho Hk. unfold count_block. rewrite plain_object_method by exact Ho.
  cbn [cbind].
  set (c1 := if has_own (tb_label block) labelCounts
             then labelCounts else obj_set (tb_label block) 0 labelCounts).
  assert (H1 : plain_object c1).
  { unfold c1. destruct (has_own (tb_label block) labelCounts);
      [ exact Ho | apply obj_set_plain; assumption ]. }
  assert (H2 : In (tb_label block) (map fst c1)).
  { unfold c1, has_own. destruct (own (tb_label block) labelCounts) as [n|] eqn:E.
    - apply own_In in E. apply (in_map fst) in E. exact E.
    - apply obj_set_has, plain_key_not_proto, Hk. }
  assert (H3 : forall k, In k (map fst labelCounts) -> In k (map fst c1)).
  { intros k Hin. unfold c1. destruct (has_own (tb_label block) labelCounts);
      [ exact Hin | apply obj_set_keeps, Hin ]. }
  destruct (own (tb_label block) c1) as [n|] eqn:E.
  - eexists. split; [ reflexivity | ].
    assert (Hkeys : map fst (own_update (tb_label block) (n + 1) c1) = map fst c1).
    { rewrite own_update_keys, E. reflexivity. }
    split; [ intros k Hin; rewrite Hkeys in Hin; apply H1, Hin | ].
    rewrite Hkeys. split; assumption.
  - apply own_none in E. contradiction.
Qed.

Lemma count_blocks_plain (blocks : list TimeBlock) :
  forall labelCounts,
    plain_object labelCounts -> plain_blocks blocks ->
    exists labelCounts',
      count_blocks labelCounts blocks = Normal labelCounts' /\
      plain_object labelCounts' /\
      (forall b, In b blocks -> In (tb_label b) (map fst labelCounts')) /\
      (forall k, In k (map fst labelCounts) -> In k (map fst labelCounts')).
Proof.
  induction blocks as [|b r IH]; intros c Hc Hb; cbn [count_blocks].
  - exists c. repeat split; [ exact Hc | intros b [] | auto ].
  - inversion Hb as [|? ? Hpb Hr]; subst.
    destruct (count_block_plain c b Hc Hpb) as (c1 & E1 & P1 & I1 & K1).
    rewrite E1. cbn [cbind].
    destruct (IH c1 P1 Hr) as (c2 & E2 & P2 & I2 & K2).
    exists c2. split; [ exact E2 | split; [ exact P2 | split ] ].
    + intros b' [<-|Hin]; [ apply K2, I1 | apply I2, Hin ].
    + intros k Hin. apply K2, K1, Hin.
Qed.

(** The hours object has plain keys, and one at least when the counts have
    one. *)
Lemma hours_of_plain (labelCounts : JsObject Z) :
  plain_object labelCounts ->
  plain_object (hours_of labelCounts) /\
  (labelCounts <> [] -> hours_of labelCounts <> []).
Proof.
  intro Hc. unfold hours_of.
  assert (He : forall kv, In kv (entries labelCounts) -> plain_key (fst kv) = true).
  { intros kv Hin. apply Hc. apply (Permutation_in _ (keys_perm labelCounts)).
    rewrite <- entries_keys. apply in_map, Hin. }
  assert (H : forall (l : list (string * Z)) (acc : JsObject Q),
             (forall kv, In kv l -> plain_key (fst kv) = true) ->
             plain_object acc ->
             plain_object (fold_left (fun labelHours kv =>
                             obj_set (fst kv) (inject_Z (snd kv) * (1 # 4))%Q labelHours) l acc)
             /\ (acc <> [] \/ l <> [] ->
                 fold_left (fun labelHours kv =>
                             obj_set (fst kv) (inject_Z (snd kv) * (1 # 4))%Q labelHours) l acc
                 <> [])).
  { induction l as [|kv r IH]; intros acc Hl Ha; cbn [fold_left].
    - split; [ exact Ha | intros [H|H]; [ exact H | congruence ] ].
    - assert (Hkv : plain_key (fst kv) = true) by (apply Hl; left; reflexivity).
      destruct (IH (obj_set (fst kv) (inject_Z (snd kv) * (1 # 4))%Q acc)) as (P & N).
      + intros kv' Hin. apply Hl. right. exact Hin.
      + apply obj_set_plain; assumption.
      + split; [ exact P | intros _ ]. apply N. left.
        pose proof (obj_set_has Q (fst kv) (inject_Z (snd kv) * (1 # 4))%Q acc
                      (plain_key_not_proto _ Hkv)) as Hin.
        intro E. rewrite E in Hin. exact Hin. }
  destruct (H (entries labelCounts) [] He) as (P & N); [ intros k [] | ].
  split; [ exact P | ].
  intro Hne. apply N. right. intro E.
  assert (Hk : keys labelCounts = []) by (rewrite <- entries_keys, E; reflexivity).
  pose proof (keys_perm labelCounts) as Hp. rewrite Hk in Hp.
  apply Permutation_nil in Hp. destruct labelCounts; [ congruence | discriminate Hp ].
Qed.

Lemma reduce_pick {A : Type} (choose : A -> A -> bool) (l : list A) (x : A) :
  In (fold_left (fun a b => if choose a b then a else b) l x) (x :: l).
Proof.
  revert x. induction l as [|y r IH]; intro x; cbn [fold_left]; [ left; reflexivity | ].
  destruct (choose x y).
  - destruct (IH x) as [E|Hin]; [ left; exact E | right; right; exact Hin ].
  - right. apply IH.
Qed.

(** The dominant label exists and is a plain key. *)
Lemma dominant_plain (labelHours : JsObject Q) :
  plain_object labelHours -> labelHours <> [] ->
  exists dom, dominant labelHours = Normal dom /\ plain_key (fst dom) = true.
Proof.
  intros Hp Hne. unfold dominant, reduce.
  destruct (entries labelHours) as [|x r] eqn:E.
  - exfalso. assert (Hk : keys labelHours = []) by (rewrite <- entries_keys, E; reflexivity).
    pose proof (keys_perm labelHours) as Hperm. rewrite Hk in Hperm.
    apply Permutation_nil in Hperm. destruct labelHours; [ congruence | discriminate Hperm ].
  - eexists. split; [ reflexivity | ].
    pose proof (reduce_pick (fun a b => Qgtb (snd a) (snd b)) r x) as Hin.
    rewrite <- E in Hin. apply (in_map fst) in Hin. rewrite entries_keys in Hin.
    apply Hp. apply (Permutation_in _ (keys_perm labelHours)), Hin.
Qed.

Lemma priorityMatches_plain (priority dominantLabel : string) :
  plain_key dominantLabel = true ->
  exists b, priorityMatches priority dominantLabel = Normal b.
Proof.
  intro H. unfold priorityMatches.
  destruct (own (toLowerCase dominantLabel) priorityKeywords); [ eexists; reflexivity | ].
  rewrite (plain_key_lower _ H). eexists. reflexivity.
Qed.

(** With plain label names the dominant-label test of a non-empty list of
    blocks returns. *)
Lemma dominant_test_returns (labels : list Label) (blocks : list TimeBlock) :
  plain_labels labels -> plain_blocks blocks -> blocks <> [] ->
  exists labelCounts dom,
    count_blocks (zero_counts labels) blocks = Normal labelCounts /\
    dominant (hours_of labelCounts) = Normal dom /\
    plain_key (fst dom) = true.
Proof.
  intros Hl Hb Hne.
  destruct (count_blocks_plain blocks (zero_counts labels) (zero_counts_plain _ Hl) Hb)
    as (c & Ec & Pc & Ic & _).
  assert (Hc : c <> []).
  { destruct blocks as [|b r]; [ congruence | ].
    specialize (Ic b (or_introl eq_refl)). intro E. rewrite E in Ic. exact Ic. }
  destruct (hours_of_plain c Pc) as (Ph & Nh).
  destruct (dominant_plain (hours_of c) Ph (Nh Hc)) as (dom & Ed & Pd).
  exists c, dom. repeat split; assumption.
Qed.

(** With a declared priority, at least one block today and plain label
    names, the daily insight is a string. *)
Lemma dailyInsight_returns (priority : string) (blocks : list TimeBlock)
    (labels : list Label) :
  plain_labels labels -> plain_blocks blocks -> blocks <> [] ->
  exists s, dailyInsight priority blocks labels = Normal s.
Proof.
  intros Hl Hb Hne.
  destruct (dominant_test_returns labels blocks Hl Hb Hne) as (c & dom & Ec & Ed & Pd).
  destruct (priorityMatches_plain priority (fst dom) Pd) as (b & Em).
  unfold dailyInsight. rewrite Ec. cbn [cbind]. rewrite Ed. cbn [cbind].
  rewrite Em. cbn [cbind].
  destruct b; [ | eexists; reflexivity ].
  destruct (runners_up (hours_of c) (fst dom)) as [|[secondLabel hours] rest];
    [ eexists; reflexivity | ].
  destruct (Qgeb hours 1); eexists; reflexivity.
Qed.

Lemma generateDailyInsight_returns (host : Host) (p : Popup) (w : World) :
  plain_labels (labels_of p w) -> plain_blocks (stored_blocks w) ->
  priority_now host w <> None -> blocks_now host (tick w) <> [] ->
  exists s, result (generateDailyInsight host p) w = Normal (Some s).
Proof.
  intros Hl Hb Hp Hne. rewrite generateDailyInsight_run.
  destruct (priority_now host w) as [priority|]; [ | congruence ].
  destruct (blocks_now host (tick w)) as [|b rest] eqn:E; [ congruence | ].
  assert (Hpb : plain_blocks (b :: rest)).
  { rewrite <- E. unfold blocks_now, plain_blocks in *.
    apply Forall_forall. intros x Hx. apply filter_In in Hx. destruct Hx as (Hx & _).
    change (stored_blocks (tick w)) with (stored_blocks w) in Hx.
    rewrite Forall_forall in Hb. apply Hb, Hx. }
  destruct (dailyInsight_returns priority (b :: rest) (labels_of p w) Hl Hpb) as (s & Es);
    [ discriminate | ].
  rewrite Es. exists s. reflexivity.
Qed.

Lemma day_step_returns (dailyPriorities : JsObject string) (labels : list Label)
    (acc : option Mismatch * Q) (group : string * list TimeBlock) :
  plain_labels labels -> plain_blocks (snd group) -> snd group <> [] ->
  exists acc', day_step dailyPriorities labels acc group = Normal acc'.
Proof.
  intros Hl Hb Hne. unfold day_step.
  destruct (priority_of (fst group) dailyPriorities) as [pr|]; [ | eexists; reflexivity ].
  destruct (dominant_test_returns labels (snd group) Hl Hb Hne) as (c & dom & Ec & Ed & Pd).
  destruct (priorityMatches_plain pr (fst dom) Pd) as (b & Em).
  rewrite Ec. cbn [cbind]. rewrite Ed. cbn [cbind]. rewrite Em. cbn [cbind].
  destruct b; cbn [negb]; [ eexists; reflexivity | ].
  destruct (Qgtb (snd dom) (snd acc)); eexists; reflexivity.
Qed.

Lemma day_loop_returns (dailyPriorities : JsObject string) (labels : list Label)
    (groups : list (string * list TimeBlock)) :
  plain_labels labels ->
  (forall g, In g groups -> plain_blocks (snd g) /\ snd g <> []) ->
  forall acc, exists acc', day_loop dailyPriorities labels acc groups = Normal acc'.
Proof.
  intros Hl. induction groups as [|g r IH]; intros Hg acc; cbn [day_loop].
  - eexists. reflexivity.
  - destruct (Hg g (or_introl eq_refl)) as (Hb & Hne).
    destruct (day_step_returns dailyPriorities labels acc g Hl Hb Hne) as (acc1 & E1).
    rewrite E1. cbn [cbind]. apply IH. intros g' Hin. apply Hg. right. exact Hin.
Qed.

(** With plain label names the weekly insights are returned. *)
Lemma generateWeeklyInsights_returns (host : Host) (p : Popup) (w : World) :
  plain_labels (labels_of p w) -> plain_blocks (stored_blocks w) ->
  exists r, result (generateWeeklyInsights host p) w = Normal r.
Proof.
  intros Hl Hb. rewrite generateWeeklyInsights_run.
  assert (Hw : plain_blocks (week_now host w)).
  { unfold week_now, plain_blocks in *. apply Forall_forall. intros x Hx.
    apply filter_In in Hx. destruct Hx as (Hx & _).
    rewrite Forall_forall in Hb. apply Hb, Hx. }
  destruct (count_blocks_plain (week_now host w) (zero_counts (labels_of p w))
              (zero_counts_plain _ Hl) Hw) as (c & Ec & _).
  rewrite Ec. cbn [cbind]. unfold biggestMismatchOf.
  destruct (day_loop_returns (priorities_of w) (labels_of p w)
              (entries (group_by_day host (week_now host w))) Hl) with (acc := (@None Mismatch, 0%Q))
    as (acc & Ea).
  - intros [day dayBlocks] Hin.
    destruct (group_by_day_grouped host (week_now host w)) as (_ & Hgr & _).
    destruct (Hgr day dayBlocks Hin) as (Hne & Hf). cbn [snd].
    split; [ | exact Hne ].
    rewrite Hf. unfold plain_blocks in *. apply Forall_forall. intros x Hx.
    apply filter_In in Hx. destruct Hx as (Hx & _).
    rewrite Forall_forall in Hw. apply Hw, Hx.
  - rewrite Ea. cbn [cbind]. eexists. reflexivity.
Qed.

(* ===================================================================== *)
(** ** The weekly insights: the two results *)
(* ===================================================================== *)

(** C6.  The weekly avoidance streak is 0.25 times the length of the
    longest run of consecutive blocks, in the order sorted by start time,
    whose label is the avoidance label: Break if the label set has it, else
    Other if the label set has it, else the last label of the set.  For
    sorted labels Break, Break, Work, Break, Break, Break under the default
    label set it is 0.75 hours.  (The insights are returned whenever the
    label names are plain.) *)
Theorem avoidance_streak (host : Host) (p : Popup) (w : World) :
  let labels := labels_of p w in
  let sorted := sort_by_start (week_now host w) in
  let avoidance := breakLabelOf labels in
  (Permutation (week_now host w) sorted /\ StronglySorted by_start sorted) /\
  ((In (Some "Break") labels -> avoidance = Some "Break") /\
   (~ In (Some "Break") labels -> In (Some "Other") labels -> avoidance = Some "Other") /\
   (~ In (Some "Break") labels -> ~ In (Some "Other") labels ->
    avoidance = last labels None)) /\
  (plain_labels labels -> plain_blocks (stored_blocks w) ->
   exists r, result (generateWeeklyInsights host p) w = Normal r) /\
  (forall r : WeeklyInsights,
     result (generateWeeklyInsights host p) w = Normal r ->
     (exists n : nat,
        longest_run (has_label avoidance) sorted n /\
        longestAvoidanceStreak r = (inject_Z (Z.of_nat n) * (1 # 4))%Q) /\
     (labels = DEFAULT_LABELS ->
      map tb_label sorted = ["Break"; "Break"; "Work"; "Break"; "Break"; "Break"] ->
      longestAvoidanceStreak r = (3 # 4)%Q)).
Proof.
  intros labels sorted avoidance.
  split; [ apply sort_by_start_sorted | ].
  split; [ apply breakLabelOf_choice | ].
  split; [ apply generateWeeklyInsights_returns | ].
  intros r Hrun.
  rewrite generateWeeklyInsights_run in Hrun.
  destruct (count_blocks (zero_counts (labels_of p w)) (week_now host w)) as [c|e];
    [ | discriminate Hrun ].
  cbn [cbind] in Hrun.
  destruct (biggestMismatchOf host (priorities_of w) (labels_of p w) (week_now host w))
    as [bm|e]; [ | discriminate Hrun ].
  cbn [cbind] in Hrun. injection Hrun as <-. cbn [longestAvoidanceStreak].
  fold labels. rewrite longestStreakOf_best. fold sorted. fold avoidance.
  split.
  - exists (best_run (has_label avoidance) sorted).
    split; [ apply best_run_longest | reflexivity ].
  - intros Hl Hs. rewrite best_run_labels, Hs. subst avoidance. rewrite Hl. reflexivity.
Qed.

Lemma avoidance_streak_witness :
  exists r,
    result (generateWeeklyInsights sample_host fresh_popup) streak_world = Normal r /\
    map tb_label (sort_by_start (week_now sample_host streak_world))
      = ["Break"; "Break"; "Work"; "Break"; "Break"; "Break"] /\
    longestAvoidanceStreak r = (3 # 4)%Q.
Proof.
  eexists. split; [ vm_compute; reflexivity | ].
  split; [ vm_compute; reflexivity | ].
  match goal with
  | |- longestAvoidanceStreak ?r = _ =>
      destruct (avoidance_streak sample_host fresh_popup streak_world)
        as (_ & _ & _ & Hr);
      destruct (Hr r) as (_ & Hex); [ vm_compute; reflexivity | ]
  end.
  apply Hex; vm_compute; reflexivity.
Defined.

(** C8.  The weekly biggest mismatch is found over the week's blocks
    grouped by calendar day.  Each day that has a declared priority is put
    to the dominant-label keyword test; the result is a day that fails it,
    with the largest mismatch hours, and the first such day in iteration
    order: every mismatching day before it has strictly fewer hours, every
    one after it at most as many.  There is no result only if no
    mismatching day has positive hours.  A day whose priority matches its
    dominant label is never the result.  (The insights are returned
    whenever the label names are plain.) *)
Theorem biggest_mismatch (host : Host) (p : Popup) (w : World) :
  let blocks := week_now host w in
  let labels := labels_of p w in
  let dailyPriorities := priorities_of w in
  let groups := entries (group_by_day host blocks) in
  grouped_by_day host blocks groups /\
  (plain_labels labels -> plain_blocks (stored_blocks w) ->
   exists r, result (generateWeeklyInsights host p) w = Normal r) /\
  (forall r : WeeklyInsights,
     result (generateWeeklyInsights host p) w = Normal r ->
     match biggestMismatch r with
     | Some m =>
         (0 < mm_hours m)%Q /\
         exists before dayBlocks after,
           groups = (before ++ (mm_day m, dayBlocks) :: after)%list /\
           day_mismatch dailyPriorities labels (mm_day m, dayBlocks) m /\
           (forall g m', In g before -> day_mismatch dailyPriorities labels g m' ->
                         (mm_hours m' < mm_hours m)%Q) /\
           (forall g m', In g after -> day_mismatch dailyPriorities labels g m' ->
                         (mm_hours m' <= mm_hours m)%Q)
     | None =>
         forall g m', In g groups -> day_mismatch dailyPriorities labels g m' ->
                      (mm_hours m' <= 0)%Q
     end /\
     (forall g m, In g groups -> day_match dailyPriorities labels g ->
                  biggestMismatch r = Some m -> mm_day m <> fst g)).
Proof.
  intros blocks labels dailyPriorities groups.
  pose proof (group_by_day_grouped host blocks) as Hgroups. fold groups in Hgroups.
  split; [ exact Hgroups | ].
  split; [ apply generateWeeklyInsights_returns | ].
  intros r Hrun.
  rewrite generateWeeklyInsights_run in Hrun.
  destruct (count_blocks (zero_counts (labels_of p w)) (week_now host w)) as [c|e];
    [ | discriminate Hrun ].
  cbn [cbind] in Hrun.
  destruct (biggestMismatchOf host (priorities_of w) (labels_of p w) (week_now host w))
    as [bm|e] eqn:Hbm; [ | discriminate Hrun ].
  cbn [cbind] in Hrun. injection Hrun as <-. cbn [biggestMismatch].
  unfold biggestMismatchOf in Hbm.
  fold blocks labels dailyPriorities groups in Hbm.
  destruct (day_loop dailyPriorities labels (None, 0%Q) groups) as [acc|e] eqn:Hloop;
    [ | discriminate Hbm ].
  cbn [cbind] in Hbm. injection Hbm as <-.
  assert (Hinv : best_so_far dailyPriorities labels groups acc).
  { apply (day_loop_best dailyPriorities labels groups [] (None, 0%Q) acc); [ | exact Hloop ].
    split; [ reflexivity | intros g m' [] ]. }
  unfold best_so_far in Hinv. split.
  - destruct (fst acc) as [m|].
    + destruct Hinv as (_ & Hpos & Hex). split; assumption.
    + destruct Hinv as (_ & Hall). exact Hall.
  - intros g m Hin Hmatch Hsome. rewrite Hsome in Hinv.
    destruct Hinv as (_ & _ & before & bs & after & Hg & Hmis & _).
    intro Hday. destruct g as [day dayBlocks]. cbn [fst] in Hday. subst day.
    assert (Hin' : In (mm_day m, bs) groups).
    { rewrite Hg. apply in_or_app. right. left. reflexivity. }
    destruct Hgroups as (Hnd & _).
    rewrite (nodup_keys_value groups _ _ _ Hnd Hin Hin') in Hmatch.
    exact (day_match_not_mismatch _ _ _ _ Hmatch Hmis).
Qed.

Lemma biggest_mismatch_witness :
  exists r m,
    result (generateWeeklyInsights sample_host fresh_popup) mismatch_world = Normal r /\
    biggestMismatch r = Some m /\
    m = mkMismatch "D19670" "Write the thesis" "Meetings" (2 # 4) /\
    (0 < mm_hours m)%Q.
Proof.
  eexists. eexists. split; [ vm_compute; reflexivity | ].
  split; [ reflexivity | ]. split; [ reflexivity | ].
  match goal with
  | |- (0 < mm_hours ?m)%Q =>
      destruct (biggest_mismatch sample_host fresh_popup mismatch_world) as (_ & _ & Hr);
      destruct (Hr (mkWeekly (Some m) (0 # 4)
                      (Some "Consider batching similar tasks together to improve focus.")))
        as ((Hpos & _) & _); [ vm_compute; reflexivity | ]
  end.
  exact Hpos.
Defined.

(* ===================================================================== *)
(** ** Further properties of the timer engine (background.js) *)
(* ===================================================================== *)

Lemma pending_frame_refl (w : World) : pending_frame w w.
Proof. split; [ apply timer_frame_refl | left; reflexivity ]. Qed.

Lemma pending_frame_trans (a b c : World) :
  pending_frame a b -> pending_frame b c -> pending_frame a c.
Proof.
  intros (Hab & Pab) (Hbc & Pbc). split.
  - apply (timer_frame_trans a b c); assumption.
  - destruct Pbc as [E|E]; [ rewrite E; exact Pab | right; exact E ].
Qed.

Ltac pending_framed :=
  frame_with pending_frame_refl pending_frame_trans;
  try (intro w; unfold pending_frame, timer_frame;
       cbn [storage alarm ticks isRunning timerStart pendingBlock
            set_timeBlocks set_dailyPriority set_pendingBlock set_customLabels
            set_needsPriority set_currentDay fst snd];
       split; [ repeat split; try reflexivity; lia
              | first [ left; reflexivity | right; reflexivity ] ]).

Section EngineInvariant.

Variable host : Host.
Hypothesis clock_monotone : monotone host.

Lemma pending_frame_inv (w w' : World) :
  pending_frame w w' -> engine_inv host w -> engine_inv host w'.
Proof.
  intros ((Ha & Hr & Ht & Hk) & Hp) (Hpast & Halarm & Hord).
  split; [ | split ].
  - intros t E. rewrite Ht in E. destruct (Hpast t E) as (i & Hi & ->).
    exists i. split; [ lia | reflexivity ].
  - intros a E. rewrite Ha in E. rewrite Hr, Ht. apply Halarm, E.
  - intros pb E. destruct Hp as [Hp|Hp]; rewrite Hp in E; [ apply Hord, E | discriminate E ].
Qed.

Lemma pending_frame_keeps {A : Type} (m : M A) :
  respects pending_frame m -> keeps (engine_inv host) m.
Proof.
  intros H w Hw. apply (pending_frame_inv w); [ apply H | exact Hw ].
Qed.

Lemma triggerInterrupt_engine : keeps (engine_inv host) (triggerInterrupt host).
Proof.
  intros w (Hpast & Halarm & Hord). rewrite triggerInterrupt_world.
  assert (Hnow : now_at host w 0 <= now_at host w 1).
  { unfold now_at. apply clock_monotone. lia. }
  assert (Hcase : forall pb k,
             pb_start pb <= pb_end pb -> (ticks w <= k)%nat ->
             engine_inv host
               (mkWorld (set_pendingBlock (Some pb) (storage w)) (alarm w) "!" true k (draws w))).
  { intros pb k Hpb Hk. split; [ | split ].
    - intros t E. change (timerStart (storage w) = Some t) in E.
      destruct (Hpast t E) as (i & Hi & ->). exists i. split; [ | reflexivity ].
      change (i < k)%nat. lia.
    - intros a E. change (alarm w = Some a) in E. apply Halarm, E.
    - intros pb' E. change (Some pb = Some pb') in E. injection E as <-. exact Hpb. }
  destruct (timerStart (storage w)) as [t|] eqn:Et; [ destruct (t =? 0) | ].
  - apply Hcase; [ exact Hnow | lia ].
  - apply Hcase; [ | lia ]. cbn [pb_start pb_end].
    destruct (Hpast t Et) as (i & Hi & ->). unfold now_at. apply clock_monotone. lia.
  - apply Hcase; [ exact Hnow | lia ].
Qed.

Lemma tick_engine (w : World) : engine_inv host w -> engine_inv host (tick w).
Proof.
  apply pending_frame_inv. split; [ | left; reflexivity ].
  unfold timer_frame, tick. cbn [storage alarm ticks]. repeat split; try reflexivity. lia.
Qed.

(** Scheduling the alarm at [a] for a running timer started at [t]. *)
Lemma scheduled_engine (w : World) (a t : Z) (b : string) (n : bool) (k : nat) :
  engine_inv host w -> (ticks w <= k)%nat ->
  isRunning (storage w) = true -> timerStart (storage w) = Some t ->
  t + INTERRUPT_INTERVAL <= a ->
  engine_inv host (mkWorld (storage w) (Some a) b n k (draws w)).
Proof.
  intros (Hpast & Halarm & Hord) Hk Er Et Ha. split; [ | split ].
  - intros t' E. cbn [storage] in E. destruct (Hpast t' E) as (i & Hi & ->).
    exists i. split; [ cbn [ticks]; lia | reflexivity ].
  - intros a' E. cbn [alarm] in E. injection E as <-. cbn [storage].
    split; [ exact Er | exists t; split; [ exact Et | exact Ha ] ].
  - intros pb E. cbn [storage] in E. apply Hord, E.
Qed.

(** Starting an interval at the current reading [c], with the alarm at [a]. *)
Lemma restarted_engine (w : World) (st : Storage) (a : Z) (b : string) (n : bool) :
  engine_inv host w ->
  isRunning st = true -> timerStart st = Some (clock host (ticks w)) ->
  pendingBlock st = pendingBlock (storage w) ->
  clock host (ticks w) + INTERRUPT_INTERVAL <= a ->
  engine_inv host (mkWorld st (Some a) b n (S (ticks w)) (draws w)).
Proof.
  intros (Hpast & Halarm & Hord) Er Et Ep Ha. split; [ | split ].
  - intros t' E. cbn [storage] in E. rewrite Et in E. injection E as <-.
    exists (ticks w). split; [ cbn [ticks]; lia | reflexivity ].
  - intros a' E. cbn [alarm] in E. injection E as <-. cbn [storage].
    split; [ exact Er | eexists; split; [ exact Et | exact Ha ] ].
  - intros pb E. cbn [storage] in E. rewrite Ep in E. apply Hord, E.
Qed.

Lemma checkTimerState_engine : keeps (engine_inv host) (checkTimerState host).
Proof.
  intros w Hw. rewrite checkTimerState_world.
  destruct (isRunning (storage w)) eqn:Er; cbv beta iota delta [negb]; [ | exact Hw ].
  destruct (pendingBlock (storage w)) eqn:Ep; [ exact Hw | ].
  destruct (timerStart (storage w)) as [t|] eqn:Et; [ | exact Hw ].
  destruct (t =? 0); cbv beta iota delta [negb]; [ exact Hw | ].
  destruct (INTERRUPT_INTERVAL <=? now_at host w 0 - t).
  - apply triggerInterrupt_engine, tick_engine, Hw.
  - apply (scheduled_engine w _ t); [ exact Hw | lia | exact Er | exact Et | ].
    assert (now_at host w 0 <= now_at host w 1).
    { unfold now_at. apply clock_monotone. lia. }
    lia.
Qed.

Lemma onMessage_engine (a : Action) : keeps (engine_inv host) (onMessage host a).
Proof.
  destruct a.
  - (* startTimer *)
    intros w Hw.
    apply (restarted_engine w
             (set_isRunning true (set_timerStart (Some (clock host (ticks w))) (storage w))));
      [ exact Hw | reflexivity | reflexivity | reflexivity | lia ].
  - (* stopTimer *)
    intros w (Hpast & Halarm & Hord). split; [ | split ].
    + intros t E. discriminate E.
    + intros a E. discriminate E.
    + intros pb E. change (pendingBlock (storage w) = Some pb) in E. apply Hord, E.
  - (* scheduleNextInterrupt *)
    intros w Hw.
    unfold exec, onMessage. unfold bind at 1. unfold Date_now at 1. cbv beta iota.
    unfold bind at 1. unfold storage_get at 1. cbv beta iota. cbn [storage].
    destruct (isRunning (storage w)) eqn:Er.
    + apply (restarted_engine w (set_timerStart (Some (clock host (ticks w))) (storage w)));
        [ exact Hw | exact Er | reflexivity | reflexivity | lia ].
    + apply (tick_engine w Hw).
  - (* clearPendingBlock *)
    apply pending_frame_keeps.
    unfold onMessage, updateBadge, storage_set, setBadgeText, notifications_set.
    pending_framed.
  - (* getTimerState *)
    apply pending_frame_keeps. unfold onMessage. pending_framed.
  - (* test *)
    apply pending_frame_keeps. unfold onMessage. pending_framed.
Qed.

Lemma onAlarm_engine : keeps (engine_inv host) (onAlarm host).
Proof.
  unfold onAlarm. apply keeps_bind.
  - intros w (Hpast & Halarm & Hord). split; [ exact Hpast | split ].
    + intros a E. discriminate E.
    + exact Hord.
  - intros _. apply triggerInterrupt_engine.
Qed.

(** Every handler keeps the engine invariant. *)
Lemma handle_engine (ev : Event) : keeps (engine_inv host) (handle host ev).
Proof.
  destruct ev; unfold handle.
  - unfold initialize.
    repeat (apply keeps_bind; [ | intros _ ]).
    + apply pending_frame_keeps. unfold checkDailyPriority, Date_now, storage_set.
      pending_framed.
    + apply checkTimerState_engine.
    + apply pending_frame_keeps. unfold updateBadge, setBadgeText. pending_framed.
    + apply pending_frame_keeps. unfold ensureNotificationExists, notifications_set.
      pending_framed.
  - unfold periodicCheck.
    repeat (apply keeps_bind; [ | intros _ ]).
    + apply checkTimerState_engine.
    + apply pending_frame_keeps. unfold updateBadge, setBadgeText. pending_framed.
    + apply pending_frame_keeps. unfold ensureNotificationExists, notifications_set.
      pending_framed.
  - apply onAlarm_engine.
  - apply forget_keeps, onMessage_engine.
  - apply forget_keeps, pending_frame_keeps.
    unfold initializePopup, setBadgeText. pending_framed.
  - apply forget_keeps, pending_frame_keeps.
    unfold submitPriority, setTodayPriority, Date_now, storage_set. pending_framed.
  - destruct (submit_valid p).
    + apply pending_frame_keeps.
      unfold submit_save, getTodayPriority, saveTimeBlock, getTimeBlocks, Date_now,
        storage_set.
      pending_framed.
    + intros w Hw. exact Hw.
  - apply pending_frame_keeps.
    unfold submit_clear, storage_set, setBadgeText, notifications_set. pending_framed.
  - apply forget_keeps, pending_frame_keeps.
    unfold addLabel, getLabelsRef, saveLabels, storage_set. pending_framed.
  - apply forget_keeps, pending_frame_keeps.
    unfold editLabel, getLabelsRef, saveLabels, storage_set. pending_framed.
  - apply forget_keeps, pending_frame_keeps.
    unfold deleteLabel, getLabelsRef, saveLabels, storage_set. pending_framed.
Qed.

Lemma reachable_engine (w : World) : reachable host w -> engine_inv host w.
Proof.
  induction 1 as [ | w ev _ IH _ ].
  - split; [ | split ].
    + intros t E. discriminate E.
    + intros a E. discriminate E.
    + intros pb E. discriminate E.
  - apply handle_engine, IH.
Qed.

End EngineInvariant.



(** X2.  In every world the extension gets into, with a clock that never
    runs backwards, the stored pending block does not end before it
    starts. *)
Theorem pending_block_ordered (host : Host) (w : World) (pb : PendingBlock) :
  monotone host ->
  reachable host w ->
  pendingBlock (storage w) = Some pb ->
  pb_start pb <= pb_end pb.
Proof.
  intros Hm Hr Hp. destruct (reachable_engine host Hm w Hr) as (_ & _ & Hord).
  apply Hord, Hp.
Qed.

Lemma pending_block_ordered_witness :
  pendingBlock (storage awaiting_world) = Some (mkPending 1700000000000 1700000000001) /\
  1700000000000 <= 1700000000001.
Proof.
  split; [ reflexivity | ].
  apply (pending_block_ordered sample_host awaiting_world
           (mkPending 1700000000000 1700000000001)).
  - apply sample_host_monotone.
  - apply awaiting_world_reachable.
  - reflexivity.
Defined.


Lemma quarter_host_monotone : monotone quarter_host.
Proof. intros i j H. unfold quarter_host. cbv [clock]. lia. Qed.



(* ===================================================================== *)
(** ** Further properties of the label submission and of the pause *)
(* ===================================================================== *)

(** The state check does nothing while a pending block is stored. *)
Lemma checkTimerState_paused (host : Host) (w : World) (pb : PendingBlock) :
  pendingBlock (storage w) = Some pb -> checkTimerState host w = (Normal tt, w).
Proof.
  intro H. unfold checkTimerState. unfold bind at 1. unfold storage_get at 1.
  cbv beta iota. rewrite H. destruct (isRunning (storage w)); reflexivity.
Qed.

(** The service worker's answer to the message sent after a submission. *)
Lemma submit_resume_world (host : Host) (w : World) :
  exec (submit_resume host) w =
  if isRunning (storage w)
  then mkWorld (set_timerStart (Some (now_at host w 0)) (storage w))
               (Some (now_at host w 0 + INTERRUPT_INTERVAL))
               "" (notification w) (S (ticks w)) (draws w)
  else tick w.
Proof.
  unfold now_at. rewrite Nat.add_0_r.
  unfold submit_resume, onMessage, exec. unfold bind at 1. unfold bind at 1.
  unfold Date_now at 1. cbv beta iota. unfold bind at 1. unfold storage_get at 1.
  cbv beta iota. cbn [storage].
  destruct (isRunning (storage w)); reflexivity.
Qed.

(** The world a valid submission leaves, before the service worker's
    answer. *)
Lemma submit_cleared_world (host : Host) (p : Popup) (w : World)
    (pb : PendingBlock) (l : string) :
  p_pendingBlock p = Some pb ->
  chosen_label p = Some l ->
  exec submit_clear (between_writes host p w) =
  mkWorld (set_pendingBlock None
             (set_timeBlocks
                (Some (stored_blocks w ++ [block_of p pb l (priority_now host w)])%list)
                (storage w)))
          (alarm w) "" false (S (ticks w)) (draws w).
Proof.
  intros Hp Hl. unfold between_writes. rewrite (submit_save_world host p w pb l Hp Hl).
  reflexivity.
Qed.

(** X4.  While a pending block is stored the timer is paused: the state
    check changes nothing, and the check run every minute leaves storage,
    alarm and clock alone, shows the badge and puts the notification back
    even after it was clicked away. *)
Theorem pending_block_pauses (host : Host) (w : World) (pb : PendingBlock) :
  pendingBlock (storage w) = Some pb ->
  exec (checkTimerState host) w = w /\
  notification (exec onNotificationClicked w) = false /\
  let w' := exec (periodicCheck host) (exec onNotificationClicked w) in
  storage w' = storage w /\ alarm w' = alarm w /\ ticks w' = ticks w /\
  badge w' = "!" /\ notification w' = true.
Proof.
  intro H. split; [ | split; [ reflexivity | ] ].
  - unfold exec. rewrite (checkTimerState_paused host w pb H). reflexivity.
  - cbv zeta. unfold periodicCheck.
    rewrite (exec_bind_normal _ _ _ _ tt
               (checkTimerState_paused host (exec onNotificationClicked w) pb H)).
    unfold exec, updateBadge, ensureNotificationExists, onNotificationClicked, bind,
      storage_get, setBadgeText, notifications_set.
    cbn [storage fst snd]. rewrite H. cbn [storage fst snd]. rewrite H.
    repeat split; reflexivity.
Qed.

Lemma pending_block_pauses_witness :
  notification (exec (periodicCheck sample_host) (exec onNotificationClicked awaiting_world))
  = true.
Proof.
  destruct (pending_block_pauses sample_host awaiting_world
              (mkPending 1700000000000 1700000000001)) as (_ & _ & _ & _ & _ & _ & H).
  - reflexivity.
  - exact H.
Defined.



(** X6.  Stopping the timer while an interval awaits its label keeps the
    pending block and the stored blocks; the label can still be submitted,
    the block is appended, and the timer stays stopped: no [timerStart], no
    alarm. *)
Theorem label_after_stop (host : Host) (p : Popup) (w : World)
    (pb : PendingBlock) (l : string) :
  p_pendingBlock p = Some pb ->
  chosen_label p = Some l ->
  (String.length (noteInput p) <= NOTE_CHAR_LIMIT)%nat ->
  let w1 := exec (onMessage host stopTimer) w in
  let w2 := exec (submitLabel host p) w1 in
  (pendingBlock (storage w1) = pendingBlock (storage w) /\
   stored_blocks w1 = stored_blocks w) /\
  stored_blocks w2 = (stored_blocks w ++ [block_of p pb l (priority_now host w)])%list /\
  pendingBlock (storage w2) = None /\
  isRunning (storage w2) = false /\
  timerStart (storage w2) = None /\
  alarm w2 = None.
Proof.
  intros Hp Hl Hn. cbv zeta.
  split; [ split; reflexivity | ].
  rewrite (submitLabel_stretches host p _ pb l Hp Hl Hn).
  rewrite (submit_cleared_world host p _ pb l Hp Hl).
  rewrite submit_resume_world. repeat split; reflexivity.
Qed.

Lemma label_after_stop_witness :
  List.length (stored_blocks (exec (submitLabel sample_host awaiting_popup) stopped_world))
  = 1%nat /\
  alarm (exec (submitLabel sample_host awaiting_popup) stopped_world) = None.
Proof.
  destruct (label_after_stop sample_host awaiting_popup awaiting_world
              (mkPending 1700000000000 1700000000001) "Work")
    as (_ & Hb & _ & _ & _ & Ha).
  - reflexivity.
  - reflexivity.
  - vm_compute. lia.
  - split; [ | exact Ha ].
    change (exec (onMessage sample_host stopTimer) awaiting_world) with stopped_world in Hb.
    rewrite Hb. reflexivity.
Defined.

(* ===================================================================== *)
(** ** The list of stored blocks along the events *)
(* ===================================================================== *)
















(* ===================================================================== *)
(** ** The daily priority (utils.js, background.js, popup.js) *)
(* ===================================================================== *)

Lemma setTodayPriority_world (host : Host) (priority : string) (w : World) :
  exec (setTodayPriority host priority) w =
  mkWorld (set_dailyPriority
             (Some (own_update (day_at host w 0) priority (priorities_of w)))
             (storage w))
          (alarm w) (badge w) (notification w) (S (ticks w)) (draws w).
Proof. unfold day_at, now_at. rewrite Nat.add_0_r. reflexivity. Qed.

Lemma string_or_null_full (s : string) : s <> "" -> string_or_null s = Some s.
Proof. destruct s; [ congruence | reflexivity ]. Qed.

Lemma priority_on_set (host : Host) (priority : string) (w : World) :
  priority <> "" ->
  priority_on (day_at host w 0) (exec (setTodayPriority host priority) w) = Some priority.
Proof.
  intro Hne. rewrite setTodayPriority_world. unfold priority_on, priorities_of, priority_of.
  cbn [storage dailyPriority set_dailyPriority].
  rewrite own_update_same. apply string_or_null_full. exact Hne.
Qed.

(** X9.  A priority stored with [setTodayPriority] is what
    [getTodayPriority] answers, and [hasPriorityToday] answers [true], as
    long as the second reading of the clock falls on the same day; the
    priorities of all other days are as before, and no day gets a second
    entry. *)
Theorem priority_round_trip (host : Host) (w : World) (priority : string) :
  priority <> "" ->
  day_at host w 1 = day_at host w 0 ->
  let w' := exec (setTodayPriority host priority) w in
  result (getTodayPriority host) w' = Normal (Some priority) /\
  result (hasPriorityToday host) w' = Normal true /\
  (forall day, day <> day_at host w 0 -> priority_on day w' = priority_on day w) /\
  (NoDup (map fst (priorities_of w)) -> NoDup (map fst (priorities_of w'))).
Proof.
  intros Hne Hday. cbv zeta.
  assert (G : priority_now host (exec (setTodayPriority host priority) w) = Some priority).
  { rewrite <- (priority_on_set host priority w Hne). rewrite <- Hday.
    rewrite setTodayPriority_world. unfold priority_now, priority_on, priorities_of, day_at, now_at.
    cbn [storage ticks]. rewrite Nat.add_1_r. reflexivity. }
  split; [ | split; [ | split ] ].
  - unfold result. rewrite getTodayPriority_run. cbn [fst]. rewrite G. reflexivity.
  - unfold result, hasPriorityToday. unfold bind at 1. rewrite getTodayPriority_run.
    rewrite G. reflexivity.
  - intros day Hd. rewrite setTodayPriority_world. unfold priority_on, priorities_of, priority_of.
    cbn [storage dailyPriority set_dailyPriority].
    rewrite own_update_other by exact Hd. reflexivity.
  - intro Hn. rewrite setTodayPriority_world. unfold priorities_of at 1.
    cbn [storage dailyPriority set_dailyPriority]. apply own_update_nodup. exact Hn.
Qed.

Lemma priority_round_trip_witness :
  result (getTodayPriority sample_host)
         (exec (setTodayPriority sample_host "Ship the report") initial_world)
  = Normal (Some "Ship the report").
Proof.
  destruct (priority_round_trip sample_host initial_world "Ship the report") as (H & _).
  - discriminate.
  - vm_compute. reflexivity.
  - exact H.
Defined.

Lemma prompt_kept_refl (w : World) : prompt_kept w w.
Proof. intro H. exact H. Qed.

Lemma prompt_kept_trans (a b c : World) : prompt_kept a b -> prompt_kept b c -> prompt_kept a c.
Proof. unfold prompt_kept. auto. Qed.

Ltac prompt_framed :=
  frame_with prompt_kept_refl prompt_kept_trans;
  try (intro w; unfold prompt_kept;
       cbn [storage needsPriority set_timeBlocks set_dailyPriority set_pendingBlock
            set_timerStart set_isRunning set_customLabels set_needsPriority
            set_currentDay fst snd];
       first [ exact (fun Hn => Hn) | intros _; reflexivity ]).

Lemma handle_prompt_kept (host : Host) (ev : Event) :
  (forall input p, ev = EvSubmitPriority input p -> trim input = "") ->
  respects prompt_kept (handle host ev).
Proof.
  intro Hblank.
  destruct ev as [ | | | a | p | input p | p | | input p | index cur input p | index c p ];
    unfold handle, forget.
  - unfold initialize, checkDailyPriority, checkTimerState, triggerInterrupt,
      scheduleNextInterrupt, updateBadge, ensureNotificationExists. prompt_framed.
  - unfold periodicCheck, checkTimerState, triggerInterrupt,
      scheduleNextInterrupt, updateBadge, ensureNotificationExists. prompt_framed.
  - unfold onAlarm, triggerInterrupt. prompt_framed.
  - destruct a; unfold onMessage, scheduleNextInterrupt, updateBadge; prompt_framed.
  - unfold initializePopup. prompt_framed.
  - unfold submitPriority. rewrite (Hblank input p eq_refl). cbn [String.length Nat.eqb].
    prompt_framed.
  - unfold submit_save, saveTimeBlock, getTimeBlocks, getTodayPriority. prompt_framed.
  - unfold submit_clear. prompt_framed.
  - unfold addLabel, getLabelsRef, saveLabels. prompt_framed.
  - unfold editLabel, getLabelsRef, saveLabels. prompt_framed.
  - unfold deleteLabel, getLabelsRef, saveLabels. prompt_framed.
Qed.

(** X10.  The priority prompt cannot be got rid of without a priority: once
    [needsPriority] is set, every event other than a submission of a
    non-blank priority leaves it set, and a popup opened then shows the
    priority prompt, whether a block is pending or not. *)
Theorem priority_prompt_stays (host : Host) (ev : Event) (w : World) :
  needsPriority (storage w) = true ->
  (forall input p, ev = EvSubmitPriority input p -> trim input = "") ->
  let w' := exec (handle host ev) w in
  needsPriority (storage w') = true /\
  forall p, exists p', result (initializePopup p) w' = Normal (p', priorityPrompt).
Proof.
  intros Hn Hblank. cbv zeta.
  assert (K : needsPriority (storage (exec (handle host ev) w)) = true).
  { apply (handle_prompt_kept host ev Hblank w). exact Hn. }
  split; [ exact K | ].
  intro p. unfold initializePopup, result. unfold bind at 1. unfold storage_get at 1.
  cbv beta iota. unfold bind at 1.
  destruct (p_pendingBlock (set_p_pendingBlock
              (pendingBlock (storage (exec (handle host ev) w))) p));
    unfold setBadgeText at 1; cbv beta iota; rewrite K; eexists; reflexivity.
Qed.

Lemma priority_prompt_stays_witness :
  needsPriority (storage first_day_world) = true /\
  needsPriority (storage (exec (handle sample_host (EvSubmitPriority "   " fresh_popup))
                               first_day_world)) = true.
Proof.
  split; [ reflexivity | ].
  destruct (priority_prompt_stays sample_host (EvSubmitPriority "   " fresh_popup)
              first_day_world) as (H & _).
  - reflexivity.
  - intros input p E. inversion E. reflexivity.
  - exact H.
Defined.

(** The storage [checkDailyPriority] leaves. *)
Lemma checkDailyPriority_storage (host : Host) (w : World) :
  storage (exec (checkDailyPriority host) w) =
  if match currentDay (storage w) with
     | Some d => String.eqb d (day_at host w 0)
     | None => false
     end
  then storage w
  else
    match priority_on (day_at host w 0) w with
    | Some _ => set_currentDay (Some (day_at host w 0)) (storage w)
    | None => set_needsPriority true (set_currentDay (Some (day_at host w 0)) (storage w))
    end.
Proof.
  unfold day_at, now_at, priority_on, priorities_of, priority_of, string_or_null.
  rewrite Nat.add_0_r.
  unfold checkDailyPriority, exec, bind, Date_now, storage_get, storage_set, ret.
  cbn [fst snd storage ticks].
  destruct (match currentDay (storage w) with
            | Some d => (d =? toDateString host (clock host (ticks w)))%string
            | None => false
            end); cbn [fst snd storage].
  - reflexivity.
  - destruct (own (toDateString host (clock host (ticks w)))
                  (match dailyPriority (storage w) with Some o => o | None => [] end))
      as [pr|]; [ destruct (truthy_string pr) | ]; reflexivity.
Qed.

Lemma checkDailyPriority_ticks (host : Host) (w : World) :
  ticks (exec (checkDailyPriority host) w) = S (ticks w).
Proof.
  destruct (checkDailyPriority_world host w) as (s & E & _).
  unfold exec. rewrite E. reflexivity.
Qed.

(** The submit handler of the priority prompt, for a text that is not
    blank. *)
Lemma submitPriority_run (host : Host) (input : string) (p : Popup) (w : World) :
  trim input <> "" ->
  submitPriority host input p w =
  (Normal (match p_pendingBlock p with
           | Some _ => (showTaggingScreen p, taggingScreen)
           | None => (p, mainMenu)
           end),
   mkWorld (set_needsPriority false
              (set_dailyPriority
                 (Some (own_update (day_at host w 0) (trim input) (priorities_of w)))
                 (storage w)))
           (alarm w) (badge w) (notification w) (S (ticks w)) (draws w)).
Proof.
  intro Hne. unfold submitPriority.
  destruct (String.length (trim input) =? 0)%nat eqn:E.
  - apply Nat.eqb_eq in E. destruct (trim input); [ congruence | discriminate ].
  - unfold bind at 1.
    pose proof (setTodayPriority_world host (trim input) w) as Hs. unfold exec in Hs.
    destruct (setTodayPriority host (trim input) w) as [c w1] eqn:Es.
    assert (Hc : c = Normal tt) by (revert Es; unfold setTodayPriority, bind, Date_now,
      storage_get, storage_set; cbn [fst snd]; intro Es; inversion Es; reflexivity).
    cbn [snd] in Hs. subst c w1.
    destruct (p_pendingBlock p); reflexivity.
Qed.



(** X12.  The priority is asked for once a day.  On a day the extension has
    not seen yet and that has no priority, the daily check raises
    [needsPriority]; a priority submitted the same day lowers it and is
    stored for that day; and a later daily check on the same day changes
    nothing in storage. *)
Theorem asked_once_a_day (host : Host) (input : string) (p : Popup) (w : World) :
  currentDay (storage w) <> Some (day_at host w 0) ->
  priority_on (day_at host w 0) w = None ->
  trim input <> "" ->
  day_at host w 1 = day_at host w 0 ->
  day_at host w 2 = day_at host w 0 ->
  let w1 := exec (checkDailyPriority host) w in
  let w2 := exec (submitPriority host input p) w1 in
  let w3 := exec (checkDailyPriority host) w2 in
  (needsPriority (storage w1) = true /\ currentDay (storage w1) = Some (day_at host w 0)) /\
  (needsPriority (storage w2) = false /\
   priority_on (day_at host w 0) w2 = Some (trim input)) /\
  storage w3 = storage w2.
Proof.
  intros Hday Hnone Hne H1 H2. cbv zeta.
  assert (S1 : storage (exec (checkDailyPriority host) w)
               = set_needsPriority true (set_currentDay (Some (day_at host w 0)) (storage w))).
  { rewrite checkDailyPriority_storage. rewrite Hnone.
    destruct (currentDay (storage w)) as [d|]; [ | reflexivity ].
    destruct (String.eqb_spec d (day_at host w 0)) as [->|N]; [ congruence | reflexivity ]. }
  assert (D1 : day_at host (exec (checkDailyPriority host) w) 0 = day_at host w 0).
  { rewrite <- H1. unfold day_at, now_at. rewrite checkDailyPriority_ticks.
    f_equal. f_equal. lia. }
  assert (D2 : day_at host (exec (submitPriority host input p)
                              (exec (checkDailyPriority host) w)) 0 = day_at host w 0).
  { unfold exec at 1. rewrite (submitPriority_run host input p _ Hne). cbn [snd].
    rewrite <- H2. unfold day_at, now_at. cbn [ticks]. rewrite checkDailyPriority_ticks.
    f_equal. f_equal. lia. }
  split; [ rewrite S1; split; reflexivity | ].
  assert (S2 : storage (exec (submitPriority host input p) (exec (checkDailyPriority host) w))
               = set_needsPriority false
                   (set_dailyPriority
                      (Some (own_update (day_at host w 0) (trim input)
                               (priorities_of (exec (checkDailyPriority host) w))))
                      (storage (exec (checkDailyPriority host) w)))).
  { unfold exec at 1. rewrite (submitPriority_run host input p _ Hne). cbn [snd storage].
    rewrite D1. reflexivity. }
  split.
  - rewrite S2. split; [ reflexivity | ].
    unfold priority_on, priorities_of at 1, priority_of.
    rewrite S2. cbn [dailyPriority set_dailyPriority set_needsPriority].
    rewrite own_update_same. apply string_or_null_full. exact Hne.
  - rewrite checkDailyPriority_storage. rewrite D2.
    assert (C : currentDay (storage (exec (submitPriority host input p)
                                      (exec (checkDailyPriority host) w)))
                = Some (day_at host w 0)).
    { rewrite S2. cbn [currentDay set_needsPriority set_dailyPriority]. rewrite S1. reflexivity. }
    rewrite C. rewrite String.eqb_refl. reflexivity.
Qed.

Lemma asked_once_a_day_witness :
  needsPriority (storage (exec (checkDailyPriority sample_host) initial_world)) = true /\
  needsPriority
    (storage (exec (submitPriority sample_host "Ship the report" fresh_popup)
                   (exec (checkDailyPriority sample_host) initial_world))) = false.
Proof.
  destruct (asked_once_a_day sample_host "Ship the report" fresh_popup initial_world)
    as ((H1 & _) & (H2 & _) & _).
  - vm_compute. discriminate.
  - reflexivity.
  - vm_compute. discriminate.
  - vm_compute. reflexivity.
  - vm_compute. reflexivity.
  - split; [ exact H1 | exact H2 ].
Defined.

(* ===================================================================== *)
(** ** The label list under the settings screen (popup.js) *)
(* ===================================================================== *)

Lemma array_set_not_empty {A : Type} (hole : A) (arr : list A) (i : nat) (v : A) :
  array_set hole arr i v <> [].
Proof. destruct arr, i; cbn; discriminate. Qed.

Lemma app_one_not_empty {A : Type} (l : list A) (x : A) : (l ++ [x])%list <> [].
Proof. destruct l; cbn; discriminate. Qed.

Lemma splice1_In {A : Type} (arr : list A) (i : nat) (x : A) :
  In x (splice1 arr i) -> In x arr.
Proof.
  revert i. induction arr as [|y r IH]; intros i H; [ exact H | ].
  destruct i as [|i]; cbn [splice1] in H.
  - right. exact H.
  - destruct H as [H|H]; [ left; exact H | right; apply (IH i); exact H ].
Qed.

Lemma splice1_NoDup {A : Type} (arr : list A) (i : nat) :
  NoDup arr -> NoDup (splice1 arr i).
Proof.
  revert i. induction arr as [|y r IH]; intros i H; [ exact H | ].
  inversion H as [|? ? Hy Hr]; subst.
  destruct i as [|i]; cbn [splice1]; [ exact Hr | ].
  constructor; [ | apply IH; exact Hr ].
  intro Hin. apply Hy. apply (splice1_In r i). exact Hin.
Qed.

Lemma array_set_In {A : Type} (hole : A) (arr : list A) (i : nat) (v x : A) :
  (i < List.length arr)%nat -> In x (array_set hole arr i v) -> x = v \/ In x arr.
Proof.
  revert i. induction arr as [|y r IH]; intros i Hi H; cbn [List.length] in Hi; [ lia | ].
  destruct i as [|i]; cbn [array_set] in H.
  - destruct H as [H|H]; [ left; congruence | right; right; exact H ].
  - destruct H as [H|H]; [ right; left; exact H | ].
    destruct (IH i ltac:(lia) H) as [E|E]; [ left; exact E | right; right; exact E ].
Qed.

(** Writing a name that is not in the array over one of its elements. *)
Lemma array_set_NoDup_fresh {A : Type} (hole : A) (arr : list A) (i : nat) (v : A) :
  (i < List.length arr)%nat -> NoDup arr -> ~ In v arr -> NoDup (array_set hole arr i v).
Proof.
  revert i. induction arr as [|y r IH]; intros i Hi Hn Hv; cbn [List.length] in Hi; [ lia | ].
  inversion Hn as [|? ? Hy Hr]; subst.
  destruct i as [|i]; cbn [array_set].
  - constructor; [ | exact Hr ]. intro Hin. apply Hv. right. exact Hin.
  - constructor.
    + intro Hin. destruct (array_set_In hole r i v y ltac:(lia) Hin) as [E|E].
      * apply Hv. left. exact E.
      * apply Hy. exact E.
    + apply IH; [ lia | exact Hr | ]. intro Hin. apply Hv. right. exact Hin.
Qed.

(** Writing an element over itself. *)
Lemma array_set_same {A : Type} (hole : A) (arr : list A) (i : nat) (v : A) :
  nth_error arr i = Some v -> array_set hole arr i v = arr.
Proof.
  revert i. induction arr as [|y r IH]; intros i H.
  - destruct i; discriminate.
  - destruct i as [|i]; cbn [array_set nth_error] in *.
    + congruence.
    + rewrite (IH i H). reflexivity.
Qed.

Lemma getLabelsRef_run (p : Popup) (w : World) :
  getLabelsRef p w =
  (Normal (labels_of p w, match customLabels (storage w) with Some _ => false | None => true end),
   w).
Proof.
  unfold getLabelsRef, labels_of, bind, storage_get, ret.
  destruct (customLabels (storage w)); reflexivity.
Qed.

(** What saving a changed list leaves: the list is stored, and it is the
    page's default list too when it was that array that was changed. *)
Lemma saved_labels (p : Popup) (w : World) (labels : list Label) :
  let aliased := match customLabels (storage w) with Some _ => false | None => true end in
  let p' := mutated aliased labels p in
  let w' := exec (saveLabels labels) w in
  labels_of p' w' = labels /\
  p_DEFAULT_LABELS p' = (if aliased then labels else p_DEFAULT_LABELS p).
Proof.
  cbv zeta. unfold labels_of, saveLabels, exec, storage_set, mutated.
  cbn [snd storage customLabels set_customLabels].
  destruct (customLabels (storage w)); split; reflexivity.
Qed.

Lemma addLabel_run (input : string) (p : Popup) (w : World) :
  addLabel input p w = (Normal p, w) \/
  (~ In (Some (trim input)) (labels_of p w) /\
   let labels := (labels_of p w ++ [Some (trim input)])%list in
   addLabel input p w =
   (Normal (mutated (match customLabels (storage w) with Some _ => false | None => true end)
                    labels p),
    exec (saveLabels labels) w)).
Proof.
  unfold addLabel.
  destruct (String.length (trim input) =? 0)%nat; [ left; reflexivity | ].
  destruct (50 <? String.length (trim input))%nat; [ left; reflexivity | ].
  unfold bind. rewrite getLabelsRef_run. cbv beta iota.
  destruct (existsb (label_eqb (Some (trim input))) (labels_of p w)) eqn:E;
    [ left; reflexivity | ].
  right. split.
  - intro Hin. apply includes_label in Hin. congruence.
  - reflexivity.
Qed.

Lemma editLabel_run (index : nat) (currentName : Label) (input : string) (p : Popup) (w : World) :
  editLabel index currentName input p w = (Normal p, w) \/
  ((In (Some (trim input)) (labels_of p w) -> Some (trim input) = currentName) /\
   let labels := array_set None (labels_of p w) index (Some (trim input)) in
   editLabel index currentName input p w =
   (Normal (mutated (match customLabels (storage w) with Some _ => false | None => true end)
                    labels p),
    exec (saveLabels labels) w)).
Proof.
  unfold editLabel.
  destruct (String.length (trim input) =? 0)%nat; [ left; reflexivity | ].
  destruct (50 <? String.length (trim input))%nat; [ left; reflexivity | ].
  unfold bind. rewrite getLabelsRef_run. cbv beta iota.
  destruct (existsb (label_eqb (Some (trim input))) (labels_of p w) &&
            negb (label_eqb (Some (trim input)) currentName)) eqn:E;
    [ left; reflexivity | ].
  right. split.
  - intro Hin. apply includes_label in Hin. rewrite Hin in E. cbn [andb] in E.
    apply Bool.negb_false_iff in E. apply label_eqb_eq in E. exact E.
  - reflexivity.
Qed.

Lemma deleteLabel_run (index : nat) (confirmed : bool) (p : Popup) (w : World) :
  deleteLabel index confirmed p w = (Normal p, w) \/
  (let aliased := match customLabels (storage w) with Some _ => false | None => true end in
   let labels := splice1 (labels_of p w) index in
   let p' := mutated aliased labels p in
   deleteLabel index confirmed p w =
   (Normal p', exec (saveLabels (match labels with [] => p_DEFAULT_LABELS p' | _ => labels end)) w)).
Proof.
  unfold deleteLabel. destruct confirmed; [ right | left; reflexivity ].
  cbv zeta. cbn [negb]. unfold bind. rewrite getLabelsRef_run. cbv beta iota.
  destruct (splice1 (labels_of p w) index); reflexivity.
Qed.

Lemma labels_ok_stored (p : Popup) (w : World) (labels : list Label) :
  labels_ok p w -> labels <> [] ->
  labels_ok (mutated (match customLabels (storage w) with Some _ => false | None => true end)
                     labels p)
            (exec (saveLabels labels) w).
Proof.
  unfold labels_ok, saveLabels, exec, storage_set, mutated.
  cbn [snd storage customLabels set_customLabels].
  intros Hok Hne. destruct (customLabels (storage w)) as [l|].
  - split; [ exact Hne | apply Hok ].
  - split; exact Hne.
Qed.

(** X13.  The label list never becomes empty.  For a page whose label list
    is in order (a stored list with an element, or no stored list and a
    default list of two or more, as every page is loaded), [getLabels]
    answers a non-empty list, and adding, renaming and deleting a label
    each return and leave page and storage in order again. *)
Theorem label_list_never_empty (p : Popup) (w : World) :
  labels_ok p w ->
  labels_of p w <> [] /\
  (forall input, exists p',
      result (addLabel input p) w = Normal p' /\ labels_ok p' (exec (addLabel input p) w)) /\
  (forall index currentName input, exists p',
      result (editLabel index currentName input p) w = Normal p' /\
      labels_ok p' (exec (editLabel index currentName input p) w)) /\
  (forall index confirmed, exists p',
      result (deleteLabel index confirmed p) w = Normal p' /\
      labels_ok p' (exec (deleteLabel index confirmed p) w)).
Proof.
  intro Hok.
  assert (Hne : labels_of p w <> []).
  { unfold labels_ok, labels_of in *. destruct (customLabels (storage w)) as [l|].
    - apply Hok.
    - destruct (p_DEFAULT_LABELS p); [ cbn in Hok; lia | discriminate ]. }
  split; [ exact Hne | split; [ | split ] ].
  - intro input. unfold result, exec.
    destruct (addLabel_run input p w) as [E | (_ & E)]; cbv zeta in E; rewrite E; cbn [fst snd].
    + exists p. split; [ reflexivity | exact Hok ].
    + eexists. split; [ reflexivity | ].
      apply labels_ok_stored; [ exact Hok | apply app_one_not_empty ].
  - intros index currentName input. unfold result, exec.
    destruct (editLabel_run index currentName input p w) as [E | (_ & E)];
      cbv zeta in E; rewrite E; cbn [fst snd].
    + exists p. split; [ reflexivity | exact Hok ].
    + eexists. split; [ reflexivity | ].
      apply labels_ok_stored; [ exact Hok | apply array_set_not_empty ].
  - intros index confirmed. unfold result, exec.
    destruct (deleteLabel_run index confirmed p w) as [E | E];
      cbv zeta in E; rewrite E; cbn [fst snd].
    + exists p. split; [ reflexivity | exact Hok ].
    + eexists. split; [ reflexivity | ].
      destruct (splice1 (labels_of p w) index) as [|x r] eqn:Es.
      * unfold labels_ok, labels_of, saveLabels, exec, storage_set, mutated in *.
        cbn [snd storage customLabels set_customLabels].
        destruct (customLabels (storage w)) as [l|].
        -- split; apply Hok.
        -- exfalso. destruct (p_DEFAULT_LABELS p) as [|a [|b r]]; cbn in Hok; try lia.
           destruct index as [|[|i]]; cbn in Es; discriminate.
      * unfold labels_ok, labels_of, saveLabels, exec, storage_set, mutated in *.
        cbn [snd storage customLabels set_customLabels].
        destruct (customLabels (storage w)) as [l|].
        -- split; [ discriminate | apply Hok ].
        -- cbn [p_DEFAULT_LABELS set_p_DEFAULT_LABELS]. split; discriminate.
Qed.

Lemma label_list_never_empty_witness :
  labels_of fresh_popup initial_world <> [] /\
  exists p', result (deleteLabel 0 true fresh_popup) initial_world = Normal p' /\
             labels_ok p' (exec (deleteLabel 0 true fresh_popup) initial_world).
Proof.
  destruct (label_list_never_empty fresh_popup initial_world) as (H & _ & _ & Hd).
  - unfold labels_ok. cbn. lia.
  - split; [ exact H | apply Hd ].
Defined.

(** X14.  Label names stay unique.  If no name occurs twice in the list a
    page works on, nor in its default list, this is still so after adding a
    label, after deleting one, and after renaming the label at [index] when
    [currentName] is the name at that index, as the settings screen passes
    it. *)
Theorem label_names_stay_unique (p : Popup) (w : World) :
  labels_unique p w ->
  (forall input, exists p',
      result (addLabel input p) w = Normal p' /\
      labels_unique p' (exec (addLabel input p) w)) /\
  (forall index currentName input,
      nth_error (labels_of p w) index = Some currentName ->
      exists p',
        result (editLabel index currentName input p) w = Normal p' /\
        labels_unique p' (exec (editLabel index currentName input p) w)) /\
  (forall index confirmed, exists p',
      result (deleteLabel index confirmed p) w = Normal p' /\
      labels_unique p' (exec (deleteLabel index confirmed p) w)).
Proof.
  intros (Hl & Hd).
  assert (K : forall labels, NoDup labels ->
            labels_unique
              (mutated (match customLabels (storage w) with Some _ => false | None => true end)
                       labels p)
              (exec (saveLabels labels) w)).
  { intros labels Hn. destruct (saved_labels p w labels) as (E1 & E2). cbv zeta in E1, E2.
    unfold labels_unique. rewrite E1, E2.
    split; [ exact Hn | ]. destruct (customLabels (storage w)); assumption. }
  split; [ | split ].
  - intro input. unfold result, exec.
    destruct (addLabel_run input p w) as [E | (Hfresh & E)]; cbv zeta in E; rewrite E;
      cbn [fst snd].
    + exists p. split; [ reflexivity | split; assumption ].
    + eexists. split; [ reflexivity | ]. apply K.
      apply (Permutation_NoDup (l := Some (trim input) :: labels_of p w)).
      * apply Permutation_cons_append.
      * constructor; assumption.
  - intros index currentName input Hcur. unfold result, exec.
    destruct (editLabel_run index currentName input p w) as [E | (Hfresh & E)];
      cbv zeta in E; rewrite E; cbn [fst snd].
    + exists p. split; [ reflexivity | split; assumption ].
    + eexists. split; [ reflexivity | ]. apply K.
      destruct (existsb (label_eqb (Some (trim input))) (labels_of p w)) eqn:Ex.
      * apply includes_label in Ex. rename Ex into Hin. rewrite <- (Hfresh Hin) in Hcur. rewrite (array_set_same _ _ _ _ Hcur). exact Hl.
      * assert (Hout : ~ In (Some (trim input)) (labels_of p w)).
        { intro Hin. apply includes_label in Hin. congruence. }
        apply array_set_NoDup_fresh; [ | exact Hl | exact Hout ].
        apply nth_error_Some. rewrite Hcur. discriminate.
  - intros index confirmed. unfold result, exec.
    destruct (deleteLabel_run index confirmed p w) as [E | E];
      cbv zeta in E; rewrite E; cbn [fst snd].
    + exists p. split; [ reflexivity | split; assumption ].
    + eexists. split; [ reflexivity | ].
      pose proof (splice1_NoDup (labels_of p w) index Hl) as Hs.
      destruct (saved_labels p w (splice1 (labels_of p w) index)) as (_ & E2). cbv zeta in E2.
      destruct (splice1 (labels_of p w) index) as [|x r] eqn:Es.
      * unfold labels_unique, labels_of, saveLabels, exec, storage_set.
        cbn [snd storage customLabels set_customLabels]. rewrite E2.
        destruct (customLabels (storage w)); split; first [ exact Hd | constructor ].
      * unfold labels_unique, labels_of, saveLabels, exec, storage_set.
        cbn [snd storage customLabels set_customLabels]. rewrite E2.
        split; [ exact Hs | ]. destruct (customLabels (storage w)); assumption.
Qed.

Lemma label_names_stay_unique_witness :
  exists p',
    result (editLabel 1 (Some "Meetings") " Calls " fresh_popup) initial_world = Normal p' /\
    labels_unique p' (exec (editLabel 1 (Some "Meetings") " Calls " fresh_popup) initial_world).
Proof.
  destruct (label_names_stay_unique fresh_popup initial_world) as (_ & He & _).
  - split; unfold labels_of; cbn;
      repeat (constructor; [ cbn; intuition discriminate | ]); constructor.
  - apply He. reflexivity.
Defined.

(* ===================================================================== *)
(** ** Further properties of the insights (utils.js) *)
(* ===================================================================== *)

Lemma read_only_refl (w : World) : read_only w w.
Proof. unfold read_only. auto. Qed.

Lemma read_only_trans (a b c : World) : read_only a b -> read_only b c -> read_only a c.
Proof.
  unfold read_only. intros (?&?&?&?) (?&?&?&?). repeat split; congruence.
Qed.

Ltac read_framed :=
  frame_with read_only_refl read_only_trans;
  try (intro w; unfold read_only; repeat split; reflexivity).


(** X15.  Looking at the data changes nothing.  The readers of utils.js,
    both insight generators and the timer line of the main menu leave
    storage, alarm, badge and notification exactly as they were, whether
    they return or throw. *)
Theorem reviews_are_read_only (host : Host) (p : Popup) (w : World) :
  read_only w (exec (getLabels p) w) /\
  read_only w (exec getTimeBlocks w) /\
  read_only w (exec (getTodayBlocks host) w) /\
  read_only w (exec (getWeekBlocks host) w) /\
  read_only w (exec (getTodayPriority host) w) /\
  read_only w (exec (hasPriorityToday host) w) /\
  read_only w (exec (generateDailyInsight host p) w) /\
  read_only w (exec (generateWeeklyInsights host p) w) /\
  read_only w (exec (updateTimerUI host) w).
Proof.
  assert (L : respects read_only (getLabels p)) by (unfold getLabels; read_framed).
  assert (B : respects read_only getTimeBlocks) by (unfold getTimeBlocks; read_framed).
  assert (T : respects read_only (getTodayBlocks host))
    by (unfold getTodayBlocks, getTimeBlocks; read_framed).
  assert (W : respects read_only (getWeekBlocks host))
    by (unfold getWeekBlocks, getTimeBlocks; read_framed).
  assert (P : respects read_only (getTodayPriority host))
    by (unfold getTodayPriority; read_framed).
  assert (H : respects read_only (hasPriorityToday host))
    by (unfold hasPriorityToday, getTodayPriority; read_framed).
  assert (D : respects read_only (generateDailyInsight host p)).
  { unfold generateDailyInsight.
    apply (respects_bind _ read_only_trans); [ exact P | intro priority ].
    apply (respects_bind _ read_only_trans); [ exact T | intro blocks ].
    destruct priority, blocks; read_framed; apply L. }
  assert (G : respects read_only (generateWeeklyInsights host p)).
  { unfold generateWeeklyInsights.
    apply (respects_bind _ read_only_trans); [ exact W | intro blocks ].
    apply (respects_bind _ read_only_trans);
      [ apply (respects_storage_get _ read_only_refl) | intro st ].
    apply (respects_bind _ read_only_trans); [ exact L | intro labels ].
    read_framed. }
  assert (U : respects read_only (updateTimerUI host)).
  { unfold updateTimerUI, onMessage. read_framed. }
  repeat split; first [ apply L | apply B | apply T | apply W | apply P | apply H
                      | apply D | apply G | apply U ].
Qed.

Lemma plain_labels_check (labels : list Label) :
  forallb (fun label => plain_key (label_key label)) labels = true -> plain_labels labels.
Proof.
  intro H. unfold plain_labels. apply Forall_forall.
  apply (proj1 (forallb_forall _ _)). exact H.
Qed.

Lemma plain_blocks_check (blocks : list TimeBlock) :
  forallb (fun block => plain_key (tb_label block)) blocks = true -> plain_blocks blocks.
Proof.
  intro H. unfold plain_blocks. apply Forall_forall.
  apply (proj1 (forallb_forall _ _)). exact H.
Qed.

(** X16.  With plain label names (none that [Object.prototype] defines) the
    daily insight never throws: it is [null] exactly when no priority is
    declared for today or no block is recorded today, and a message
    otherwise. *)
Theorem daily_insight_total (host : Host) (p : Popup) (w : World) :
  plain_labels (labels_of p w) ->
  plain_blocks (stored_blocks w) ->
  (result (generateDailyInsight host p) w = Normal None <->
   priority_now host w = None \/ blocks_now host (tick w) = []) /\
  (priority_now host w <> None -> blocks_now host (tick w) <> [] ->
   exists s, result (generateDailyInsight host p) w = Normal (Some s)).
Proof.
  intros Hl Hb. split.
  - apply generateDailyInsight_null_iff.
  - intros Hp Hne. apply generateDailyInsight_returns; assumption.
Qed.

Lemma daily_insight_total_witness :
  exists s, result (generateDailyInsight sample_host fresh_popup) client_report_world
            = Normal (Some s).
Proof.
  destruct (daily_insight_total sample_host fresh_popup client_report_world) as (_ & H).
  - apply plain_labels_check. vm_compute. reflexivity.
  - apply plain_blocks_check. vm_compute. reflexivity.
  - apply H; vm_compute; discriminate.
Defined.

Lemma obj_set_own_same {V : Type} (k : string) (v : V) (o : JsObject V) :
  k <> "__proto__" -> own k (obj_set k v o) = Some v.
Proof.
  intro N. unfold obj_set. destruct (String.eqb_spec k "__proto__"); [ contradiction | ].
  apply own_update_same.
Qed.

Lemma obj_set_own_other {V : Type} (k k' : string) (v : V) (o : JsObject V) :
  k' <> k -> own k' (obj_set k v o) = own k' o.
Proof.
  intro N. unfold obj_set. destruct (String.eqb k "__proto__"); [ reflexivity | ].
  apply own_update_other. exact N.
Qed.

Lemma obj_set_nodup {V : Type} (k : string) (v : V) (o : JsObject V) :
  NoDup (map fst o) -> NoDup (map fst (obj_set k v o)).
Proof.
  intro H. unfold obj_set. destruct (String.eqb k "__proto__"); [ exact H | ].
  apply own_update_nodup. exact H.
Qed.

(** The counters start at zero, one per key. *)
Lemma zero_counts_zero (labels : list Label) :
  NoDup (map fst (zero_counts labels)) /\
  forall k n, own k (zero_counts labels) = Some n -> n = 0.
Proof.
  unfold zero_counts.
  assert (H : forall acc : JsObject Z,
             NoDup (map fst acc) -> (forall k n, own k acc = Some n -> n = 0) ->
             NoDup (map fst (fold_left (fun labelCounts label =>
                                          obj_set (label_key label) 0 labelCounts) labels acc)) /\
             forall k n, own k (fold_left (fun labelCounts label =>
                                             obj_set (label_key label) 0 labelCounts) labels acc)
                         = Some n -> n = 0).
  { induction labels as [|l r IH]; intros acc Hn Hz; cbn [fold_left]; [ split; assumption | ].
    apply IH; [ apply obj_set_nodup; exact Hn | ].
    intros k n. unfold obj_set. destruct (String.eqb (label_key l) "__proto__"); [ apply Hz | ].
    destruct (String.eqb_spec k (label_key l)) as [->|N].
    - rewrite own_update_same. congruence.
    - rewrite own_update_other by exact N. apply Hz. }
  apply H; [ constructor | intros k n E; discriminate E ].
Qed.

(** One round of the counting loop adds one to the counter of the block's
    label and leaves the others. *)
Lemma count_block_value (labelCounts labelCounts' : JsObject Z) (block : TimeBlock) :
  plain_object labelCounts -> plain_key (tb_label block) = true ->
  NoDup (map fst labelCounts) ->
  count_block labelCounts block = Normal labelCounts' ->
  NoDup (map fst labelCounts') /\
  forall k,
    match own k labelCounts' with Some n => n | None => 0 end
    = match own k labelCounts with Some n => n | None => 0 end
      + (if String.eqb (tb_label block) k then 1 else 0).
Proof.
  intros Ho Hk Hn. unfold count_block. rewrite plain_object_method by exact Ho.
  cbn [cbind]. pose proof (plain_key_not_proto _ Hk) as Hproto.
  unfold has_own. destruct (own (tb_label block) labelCounts) as [n|] eqn:E.
  - rewrite E. intro H. inversion H. subst labelCounts'. clear H. split.
    + apply own_update_nodup. exact Hn.
    + intro k. destruct (String.eqb_spec (tb_label block) k) as [<-|N].
      * rewrite own_update_same, E. reflexivity.
      * rewrite own_update_other by congruence. lia.
  - rewrite obj_set_own_same by exact Hproto. intro H. inversion H. subst labelCounts'. clear H.
    split.
    + apply own_update_nodup, obj_set_nodup. exact Hn.
    + intro k. destruct (String.eqb_spec (tb_label block) k) as [<-|N].
      * rewrite own_update_same, E. reflexivity.
      * rewrite own_update_other by congruence.
        rewrite obj_set_own_other by congruence. lia.
Qed.

Lemma count_blocks_value (blocks : list TimeBlock) :
  forall labelCounts labelCounts',
    plain_object labelCounts -> plain_blocks blocks -> NoDup (map fst labelCounts) ->
    count_blocks labelCounts blocks = Normal labelCounts' ->
    NoDup (map fst labelCounts') /\
    forall k,
      match own k labelCounts' with Some n => n | None => 0 end
      = match own k labelCounts with Some n => n | None => 0 end
        + Z.of_nat (count_label k blocks).
Proof.
  induction blocks as [|b r IH]; intros c c' Hc Hb Hn; cbn [count_blocks].
  - intro H. inversion H. subst c'. split; [ exact Hn | ]. intro k. cbn. lia.
  - inversion Hb as [|? ? Hpb Hr]; subst.
    destruct (count_block_plain c b Hc Hpb) as (c1 & E1 & P1 & _ & _).
    rewrite E1. cbn [cbind]. intro E2.
    destruct (count_block_value c c1 b Hc Hpb Hn E1) as (N1 & V1).
    destruct (IH c1 c' P1 Hr N1 E2) as (N2 & V2).
    split; [ exact N2 | ]. intro k. rewrite V2, V1.
    unfold count_label. cbn [filter].
    destruct (String.eqb (tb_label b) k); cbn [List.length]; lia.
Qed.

(** Properties set one after the other from a list of distinct keys. *)
Lemma fold_obj_set {V W : Type} (f : V -> W) (l : list (string * V)) :
  forall acc : JsObject W,
    (forall kv, In kv l -> fst kv <> "__proto__") ->
    NoDup (map fst l) -> NoDup (map fst acc) ->
    NoDup (map fst (fold_left (fun o kv => obj_set (fst kv) (f (snd kv)) o) l acc)) /\
    forall k,
      own k (fold_left (fun o kv => obj_set (fst kv) (f (snd kv)) o) l acc)
      = match own k l with Some v => Some (f v) | None => own k acc end.
Proof.
  induction l as [|[k0 v0] r IH]; intros acc Hp Hl Ha; cbn [fold_left].
  - split; [ exact Ha | reflexivity ].
  - cbn [map fst] in Hl. inversion Hl as [|? ? Hk0 Hr]; subst.
    destruct (IH (obj_set k0 (f v0) acc)) as (N & O).
    + intros kv Hin. apply Hp. right. exact Hin.
    + exact Hr.
    + apply obj_set_nodup. exact Ha.
    + split; [ exact N | ]. intro k. rewrite O. cbn [own fst snd].
      destruct (String.eqb_spec k k0) as [->|Nk].
      * apply own_none in Hk0. rewrite Hk0.
        apply obj_set_own_same. apply (Hp (k0, v0)). left. reflexivity.
      * destruct (own k r); [ reflexivity | ].
        apply obj_set_own_other. exact Nk.
Qed.

Lemma own_entries {V : Type} (o : JsObject V) (k : string) :
  NoDup (map fst o) -> own k (entries o) = own k o.
Proof.
  intro Hn. pose proof (entries_nodup o Hn) as He.
  destruct (own k o) as [v|] eqn:E.
  - apply In_own; [ exact He | ]. apply (proj2 (entries_In o k v Hn)). apply own_In. exact E.
  - destruct (own k (entries o)) as [v|] eqn:E'; [ | reflexivity ].
    apply own_In in E'. apply (proj1 (entries_In o k v Hn)) in E'.
    apply In_own in E'; [ | exact Hn ]. congruence.
Qed.

(** The hours object: a quarter of an hour per counted block, per key. *)
Lemma hours_of_value (labelCounts : JsObject Z) :
  plain_object labelCounts -> NoDup (map fst labelCounts) ->
  NoDup (map fst (hours_of labelCounts)) /\
  forall k,
    own k (hours_of labelCounts)
    = match own k labelCounts with
      | Some n => Some (inject_Z n * (1 # 4))%Q
      | None => None
      end.
Proof.
  intros Hp Hn. unfold hours_of.
  destruct (fold_obj_set (fun n : Z => (inject_Z n * (1 # 4))%Q) (entries labelCounts) [])
    as (N & O).
  - intros kv Hin. apply plain_key_not_proto. apply Hp.
    apply (Permutation_in _ (keys_perm labelCounts)).
    rewrite <- entries_keys. apply in_map, Hin.
  - apply entries_nodup. exact Hn.
  - constructor.
  - split; [ exact N | ]. intro k. rewrite O. rewrite own_entries by exact Hn.
    destruct (own k labelCounts); reflexivity.
Qed.

(** The reduction keeps an entry with the most hours. *)
Lemma reduce_max (l : list (string * Q)) :
  forall x e,
    In e (x :: l) ->
    (snd e <= snd (fold_left (fun a b => if Qgtb (snd a) (snd b) then a else b) l x))%Q.
Proof.
  induction l as [|y r IH]; intros x e Hin; cbn [fold_left].
  - destruct Hin as [<-|[]]. apply Qle_refl.
  - destruct (Qgtb (snd x) (snd y)) eqn:G.
    + apply Qgtb_true in G.
      destruct Hin as [<-|[<-|Hin]].
      * apply IH. left. reflexivity.
      * apply Qle_trans with (snd x); [ apply Qlt_le_weak, G | apply IH; left; reflexivity ].
      * apply IH. right. exact Hin.
    + apply Qgtb_false in G.
      destruct Hin as [<-|[<-|Hin]].
      * apply Qle_trans with (snd y); [ exact G | apply IH; left; reflexivity ].
      * apply IH. left. reflexivity.
      * apply IH. right. exact Hin.
Qed.

Lemma quarter_le (n m : Z) :
  (inject_Z n * (1 # 4) <= inject_Z m * (1 # 4))%Q -> n <= m.
Proof. unfold Qle. cbn. lia. Qed.

(** X17.  The dominant label is the most frequent one.  With plain label
    names and at least one block, counting returns, every counter holds the
    number of blocks with that label, and the dominant label is the label of
    some block, no label has more blocks than it, and the hours given for
    it are a quarter of an hour per block. *)
Theorem dominant_is_most_frequent (labels : list Label) (blocks : list TimeBlock) :
  plain_labels labels -> plain_blocks blocks -> blocks <> [] ->
  exists labelCounts dom,
    count_blocks (zero_counts labels) blocks = Normal labelCounts /\
    dominant (hours_of labelCounts) = Normal dom /\
    (forall l n, own l labelCounts = Some n -> n = Z.of_nat (count_label l blocks)) /\
    (0 < count_label (fst dom) blocks)%nat /\
    (forall l, (count_label l blocks <= count_label (fst dom) blocks)%nat) /\
    snd dom = (inject_Z (Z.of_nat (count_label (fst dom) blocks)) * (1 # 4))%Q.
Proof.
  intros Hl Hb Hne.
  destruct (count_blocks_plain blocks (zero_counts labels) (zero_counts_plain _ Hl) Hb)
    as (c & Ec & Pc & Ic & _).
  destruct (zero_counts_zero labels) as (Nz & Zz).
  destruct (count_blocks_value blocks (zero_counts labels) c (zero_counts_plain _ Hl) Hb Nz Ec)
    as (Nc & Vc).
  assert (Cnt : forall l n, own l c = Some n -> n = Z.of_nat (count_label l blocks)).
  { intros l n E. specialize (Vc l). rewrite E in Vc.
    destruct (own l (zero_counts labels)) as [z|] eqn:Ez; [ | lia ].
    apply Zz in Ez. lia. }
  assert (Hc : c <> []).
  { destruct blocks as [|b r]; [ congruence | ].
    specialize (Ic b (or_introl eq_refl)). intro E. rewrite E in Ic. exact Ic. }
  destruct (hours_of_plain c Pc) as (Ph & Nh).
  destruct (hours_of_value c Pc Nc) as (Nhh & Vh).
  destruct (dominant_plain (hours_of c) Ph (Nh Hc)) as (dom & Ed & _).
  assert (Hdom : In dom (entries (hours_of c)) /\
                 forall e, In e (entries (hours_of c)) -> (snd e <= snd dom)%Q).
  { unfold dominant, reduce in Ed. destruct (entries (hours_of c)) as [|x r]; [ discriminate | ].
    inversion Ed as [Ed']. split.
    - apply (reduce_pick (fun a b => Qgtb (snd a) (snd b)) r x).
    - intros e He. apply reduce_max. exact He. }
  destruct Hdom as (Din & Dmax).
  assert (Dval : exists m, own (fst dom) c = Some m /\ snd dom = (inject_Z m * (1 # 4))%Q).
  { destruct dom as [dl dh]. apply (proj1 (entries_In _ dl dh Nhh)) in Din.
    apply In_own in Din; [ | exact Nhh ]. rewrite Vh in Din. cbn [fst snd].
    destruct (own dl c) as [m|]; [ | discriminate ].
    exists m. split; [ reflexivity | congruence ]. }
  destruct Dval as (m & Em & Eh).
  pose proof (Cnt _ _ Em) as Hm.
  assert (Most : forall l, (count_label l blocks <= count_label (fst dom) blocks)%nat).
  { intro l. destruct (count_label l blocks) as [|j] eqn:Ej; [ lia | ]. rewrite <- Ej.
    assert (Hin : In l (map fst c)).
    { unfold count_label in Ej.
      destruct (filter (fun block => String.eqb (tb_label block) l) blocks) as [|b r] eqn:F;
        [ discriminate | ].
      assert (Hb' : In b (filter (fun block => String.eqb (tb_label block) l) blocks))
        by (rewrite F; left; reflexivity).
      apply filter_In in Hb'. destruct Hb' as (Hb1 & Hb2). apply String.eqb_eq in Hb2.
      rewrite <- Hb2. apply Ic. exact Hb1. }
    destruct (own l c) as [n|] eqn:En; [ | apply own_none in En; contradiction ].
    pose proof (Cnt _ _ En) as Hn.
    assert (He : In (l, (inject_Z n * (1 # 4))%Q) (entries (hours_of c))).
    { apply (proj2 (entries_In _ l _ Nhh)). apply own_In. rewrite Vh, En. reflexivity. }
    apply Dmax in He. cbn [snd] in He. rewrite Eh in He. apply quarter_le in He. lia. }
  exists c, dom. split; [ exact Ec | split; [ exact Ed | split; [ exact Cnt | ] ] ].
  split; [ | split; [ exact Most | rewrite Eh, Hm; reflexivity ] ].
  destruct blocks as [|b r]; [ congruence | ].
  specialize (Most (tb_label b)). unfold count_label at 1 in Most. cbn [filter] in Most.
  rewrite String.eqb_refl in Most. cbn [List.length] in Most. lia.
Qed.

Lemma dominant_is_most_frequent_witness :
  exists labelCounts dom,
    count_blocks (zero_counts DEFAULT_LABELS)
                 (blocks_labelled ["Work"; "Meetings"; "Work"]) = Normal labelCounts /\
    dominant (hours_of labelCounts) = Normal dom /\
    (count_label "Meetings" (blocks_labelled ["Work"; "Meetings"; "Work"])
       <= count_label (fst dom) (blocks_labelled ["Work"; "Meetings"; "Work"]))%nat.
Proof.
  destruct (dominant_is_most_frequent DEFAULT_LABELS
              (blocks_labelled ["Work"; "Meetings"; "Work"]))
    as (c & dom & Ec & Ed & _ & _ & Most & _).
  - apply plain_labels_check. vm_compute. reflexivity.
  - apply plain_blocks_check. vm_compute. reflexivity.
  - discriminate.
  - exists c, dom. split; [ exact Ec | split; [ exact Ed | apply Most ] ].
Defined.




(* ===================================================================== *)
(** ** The main menu and the tagging screen (popup.js) *)
(* ===================================================================== *)

Lemma padStart2_seconds (s : Z) :
  0 <= s < 60 -> String.length (padStart2 (string_of_Z s)) = 2%nat.
Proof.
  intro H.
  assert (A : forallb (fun n => (String.length (padStart2 (string_of_Z (Z.of_nat n))) =? 2)%nat)
                      (seq 0 60) = true) by (vm_compute; reflexivity).
  rewrite forallb_forall in A. specialize (A (Z.to_nat s)).
  rewrite Z2Nat.id in A by lia. apply Nat.eqb_eq. apply A. apply in_seq. lia.
Qed.

Lemma elapsed_split (elapsed : Z) :
  0 <= elapsed ->
  0 <= elapsed_minutes elapsed /\
  0 <= elapsed_seconds elapsed < 60 /\
  0 <= elapsed - (60000 * elapsed_minutes elapsed + 1000 * elapsed_seconds elapsed) < 1000.
Proof.
  intro H. unfold elapsed_minutes, elapsed_seconds.
  rewrite Z.rem_mod_nonneg by lia.
  pose proof (Z.div_mod elapsed 60000 ltac:(lia)) as D1.
  pose proof (Z.mod_pos_bound elapsed 60000 ltac:(lia)) as B1.
  pose proof (Z.div_mod (elapsed mod 60000) 1000 ltac:(lia)) as D2.
  pose proof (Z.mod_pos_bound (elapsed mod 60000) 1000 ltac:(lia)) as B2.
  pose proof (Z.div_pos elapsed 60000 H ltac:(lia)) as P1.
  pose proof (Z.div_pos (elapsed mod 60000) 1000 ltac:(lia) ltac:(lia)) as P2.
  assert (U : (elapsed mod 60000) / 1000 < 60)
    by (apply Z.div_lt_upper_bound; lia).
  repeat split; lia.
Qed.

(** What [updateTimerUI] shows for a running timer with no pending block. *)
Lemma updateTimerUI_running (host : Host) (w : World) (t : Z) :
  isRunning (storage w) = true ->
  pendingBlock (storage w) = None ->
  timerStart (storage w) = Some t ->
  t <> 0 ->
  result (updateTimerUI host) w =
  Normal (mkTimerUI "none" "block"
            ("▶ Running - " ++ string_of_Z (elapsed_minutes (now_at host w 0 - t)) ++ ":"
             ++ padStart2 (string_of_Z (elapsed_seconds (now_at host w 0 - t))) ++ " elapsed")
            "timer-status running").
Proof.
  intros Hr Hp Ht Hz. unfold now_at. rewrite Nat.add_0_r.
  unfold updateTimerUI, onMessage, result. unfold bind at 1. unfold bind at 1.
  unfold storage_get at 1. cbv beta iota. unfold ret at 1. cbv beta iota.
  cbn [ts_isRunning ts_timerStart ts_pendingBlock].
  pose proof (proj2 (Z.eqb_neq t 0) Hz) as Hz'.
  rewrite Hr, Hp, Ht. unfold truthy_num. rewrite ?Hz'.
  cbv beta iota delta [negb]. rewrite ?Hz'. cbv beta iota.
  unfold bind, Date_now, ret. reflexivity.
Qed.

(** X19.  The status line of a running timer.  In a world the extension
    gets into, the clock never running backwards, [updateTimerUI] shows for
    a running timer with no pending block the time since [timerStart] as
    minutes and seconds: neither is negative, the seconds are below sixty
    and printed with two digits, and together they are the elapsed time up
    to less than a second. *)
Theorem timer_status_line (host : Host) (w : World) (t : Z) :
  monotone host ->
  reachable host w ->
  isRunning (storage w) = true ->
  pendingBlock (storage w) = None ->
  timerStart (storage w) = Some t ->
  t <> 0 ->
  let elapsed := now_at host w 0 - t in
  let minutes := elapsed_minutes elapsed in
  let seconds := elapsed_seconds elapsed in
  result (updateTimerUI host) w =
    Normal (mkTimerUI "none" "block"
              ("▶ Running - " ++ string_of_Z minutes ++ ":"
               ++ padStart2 (string_of_Z seconds) ++ " elapsed")
              "timer-status running") /\
  0 <= minutes /\
  0 <= seconds < 60 /\
  0 <= elapsed - (60000 * minutes + 1000 * seconds) < 1000 /\
  String.length (padStart2 (string_of_Z seconds)) = 2%nat.
Proof.
  intros Hm Hreach Hr Hp Ht Hz. cbv zeta.
  split; [ apply updateTimerUI_running; assumption | ].
  assert (He : 0 <= now_at host w 0 - t).
  { destruct (reachable_engine host Hm w Hreach) as (Hpast & _).
    destruct (Hpast t Ht) as (i & Hi & ->).
    unfold now_at. rewrite Nat.add_0_r.
    pose proof (Hm i (ticks w) ltac:(lia)). lia. }
  destruct (elapsed_split _ He) as (A & B & C).
  split; [ exact A | split; [ exact B | split; [ exact C | ] ] ].
  apply padStart2_seconds. exact B.
Qed.

Lemma timer_status_line_witness :
  result (updateTimerUI quarter_host) quarter_started =
  Normal (mkTimerUI "none" "block" "▶ Running - 15:00 elapsed" "timer-status running").
Proof.
  destruct (timer_status_line quarter_host quarter_started 1700000000000) as (H & _).
  - apply quarter_host_monotone.
  - apply reach_step; [ apply reach_init | reflexivity ].
  - reflexivity.
  - reflexivity.
  - reflexivity.
  - discriminate.
  - rewrite H. vm_compute. reflexivity.
Defined.




(* ===================================================================== *)
(** ** Badge and notification (background.js, popup.js) *)
(* ===================================================================== *)













(* ===================================================================== *)
(** ** The avoidance streak and the number of avoidance blocks *)
(* ===================================================================== *)

Lemma leading_run_count {A : Type} (P : A -> bool) (l : list A) :
  (leading_run P l <= List.length (filter P l))%nat.
Proof.
  induction l as [|x r IH]; cbn [leading_run filter]; [ lia | ].
  destruct (P x); cbn [List.length]; lia.
Qed.

Lemma best_run_count {A : Type} (P : A -> bool) (l : list A) :
  (best_run P l <= List.length (filter P l))%nat.
Proof.
  induction l as [|x r IH]; cbn [best_run filter]; [ lia | ].
  pose proof (leading_run_count P r).
  destruct (P x); cbn [List.length]; lia.
Qed.

Lemma best_run_positive {A : Type} (P : A -> bool) (l : list A) :
  (0 < List.length (filter P l))%nat -> (0 < best_run P l)%nat.
Proof.
  induction l as [|x r IH]; cbn [best_run filter]; [ cbn; lia | ].
  destruct (P x); cbn [List.length]; [ lia | exact IH ].
Qed.

Lemma filter_length_perm {A : Type} (P : A -> bool) (l l' : list A) :
  Permutation l l' -> List.length (filter P l) = List.length (filter P l').
Proof.
  induction 1 as [ | x l l' _ IH | x y l | l l' l'' _ IH1 _ IH2 ]; cbn [filter].
  - reflexivity.
  - destruct (P x); cbn [List.length]; lia.
  - destruct (P x), (P y); reflexivity.
  - lia.
Qed.

(** X22.  The avoidance streak counts avoidance blocks only: it is never
    longer than the number of blocks of the week that carry the avoidance
    label, whatever the order they are stored in, and it is zero exactly
    when no block carries that label. *)
Theorem streak_within_avoidance_blocks (labels : list Label) (blocks : list TimeBlock) :
  let avoidance := breakLabelOf labels in
  (longestStreakOf labels blocks
     <= List.length (filter (has_label avoidance) blocks))%nat /\
  (longestStreakOf labels blocks = 0%nat <->
   forall block, In block blocks -> has_label avoidance block = false).
Proof.
  cbv zeta. rewrite longestStreakOf_best.
  destruct (sort_by_start_sorted blocks) as (Hperm & _).
  pose proof (filter_length_perm (has_label (breakLabelOf labels)) _ _ Hperm) as Hlen.
  pose proof (best_run_count (has_label (breakLabelOf labels)) (sort_by_start blocks)) as Hle.
  split; [ lia | ]. split.
  - intros Hz block Hin.
    destruct (has_label (breakLabelOf labels) block) eqn:E; [ | reflexivity ].
    exfalso.
    assert (Hf : In block (filter (has_label (breakLabelOf labels)) blocks))
      by (apply filter_In; split; assumption).
    assert (Hpos : (0 < List.length (filter (has_label (breakLabelOf labels)) blocks))%nat).
    { destruct (filter (has_label (breakLabelOf labels)) blocks); [ destruct Hf | cbn; lia ]. }
    rewrite Hlen in Hpos. apply best_run_positive in Hpos. lia.
  - intro Hnone.
    assert (Hf : filter (has_label (breakLabelOf labels)) blocks = []).
    { destruct (filter (has_label (breakLabelOf labels)) blocks) as [|b r] eqn:F;
        [ reflexivity | ].
      assert (Hb : In b (filter (has_label (breakLabelOf labels)) blocks))
        by (rewrite F; left; reflexivity).
      apply filter_In in Hb. destruct Hb as (Hb1 & Hb2).
      rewrite (Hnone b Hb1) in Hb2. discriminate. }
    rewrite Hf in Hlen. cbn [List.length] in Hlen. lia.
Qed.

(* ===================================================================== *)
(** ** The start and stop buttons (popup.js) *)
(* ===================================================================== *)








(* ===================================================================== *)
(** ** Which side writes which keys *)
(* ===================================================================== *)

Lemma user_data_refl (w : World) : user_data_kept w w.
Proof. unfold user_data_kept. auto. Qed.

Lemma user_data_trans (a b c : World) :
  user_data_kept a b -> user_data_kept b c -> user_data_kept a c.
Proof.
  unfold user_data_kept. intros (?&?&?) (?&?&?). repeat split; congruence.
Qed.

Ltac user_data_framed :=
  frame_with user_data_refl user_data_trans;
  try (intro w; unfold user_data_kept; repeat split; reflexivity).

(** X24.  Who writes what.  The service worker (start-up, the check every
    minute, the alarm, every message) never changes the stored blocks, the
    daily priorities or the label list; the popup's own handlers (opening,
    the priority prompt, the two writes of a label submission, the settings
    screen) never change [isRunning], [timerStart] or the alarm. *)
Theorem who_writes_what (host : Host) (ev : Event) (w : World) :
  let w' := exec (handle host ev) w in
  (service_worker_event ev = true -> user_data_kept w w') /\
  (service_worker_event ev = false ->
   isRunning (storage w') = isRunning (storage w) /\
   timerStart (storage w') = timerStart (storage w) /\
   alarm w' = alarm w).
Proof.
  cbv zeta. split.
  - intro Hsw. apply (fun H : respects user_data_kept (handle host ev) => H w).
    destruct ev as [ | | | a | p | input p | p | | input p | index cur input p | index c p ];
      try discriminate Hsw; unfold handle, forget.
    + unfold initialize, checkDailyPriority, checkTimerState, triggerInterrupt,
        scheduleNextInterrupt, updateBadge, ensureNotificationExists. user_data_framed.
    + unfold periodicCheck, checkTimerState, triggerInterrupt,
        scheduleNextInterrupt, updateBadge, ensureNotificationExists. user_data_framed.
    + unfold onAlarm, triggerInterrupt. user_data_framed.
    + destruct a; unfold onMessage, scheduleNextInterrupt, updateBadge; user_data_framed.
  - intro Hsw.
    assert (F : timer_frame w (exec (handle host ev) w)).
    { apply (fun H : respects timer_frame (handle host ev) => H w).
      destruct ev as [ | | | a | p | input p | p | | input p | index cur input p | index c p ];
        try discriminate Hsw; unfold handle, forget.
      + apply (respects_bind _ timer_frame_trans); [ apply initializePopup_frame | intro ].
        apply (respects_ret _ timer_frame_refl).
      + apply (respects_bind _ timer_frame_trans); [ apply submitPriority_frame | intro ].
        apply (respects_ret _ timer_frame_refl).
      + destruct (submit_valid p);
          [ apply submit_save_frame | apply (respects_ret _ timer_frame_refl) ].
      + apply submit_clear_frame.
      + apply (respects_bind _ timer_frame_trans); [ apply addLabel_timer | intro ].
        apply (respects_ret _ timer_frame_refl).
      + apply (respects_bind _ timer_frame_trans); [ apply editLabel_timer | intro ].
        apply (respects_ret _ timer_frame_refl).
      + apply (respects_bind _ timer_frame_trans); [ apply deleteLabel_timer | intro ].
        apply (respects_ret _ timer_frame_refl). }
    destruct F as (Fa & Fr & Ft & _). repeat split; assumption.
Qed.

Lemma who_writes_what_witness :
  user_data_kept awaiting_world (exec (handle sample_host (EvMessage stopTimer)) awaiting_world) /\
  alarm (exec (handle sample_host (EvSubmitSave awaiting_popup)) awaiting_world)
  = alarm awaiting_world.
Proof.
  split.
  - destruct (who_writes_what sample_host (EvMessage stopTimer) awaiting_world) as (H & _).
    apply H. reflexivity.
  - destruct (who_writes_what sample_host (EvSubmitSave awaiting_popup) awaiting_world)
      as (_ & H).
    destruct H as (_ & _ & H); [ reflexivity | exact H ].
Defined.
